(** * Peer-support chat bot: matchmaking, relay, moderation and history

    A shallow embedding of [bot.py] and [database.py].  The five tables of
    [database.py] are lists of records kept in row (insertion) order; every
    handler of [bot.py] is a function from the store and the inbound event
    to the new store and the list of outbound platform calls it makes.
    Queries that end in [scalar_one_or_none] raise when more than one row
    matches, so handlers live in a small error monad. *)

From Stdlib Require Import ZArith List String Ascii Bool Lia Permutation Sorted.
From Stdlib Require Decimal DecimalString DecimalPos DecimalZ.
Import ListNotations.
Local Open Scope Z_scope.

Set Implicit Arguments.

(** ** Exceptions and the error monad

    [Raise e] is a handler left by the exception [e]; what the handler had
    committed or sent before that point is not recorded. *)

Inductive exn : Type :=
| MultipleResultsFound   (* sqlalchemy: scalar_one_or_none on several rows *)
| ValueError             (* int() on a non-numeric string *)
| IndexError             (* list index out of range *)
| OverflowError.         (* sqlite3: a Python int beyond 64 bits bound to a statement *)

Inductive result (A : Type) : Type :=
| Ok (a : A)
| Raise (e : exn).

Arguments Ok {A} a.
Arguments Raise {A} e.

Definition bind {A B : Type} (m : result A) (k : A -> result B) : result B :=
  match m with
  | Ok a => k a
  | Raise e => Raise e
  end.

Notation "x <- m ;; k" := (bind m (fun x => k))
  (at level 61, m at next level, right associativity).

(** ** config.py *)

Definition MIN_AGE : Z := 14.
Definition MAX_AGE : Z := 18.

(** ** database.py: the five tables

    Integer columns are Python integers ([Z]); [DateTime] columns are
    instants on a linear clock ([Z]); nullable columns are options.  The
    Boolean columns are only ever written with [True] or [False]. *)

Module User.
Record t : Type := mk {
  id : Z;
  telegram_id : Z;
  age : Z;
  is_banned : bool;
  registered_at : Z;
  current_chat_id : option Z;
  current_role : option string;
  current_problem : option string
}.

Definition with_is_banned (b : bool) (u : t) : t :=
  mk (id u) (telegram_id u) (age u) b (registered_at u)
     (current_chat_id u) (current_role u) (current_problem u).

Definition with_current_chat_id (c : option Z) (u : t) : t :=
  mk (id u) (telegram_id u) (age u) (is_banned u) (registered_at u)
     c (current_role u) (current_problem u).

Definition with_role_problem (r p : string) (u : t) : t :=
  mk (id u) (telegram_id u) (age u) (is_banned u) (registered_at u)
     (current_chat_id u) (Some r) (Some p).
End User.

Module Chat.
Record t : Type := mk {
  id : Z;
  user1_id : Z;
  user2_id : Z;
  role1 : string;
  role2 : string;
  problem_type : string;
  created_at : Z;
  is_active : bool;
  ended_at : option Z
}.

Definition ended (now : Z) (c : t) : t :=
  mk (id c) (user1_id c) (user2_id c) (role1 c) (role2 c) (problem_type c)
     (created_at c) false (Some now).
End Chat.

Module Message.
Record t : Type := mk {
  id : Z;
  chat_id : Z;
  user_id : Z;
  text : string;
  sent_at : Z
}.
End Message.

Module ChatHistory.
Record t : Type := mk {
  id : Z;
  user_id : Z;
  chat_id : Z;
  viewed_at : Z
}.

Definition with_viewed_at (now : Z) (h : t) : t :=
  mk (id h) (user_id h) (chat_id h) now.
End ChatHistory.

Module QueueEntry.
Record t : Type := mk {
  id : Z;
  user_id : Z;
  role : string;
  problem_type : string;
  age : Z;
  joined_at : Z
}.
End QueueEntry.

Record DB : Type := mkDB {
  users : list User.t;
  chats : list Chat.t;
  messages : list Message.t;
  chat_history : list ChatHistory.t;
  queue_entries : list QueueEntry.t
}.

Definition with_users (f : list User.t -> list User.t) (db : DB) : DB :=
  mkDB (f (users db)) (chats db) (messages db) (chat_history db) (queue_entries db).

Definition with_chats (f : list Chat.t -> list Chat.t) (db : DB) : DB :=
  mkDB (users db) (f (chats db)) (messages db) (chat_history db) (queue_entries db).

Definition with_messages (f : list Message.t -> list Message.t) (db : DB) : DB :=
  mkDB (users db) (chats db) (f (messages db)) (chat_history db) (queue_entries db).

Definition with_chat_history (f : list ChatHistory.t -> list ChatHistory.t) (db : DB) : DB :=
  mkDB (users db) (chats db) (messages db) (f (chat_history db)) (queue_entries db).

Definition with_queue_entries (f : list QueueEntry.t -> list QueueEntry.t) (db : DB) : DB :=
  mkDB (users db) (chats db) (messages db) (chat_history db) (f (queue_entries db)).

(** ** The session layer *)

(** [Result.scalar_one_or_none]: no row, the one row, or an exception. *)
Definition scalar_one_or_none {A : Type} (rows : list A) : result (option A) :=
  match rows with
  | [] => Ok None
  | [r] => Ok (Some r)
  | _ :: _ :: _ => Raise MultipleResultsFound
  end.

(** [Result.first]: the first row of the result, if any. *)
Definition first {A : Type} (rows : list A) : option A :=
  match rows with
  | [] => None
  | r :: _ => Some r
  end.

(** An autoincremented integer primary key: one more than the largest key
    in the table, 1 in an empty table. *)
Definition fresh_id (ids : list Z) : Z := 1 + fold_right Z.max 0 ids.

(** [ORDER BY key]: the rows by ascending key, rows with equal keys in row
    order, as SQLite's sorter returns them.  Each row is inserted in front
    of the rows after it that do not have a smaller key. *)
Fixpoint insert_by {A : Type} (key : A -> Z) (x : A) (l : list A) : list A :=
  match l with
  | [] => [x]
  | y :: l' => if key x <=? key y then x :: l else y :: insert_by key x l'
  end.

Definition order_by {A : Type} (key : A -> Z) (l : list A) : list A :=
  fold_right (insert_by key) [] l.

(** The order of the rows of an [ORDER BY key] result. *)
Definition key_le {A : Type} (key : A -> Z) (a b : A) : Prop := key a <= key b.

(** Python truthiness of a nullable integer: [None] and [0] are false. *)
Definition truthy (c : option Z) : bool :=
  match c with
  | Some n => negb (n =? 0)
  | None => false
  end.

(** A mapped object written back on flush: [UPDATE ... WHERE id = ?]. *)
Definition update_user (uid : Z) (f : User.t -> User.t) : DB -> DB :=
  with_users (map (fun u => if User.id u =? uid then f u else u)).

Definition update_chat (cid : Z) (f : Chat.t -> Chat.t) : DB -> DB :=
  with_chats (map (fun c => if Chat.id c =? cid then f c else c)).

Definition update_history_entry (hid : Z) (f : ChatHistory.t -> ChatHistory.t) : DB -> DB :=
  with_chat_history (map (fun h => if ChatHistory.id h =? hid then f h else h)).

Definition update_queue_entry (qid : Z) (f : QueueEntry.t -> QueueEntry.t) : DB -> DB :=
  with_queue_entries (map (fun q => if QueueEntry.id q =? qid then f q else q)).

(** An SQLite INTEGER holds 64 signed bits: the driver raises
    [OverflowError] when a Python integer outside that range is bound to a
    statement. *)
Definition sqlite_integer (n : Z) : bool :=
  (-9223372036854775808 <=? n) && (n <=? 9223372036854775807).

Arguments sqlite_integer : simpl never.

(** [select(User).where(User.telegram_id == ...)] and its siblings. *)
Definition select_user_by_telegram_id (db : DB) (tg : Z) : result (option User.t) :=
  scalar_one_or_none (filter (fun u => User.telegram_id u =? tg) (users db)).

Definition select_user_by_id (db : DB) (uid : Z) : result (option User.t) :=
  scalar_one_or_none (filter (fun u => User.id u =? uid) (users db)).

(** [select(Chat).where(Chat.id == ...)].  This is the one query that is
    given an integer a user has typed (the number of a [view_chat_]
    payload); the others are given the platform's account id or a value
    read from a row. *)
Definition select_chat_by_id (db : DB) (cid : Z) : result (option Chat.t) :=
  if sqlite_integer cid
  then scalar_one_or_none (filter (fun c => Chat.id c =? cid) (chats db))
  else Raise OverflowError.

Definition select_queue_entry (db : DB) (uid : Z) : result (option QueueEntry.t) :=
  scalar_one_or_none (filter (fun q => QueueEntry.user_id q =? uid) (queue_entries db)).

Definition history_of (uid : Z) (h : ChatHistory.t) : bool :=
  ChatHistory.user_id h =? uid.

Definition history_for (uid cid : Z) (h : ChatHistory.t) : bool :=
  (ChatHistory.user_id h =? uid) && (ChatHistory.chat_id h =? cid).

Definition select_history_entry (db : DB) (uid cid : Z) : result (option ChatHistory.t) :=
  scalar_one_or_none (filter (history_for uid cid) (chat_history db)).

(** ** Outbound platform calls *)

Inductive notice : Type :=
| NoticeStartFirst        (* "please begin with /start" *)
| NoticeBanned            (* "you are blocked and cannot use the bot" *)
| NoticePermanentBan      (* "you used profanity: lifetime ban" *)
| NoticePartnerNotFound   (* "partner not found" *)
| NoticeChatNotActive     (* "the chat is not active" *)
| NoticeNoActiveChatStart (* "no active chat, use /start to find a partner" *)
| NoticeAccessDenied      (* "access denied" *)
| NoticeSearching         (* "looking for a partner, please wait" *)
| NoticeQueued            (* "no partner yet, you are in the waiting queue" *)
| NoticePartnerEndedChat  (* "your partner ended the chat" *)
| NoticeChatEnded         (* "chat ended" *)
| NoticeChatNotFound      (* "chat not found" *)
| NoticeNoActiveChat      (* "you have no active chat" *)
| NoticeNoHistory         (* "you have no chat history yet" *)
| NoticeNoMessages.       (* "there are no messages in this chat" *)

(** The speaker prefix of a transcript line. *)
Inductive prefix : Type :=
| You             (* "Вы" *)
| Interlocutor.   (* "Собеседник" *)

Record transcript_line : Type := mkLine {
  line_prefix : prefix;
  line_text : string;
  line_sent_at : Z
}.

Inductive text : Type :=
| Fixed (n : notice)
| Verbatim (s : string)
| PartnerFound (partner_age own_age : Z)
| MainMenu (has_chat : bool)
| RoleMenu
| ProblemMenu (role : string)
| HistoryMenu (buttons : list (nat * Z * string))  (* index, partner age, callback data *)
| Transcript (lines : list transcript_line).

Inductive action : Type :=
| reply_text (t : text)                  (* update.message.reply_text *)
| edit_message_text (t : text)           (* query.edit_message_text *)
| send_message (chat_id : Z) (t : text)  (* context.bot.send_message *)
| set_user_data_role (role : string).    (* context.user_data['role'] = role *)

(** ** bot.py: the age band *)

Definition get_age_range (user_age : Z) : Z * Z :=
  if user_age =? 14 then (14, 16)
  else if user_age =? 15 then (14, 17)
  else if user_age =? 16 then (14, 18)
  else if user_age =? 17 then (15, 18)
  else if user_age =? 18 then (16, 18)
  else (MIN_AGE, MAX_AGE).

(** [lo <= age <= hi] for a band [(lo, hi)]. *)
Definition in_band (band : Z * Z) (age : Z) : Prop :=
  fst band <= age /\ age <= snd band.

(** ** Python string primitives used by the handlers

    A [str] is held as the bytes of its UTF-8 encoding. *)

(** [str.split(sep)] for a one-character separator: never empty, and empty
    fields are kept. *)
Fixpoint split (sep : ascii) (s : string) : list string :=
  match s with
  | EmptyString => [EmptyString]
  | String c s' =>
      if Ascii.eqb c sep then EmptyString :: split sep s'
      else match split sep s' with
           | [] => [String c EmptyString]
           | h :: t => String c h :: t
           end
  end.

(** [sep.join(parts)]. *)
Definition join (sep : string) (parts : list string) : string :=
  String.concat sep parts.

(** [s.startswith(p)]. *)
Definition startswith (s p : string) : bool := String.prefix p s.

(** [parts[i]]. *)
Definition index {A : Type} (parts : list A) (i : nat) : result A :=
  match nth_error parts i with
  | Some x => Ok x
  | None => Raise IndexError
  end.

Definition byte (c : ascii) : Z := Z.of_N (N_of_ascii c).

(** [Py_ISSPACE]: the white space of the C locale. *)
Definition is_space (c : ascii) : bool :=
  let n := N_of_ascii c in
  ((9 <=? n) && (n <=? 13))%N || (n =? 32)%N.

Fixpoint lstrip (s : string) : string :=
  match s with
  | EmptyString => EmptyString
  | String c s' => if is_space c then lstrip s' else s
  end.

Fixpoint rstrip (s : string) : string :=
  match s with
  | EmptyString => EmptyString
  | String c s' =>
      match rstrip s' with
      | EmptyString => if is_space c then EmptyString else String c EmptyString
      | r => String c r
      end
  end.

(** [sep in s] for a one-character [sep]. *)
Fixpoint contains (sep : ascii) (s : string) : bool :=
  match s with
  | EmptyString => false
  | String c s' => Ascii.eqb c sep || contains sep s'
  end.

Definition digit_of (c : ascii) : option Z :=
  let n := byte c in
  if (48 <=? n) && (n <=? 57) then Some (n - 48) else None.

Definition is_digit (c : ascii) : bool :=
  match digit_of c with
  | Some _ => true
  | None => false
  end.

Fixpoint all_digits (s : string) : bool :=
  match s with
  | EmptyString => true
  | String c s' => is_digit c && all_digits s'
  end.

(** [Py_UNICODE_ISSPACE] above U+007F. *)
Definition unicode_space (cp : Z) : bool :=
  existsb (Z.eqb cp) [133; 160; 5760; 8232; 8233; 8239; 8287; 12288]
  || ((8192 <=? cp) && (cp <=? 8202)).

(** The digit zero of every script with decimal digits, by code point
    (Unicode 14.0, the database of CPython 3.11); the nine code points
    after each are its digits one to nine. *)
Definition decimal_zeros : list Z :=
  [1632; 1776; 1984; 2406; 2534; 2662; 2790; 2918; 3046; 3174; 3302; 3430;
   3558; 3664; 3792; 3872; 4160; 4240; 6112; 6160; 6470; 6608; 6784; 6800;
   6992; 7088; 7232; 7248; 42528; 43216; 43264; 43472; 43504; 43600; 44016;
   65296; 66720; 68912; 69734; 69872; 69942; 70096; 70384; 70736; 70864;
   71248; 71360; 71472; 71904; 72016; 72784; 73040; 73120; 92768; 92864;
   93008; 120782; 120792; 120802; 120812; 120822; 123200; 123632; 125264;
   130032].

(** [Py_UNICODE_TODECIMAL] above U+007F. *)
Definition unicode_decimal (cp : Z) : option Z :=
  match find (fun zero => (zero <=? cp) && (cp <=? zero + 9)) decimal_zeros with
  | Some zero => Some (cp - zero)
  | None => None
  end.

(** What [_PyUnicode_TransformDecimalAndSpaceToASCII] writes for a code
    point above U+007F: a blank for white space, the ASCII digit for a
    decimal digit.  For any other code point it writes ['?'] and cuts the
    text there, which no literal survives: that is [None]. *)
Definition ascii_of_code_point (cp : Z) : option ascii :=
  if unicode_space cp then Some " "%char
  else match unicode_decimal cp with
       | Some d => Some (ascii_of_N (Z.to_N (48 + d)))
       | None => None
       end.

(** The payload of a UTF-8 continuation byte. *)
Definition continuation (c : ascii) : option Z :=
  let n := byte c in
  if (128 <=? n) && (n <=? 191) then Some (n - 128) else None.

Definition transformed (cp : Z) (rest : option string) : option string :=
  match ascii_of_code_point cp, rest with
  | Some c, Some r => Some (String c r)
  | _, _ => None
  end.

(** [_PyUnicode_TransformDecimalAndSpaceToASCII] on the UTF-8 bytes: ASCII
    is kept, every longer sequence is decoded and replaced. *)
Fixpoint to_ascii (s : string) : option string :=
  match s with
  | EmptyString => Some EmptyString
  | String a s1 =>
      let n := byte a in
      if n <=? 127 then option_map (String a) (to_ascii s1)
      else if n <=? 191 then None
      else
        match s1 with
        | String b s2 =>
            match continuation b with
            | Some x =>
                if n <=? 223 then transformed ((n - 192) * 64 + x) (to_ascii s2)
                else
                  match s2 with
                  | String c s3 =>
                      match continuation c with
                      | Some y =>
                          if n <=? 239 then
                            let cp := (n - 224) * 4096 + x * 64 + y in
                            if cp <=? 2047 then None else transformed cp (to_ascii s3)
                          else
                            match s3 with
                            | String d s4 =>
                                match continuation d with
                                | Some z =>
                                    let cp :=
                                      (n - 240) * 262144 + x * 4096 + y * 64 + z in
                                    if (n <=? 247) && (65536 <=? cp)
                                    then transformed cp (to_ascii s4)
                                    else None
                                | None => None
                                end
                            | EmptyString => None
                            end
                      | None => None
                      end
                  | EmptyString => None
                  end
            | None => None
            end
        | EmptyString => None
        end
  end.

(** The digits of a literal: single underscores are allowed between
    digits. *)
Fixpoint parse_digits (acc : Z) (s : string) : option Z :=
  match s with
  | EmptyString => Some acc
  | String c s' =>
      match digit_of c with
      | Some d => parse_digits (10 * acc + d) s'
      | None =>
          if Ascii.eqb c "_" then
            match s' with
            | String c' _ => if is_digit c' then parse_digits acc s' else None
            | EmptyString => None
            end
          else None
      end
  end.

Definition parse_unsigned (s : string) : option Z :=
  match s with
  | String c _ => if is_digit c then parse_digits 0 s else None
  | EmptyString => None
  end.

(** [PyLong_FromString] in base 10: surrounding white space is dropped,
    one sign is allowed, then come the digits. *)
Definition long_from_string (s : string) : option Z :=
  let body := rstrip (lstrip s) in
  match body with
  | String c r =>
      if Ascii.eqb c "+" then parse_unsigned r
      else if Ascii.eqb c "-" then option_map Z.opp (parse_unsigned r)
      else parse_unsigned body
  | EmptyString => None
  end.

(** [int(s)] for a [str].  (CPython refuses literals of more than 4300
    digits; a button payload holds 64 bytes, and the limit is left out.) *)
Definition py_int (s : string) : result Z :=
  match to_ascii s with
  | Some literal =>
      match long_from_string literal with
      | Some z => Ok z
      | None => Raise ValueError
      end
  | None => Raise ValueError
  end.

(** [str(n)], as in the f-string [f"view_chat_{chat.id}"]. *)
Definition py_str (n : Z) : string :=
  DecimalString.NilEmpty.string_of_int (Z.to_int n).

(** ** bot.py: the queue *)

Definition add_to_queue (now : Z) (db : DB) (user : User.t) (role problem : string)
  : result DB :=
  existing <- select_queue_entry db (User.id user) ;;
  match existing with
  | Some existing =>
      Ok (update_queue_entry (QueueEntry.id existing)
            (fun q => QueueEntry.mk (QueueEntry.id q) (QueueEntry.user_id q)
                        role problem (User.age user) now) db)
  | None =>
      Ok (with_queue_entries
            (fun l => l ++ [QueueEntry.mk (fresh_id (map QueueEntry.id l))
                              (User.id user) role problem (User.age user) now]) db)
  end.

Definition remove_from_queue (db : DB) (user_id : Z) : DB :=
  with_queue_entries (filter (fun q => negb (QueueEntry.user_id q =? user_id))) db.

(** ** bot.py: the match search *)

Definition opposite_role (role : string) : string :=
  if String.eqb role "support" then "receive_support"%string else "support"%string.

(** [select(QueueEntry, User).join(User, QueueEntry.user_id == User.id)] *)
Definition queue_join_users (db : DB) : list (QueueEntry.t * User.t) :=
  flat_map
    (fun q => map (pair q)
                (filter (fun u => User.id u =? QueueEntry.user_id q) (users db)))
    (queue_entries db).

Definition is_none {A : Type} (o : option A) : bool :=
  match o with
  | None => true
  | Some _ => false
  end.

(** The [and_(...)] of the [where] clause. *)
Definition match_where (user : User.t) (opposite problem : string) (min_age max_age : Z)
  (row : QueueEntry.t * User.t) : bool :=
  negb (QueueEntry.user_id (fst row) =? User.id user)
  && String.eqb (QueueEntry.role (fst row)) opposite
  && String.eqb (QueueEntry.problem_type (fst row)) problem
  && (min_age <=? User.age (snd row))
  && (User.age (snd row) <=? max_age)
  && negb (User.is_banned (snd row))
  && is_none (User.current_chat_id (snd row)).

Definition match_candidates (db : DB) (user : User.t) (role problem : string)
  : list (QueueEntry.t * User.t) :=
  let opposite := opposite_role role in
  let '(min_age, max_age) := get_age_range (User.age user) in
  order_by (fun row => QueueEntry.joined_at (fst row))
    (filter (match_where user opposite problem min_age max_age) (queue_join_users db)).

Definition find_match (db : DB) (user : User.t) (role problem : string) : option User.t :=
  match first (match_candidates db user role problem) with
  | Some (queue_entry, matched_user) =>
      let '(match_min_age, match_max_age) := get_age_range (User.age matched_user) in
      if (match_min_age <=? User.age user) && (User.age user <=? match_max_age)
      then Some matched_user
      else None
  | None => None
  end.

(** The [where] clause of [find_match] read row by row: the queue entry
    [q] of the user [u] may be offered to [user], who asks with [role] on
    [problem]. *)
Definition eligible (db : DB) (user : User.t) (role problem : string)
  (q : QueueEntry.t) (u : User.t) : Prop :=
  In q (queue_entries db) /\ In u (users db) /\ User.id u = QueueEntry.user_id q /\
  QueueEntry.user_id q <> User.id user /\
  ((role = "support"%string /\ QueueEntry.role q = "receive_support"%string) \/
   (role <> "support"%string /\ QueueEntry.role q = "support"%string)) /\
  QueueEntry.problem_type q = problem /\
  in_band (get_age_range (User.age user)) (User.age u) /\
  User.is_banned u = false /\
  User.current_chat_id u = None.

(** ** bot.py: chat creation *)

Definition create_chat (now : Z) (db : DB) (user1 user2 : User.t) (role1 problem : string)
  : DB * Chat.t :=
  let role2 := opposite_role role1 in
  let chat := Chat.mk (fresh_id (map Chat.id (chats db))) (User.id user1) (User.id user2)
                role1 role2 problem now true None in
  let db1 := with_chats (fun l => l ++ [chat]) db in
  let db2 := update_user (User.id user1) (User.with_current_chat_id (Some (Chat.id chat))) db1 in
  let db3 := update_user (User.id user2) (User.with_current_chat_id (Some (Chat.id chat))) db2 in
  (db3, chat).

(** ** bot.py: the message relay *)

Section Relay.

(** [profanity_filter.check_profanity] is imported from a module that is
    not part of the sources; the relay is parametric in it. *)
Variable check_profanity : string -> bool.

Definition partner_id_of (chat : Chat.t) (user : User.t) : Z :=
  if Chat.user1_id chat =? User.id user then Chat.user2_id chat else Chat.user1_id chat.

Definition handle_message (now : Z) (db : DB) (user_id : Z) (message_text : string)
  : result (DB * list action) :=
  user <- select_user_by_telegram_id db user_id ;;
  match user with
  | None => Ok (db, [reply_text (Fixed NoticeStartFirst)])
  | Some user =>
      if User.is_banned user then Ok (db, [reply_text (Fixed NoticeBanned)])
      else if check_profanity message_text then
        Ok (update_user (User.id user) (User.with_is_banned true) db,
            [reply_text (Fixed NoticePermanentBan)])
      else
        match User.current_chat_id user with
        | Some chat_id =>
            if negb (chat_id =? 0) then
              chat <- select_chat_by_id db chat_id ;;
              match chat with
              | Some chat =>
                  if Chat.is_active chat then
                    partner <- select_user_by_id db (partner_id_of chat user) ;;
                    match partner with
                    | Some partner =>
                        let message :=
                          Message.mk (fresh_id (map Message.id (messages db)))
                            (Chat.id chat) (User.id user) message_text now in
                        Ok (with_messages (fun l => l ++ [message]) db,
                            [send_message (User.telegram_id partner) (Verbatim message_text)])
                    | None => Ok (db, [reply_text (Fixed NoticePartnerNotFound)])
                    end
                  else Ok (db, [reply_text (Fixed NoticeChatNotActive)])
              | None => Ok (db, [reply_text (Fixed NoticeChatNotActive)])
              end
            else Ok (db, [reply_text (Fixed NoticeNoActiveChatStart)])
        | None => Ok (db, [reply_text (Fixed NoticeNoActiveChatStart)])
        end
  end.

End Relay.

(** ** bot.py: the history recorded when a chat ends *)

(** What an awaited [session.delete(instance)] does at the next flush. *)
Definition session_delete (instance : ChatHistory.t) : DB -> DB :=
  with_chat_history (filter (fun h => negb (ChatHistory.id h =? ChatHistory.id instance))).

(** [session] is an [AsyncSession], whose [delete] is a coroutine function.
    The source calls [session.delete(old_entry)] without [await]: the
    coroutine object is built and dropped, its body never runs, and no row
    is marked for deletion. *)
Definition session_delete_not_awaited (instance : ChatHistory.t) : DB -> DB :=
  fun db => db.

(** The block "save the chat history" of the [end_chat] branch, which the
    source writes out once for the user and once for the partner; [delete]
    is the effect of the statement [session.delete(old_entry)]. *)
Definition record_history_with (delete : ChatHistory.t -> DB -> DB)
  (now : Z) (db : DB) (uid cid : Z) : result DB :=
  existing_entry <- select_history_entry db uid cid ;;
  match existing_entry with
  | None =>
      let user_history_count :=
        Z.of_nat (List.length (filter (history_of uid) (chat_history db))) in
      db1 <-
        (if 3 <=? user_history_count then
           old_entry <-
             scalar_one_or_none
               (firstn 1 (order_by ChatHistory.viewed_at
                            (filter (history_of uid) (chat_history db)))) ;;
           match old_entry with
           | Some old_entry => Ok (delete old_entry db)
           | None => Ok db
           end
         else Ok db) ;;
      Ok (with_chat_history
            (fun l => l ++ [ChatHistory.mk (fresh_id (map ChatHistory.id l)) uid cid now])
            db1)
  | Some existing_entry =>
      Ok (update_history_entry (ChatHistory.id existing_entry)
            (ChatHistory.with_viewed_at now) db)
  end.

Definition record_history : Z -> DB -> Z -> Z -> result DB :=
  record_history_with session_delete_not_awaited.

(** ** bot.py: the menu router

    [clk k] is the value of the [k]-th call of [datetime.utcnow()] made
    while the handler runs. *)

Definition end_chat (clk : nat -> Z) (db : DB) (user : User.t)
  : result (DB * list action) :=
  match User.current_chat_id user with
  | Some current_chat_id =>
      if negb (current_chat_id =? 0) then
        chat <- select_chat_by_id db current_chat_id ;;
        match chat with
        | Some chat =>
            let db1 := update_chat (Chat.id chat) (Chat.ended (clk 0%nat)) db in
            partner <- select_user_by_id db1 (partner_id_of chat user) ;;
            let db2 :=
              match partner with
              | Some partner =>
                  update_user (User.id partner) (User.with_current_chat_id None) db1
              | None => db1
              end in
            let notified :=
              match partner with
              | Some partner =>
                  [send_message (User.telegram_id partner) (Fixed NoticePartnerEndedChat)]
              | None => []
              end in
            let db3 := update_user (User.id user) (User.with_current_chat_id None) db2 in
            db4 <- record_history (clk 1%nat) db3 (User.id user) (Chat.id chat) ;;
            db5 <-
              match partner with
              | Some partner =>
                  record_history (clk 2%nat) db4 (User.id partner) (Chat.id chat)
              | None => Ok db4
              end ;;
            Ok (db5, notified ++ [edit_message_text (Fixed NoticeChatEnded)])
        | None => Ok (db, [edit_message_text (Fixed NoticeChatNotFound)])
        end
      else Ok (db, [edit_message_text (Fixed NoticeNoActiveChat)])
  | None => Ok (db, [edit_message_text (Fixed NoticeNoActiveChat)])
  end.

Definition menu_problem (clk : nat -> Z) (db : DB) (user : User.t) (data : string)
  : result (DB * list action) :=
  let parts := split "_" data in
  role <- index parts 2 ;;
  let problem := join "_" (skipn 3 parts) in
  let user := User.with_role_problem role problem user in
  let db1 := update_user (User.id user) (User.with_role_problem role problem) db in
  db2 <- add_to_queue (clk 0%nat) db1 user role problem ;;
  match find_match db2 user role problem with
  | Some matched =>
      let '(db3, chat) := create_chat (clk 1%nat) db2 user matched role problem in
      let db4 := remove_from_queue db3 (User.id user) in
      let db5 := remove_from_queue db4 (User.id matched) in
      Ok (db5,
          [edit_message_text (Fixed NoticeSearching);
           send_message (User.telegram_id user)
             (PartnerFound (User.age matched) (User.age user));
           send_message (User.telegram_id matched)
             (PartnerFound (User.age user) (User.age matched))])
  | None =>
      Ok (db2,
          [edit_message_text (Fixed NoticeSearching);
           send_message (User.telegram_id user) (Fixed NoticeQueued)])
  end.

Definition show_main_menu (user : User.t) : list action :=
  [edit_message_text (MainMenu (truthy (User.current_chat_id user)))].

(** [select(ChatHistory, Chat).join(Chat, ChatHistory.chat_id == Chat.id)] *)
Definition history_join_chats (db : DB) : list (ChatHistory.t * Chat.t) :=
  flat_map
    (fun h => map (pair h)
                (filter (fun c => Chat.id c =? ChatHistory.chat_id h) (chats db)))
    (chat_history db).

Fixpoint history_buttons (db : DB) (user : User.t) (i : nat)
  (entries : list (ChatHistory.t * Chat.t)) : result (list (nat * Z * string)) :=
  match entries with
  | [] => Ok []
  | (history_entry, chat) :: rest =>
      partner <- select_user_by_id db (partner_id_of chat user) ;;
      keyboard <- history_buttons db user (S i) rest ;;
      match partner with
      | Some partner =>
          Ok ((i, User.age partner, ("view_chat_" ++ py_str (Chat.id chat))%string)
              :: keyboard)
      | None => Ok keyboard
      end
  end.

Definition show_chat_history (db : DB) (user : User.t) : result (list action) :=
  let history_entries :=
    firstn 3
      (order_by (fun row => - ChatHistory.viewed_at (fst row))
         (filter (fun row => ChatHistory.user_id (fst row) =? User.id user)
            (history_join_chats db))) in
  match history_entries with
  | [] => Ok [edit_message_text (Fixed NoticeNoHistory)]
  | _ =>
      keyboard <- history_buttons db user 1%nat history_entries ;;
      Ok [edit_message_text (HistoryMenu keyboard)]
  end.

Definition render_line (user : User.t) (message : Message.t) : transcript_line :=
  let is_own := Message.user_id message =? User.id user in
  mkLine (if is_own then You else Interlocutor) (Message.text message)
    (Message.sent_at message).

Definition chat_messages (db : DB) (chat_id : Z) : list Message.t :=
  order_by Message.sent_at
    (filter (fun m => Message.chat_id m =? chat_id) (messages db)).

Definition view_chat_history (db : DB) (user : User.t) (chat_id : Z)
  : result (list action) :=
  chat <- select_chat_by_id db chat_id ;;
  match chat with
  | None => Ok [edit_message_text (Fixed NoticeChatNotFound)]
  | Some _ =>
      match chat_messages db chat_id with
      | [] => Ok [edit_message_text (Fixed NoticeNoMessages)]
      | messages => Ok [edit_message_text (Transcript (map (render_line user) messages))]
      end
  end.

Definition handle_callback (clk : nat -> Z) (db : DB) (user_id : Z) (data : string)
  : result (DB * list action) :=
  user <- select_user_by_telegram_id db user_id ;;
  match user with
  | None => Ok (db, [edit_message_text (Fixed NoticeAccessDenied)])
  | Some user =>
      if User.is_banned user then Ok (db, [edit_message_text (Fixed NoticeAccessDenied)])
      else if String.eqb data "find_match" then Ok (db, [edit_message_text RoleMenu])
      else if startswith data "menu_role_" then
        role <- index (split "_" data) 2 ;;
        Ok (db, [set_user_data_role role; edit_message_text (ProblemMenu role)])
      else if startswith data "menu_problem_" then menu_problem clk db user data
      else if String.eqb data "chat_history" then
        out <- show_chat_history db user ;; Ok (db, out)
      else if String.eqb data "end_chat" then end_chat clk db user
      else if startswith data "view_chat_" then
        part <- index (split "_" data) 2 ;;
        chat_id <- py_int part ;;
        out <- view_chat_history db user chat_id ;; Ok (db, out)
      else if String.eqb data "back_to_menu" then Ok (db, show_main_menu user)
      else Ok (db, [])
  end.

(** ** bot.py: the periodic matching sweep *)

Record sweep_state : Type := mkSweep {
  sweep_db : DB;
  processed_users : list Z;
  sweep_sent : list action;
  sweep_clock : nat          (* calls of [datetime.utcnow()] so far *)
}.

Definition mem (x : Z) (s : list Z) : bool := existsb (Z.eqb x) s.

(** Python's [user.is_banned or user.current_chat_id]. *)
Definition stale_row (user : User.t) : bool :=
  User.is_banned user || truthy (User.current_chat_id user).

(** The user of a queue entry is missing, banned or in a chat. *)
Definition stale_in (db : DB) (uid : Z) : Prop :=
  (forall u, In u (users db) -> User.id u <> uid) \/
  (exists u, In u (users db) /\ User.id u = uid /\ stale_row u = true).

Definition mark_processed (uid : Z) (st : sweep_state) : sweep_state :=
  mkSweep (sweep_db st) (uid :: processed_users st) (sweep_sent st) (sweep_clock st).

(** One turn of the [for queue_entry in queue_entries] loop. *)
Definition sweep_step (clk : nat -> Z) (st : sweep_state) (queue_entry : QueueEntry.t)
  : result sweep_state :=
  if mem (QueueEntry.user_id queue_entry) (processed_users st) then Ok st
  else
    user <- select_user_by_id (sweep_db st) (QueueEntry.user_id queue_entry) ;;
    match user with
    | Some user =>
        if stale_row user then
          Ok (mkSweep (remove_from_queue (sweep_db st) (QueueEntry.user_id queue_entry))
                (processed_users st) (sweep_sent st) (sweep_clock st))
        else
          match find_match (sweep_db st) user (QueueEntry.role queue_entry)
                  (QueueEntry.problem_type queue_entry) with
          | Some matched =>
              match_user <- select_user_by_id (sweep_db st) (User.id matched) ;;
              match match_user with
              | Some match_user =>
                  if negb (truthy (User.current_chat_id match_user)) then
                    let '(db1, chat) :=
                      create_chat (clk (sweep_clock st)) (sweep_db st) user match_user
                        (QueueEntry.role queue_entry)
                        (QueueEntry.problem_type queue_entry) in
                    let db2 := remove_from_queue db1 (User.id user) in
                    let db3 := remove_from_queue db2 (User.id match_user) in
                    Ok (mkSweep db3
                          (User.id user :: User.id match_user :: processed_users st)
                          (sweep_sent st ++
                           [send_message (User.telegram_id user)
                              (PartnerFound (User.age match_user) (User.age user));
                            send_message (User.telegram_id match_user)
                              (PartnerFound (User.age user) (User.age match_user))])
                          (S (sweep_clock st)))
                  else Ok (mark_processed (User.id user) st)
              | None => Ok (mark_processed (User.id user) st)
              end
          | None => Ok (mark_processed (User.id user) st)
          end
    | None =>
        Ok (mkSweep (remove_from_queue (sweep_db st) (QueueEntry.user_id queue_entry))
              (processed_users st) (sweep_sent st) (sweep_clock st))
    end.

(** The loop over the rows loaded at the start of the run.  An exception
    leaves the loop; the [except] clause around the whole body logs it, so
    the task itself never raises.  Every change made before that point is
    already committed. *)
Fixpoint sweep_loop (clk : nat -> Z) (st : sweep_state) (entries : list QueueEntry.t)
  : sweep_state * option exn :=
  match entries with
  | [] => (st, None)
  | queue_entry :: rest =>
      match sweep_step clk st queue_entry with
      | Ok st' => sweep_loop clk st' rest
      | Raise e => (st, Some e)
      end
  end.

Definition periodic_matchmaking_task (clk : nat -> Z) (db : DB)
  : sweep_state * option exn :=
  sweep_loop clk (mkSweep db [] [] 0%nat) (queue_entries db).

(** What holds of the state of the sweep of the store [db0] once the rows
    [done] of its queue have been visited. *)
Record sweep_inv (db0 : DB) (done : list QueueEntry.t) (st : sweep_state) : Prop := {
  inv_ids : map User.id (users (sweep_db st)) = map User.id (users db0);
  inv_stale_rows :
    forall u, In u (users db0) -> stale_row u = true -> In u (users (sweep_db st));
  inv_processed :
    forall uid, In uid (processed_users st) -> ~ stale_in db0 uid;
  inv_removed :
    forall e, In e done -> stale_in db0 (QueueEntry.user_id e) ->
    forall q, In q (queue_entries (sweep_db st)) ->
              QueueEntry.user_id q <> QueueEntry.user_id e;
  inv_chats :
    forall c, In c (chats (sweep_db st)) ->
              In c (chats db0) \/
              (~ stale_in db0 (Chat.user1_id c) /\ ~ stale_in db0 (Chat.user2_id c))
}.

(** ** bot.py: the onboarding conversation *)

(** The states of the [ConversationHandler]; [END] is
    [ConversationHandler.END]. *)
Inductive conversation_state : Type :=
| WAITING_AGE
| WAITING_ROLE
| WAITING_PROBLEM
| END.

(** [context.user_data], with the four keys the handlers write. *)
Record user_data : Type := mkUserData {
  ud_age : option Z;
  ud_user_id : option Z;
  ud_role : option string;
  ud_problem : option string
}.

Inductive flow_exn : Type :=
| KeyError                 (* context.user_data['role'] without the key *)
| IntegrityError           (* insert against the unique telegram_id *)
| SessionError (e : exn).

Inductive outcome (A : Type) : Type :=
| Done (a : A)
| Failed (e : flow_exn).

Arguments Done {A} a.
Arguments Failed {A} e.

Inductive onboarding_notice : Type :=
| WelcomeAskAge           (* "welcome ... please state your age (14 to 18)" *)
| AgeOutOfRange           (* "only users from 14 to 18 may use this bot" *)
| AgeNotANumber           (* "please enter a valid age (a number from 14 to 18)" *)
| RegisteredChooseRole    (* "registration complete ... choose a category" *)
| ChooseProblem           (* "choose a problem" *)
| UserNotFound.           (* "error: user not found" *)

Inductive onboarding_action : Type :=
| reply_notice (n : onboarding_notice)   (* update.message.reply_text *)
| edit_notice (n : onboarding_notice)    (* query.edit_message_text *)
| platform (a : action).                 (* a call the other handlers make too *)

Definition start (db : DB) (user_id : Z)
  : result (conversation_state * list onboarding_action) :=
  user <- select_user_by_telegram_id db user_id ;;
  match user with
  | Some user =>
      if User.is_banned user then Ok (END, [platform (reply_text (Fixed NoticeBanned))])
      else
        (* show_main_menu, on the branch [update.message] *)
        Ok (END, [platform (reply_text (MainMenu (truthy (User.current_chat_id user))))])
  | None => Ok (WAITING_AGE, [reply_notice WelcomeAskAge])
  end.

Section Onboarding.

(** Python's [int] on the text of a message; [None] is [ValueError]. *)
Variable int_of_text : string -> option Z.

Definition handle_age (now : Z) (db : DB) (user_id : Z) (text : string) (ud : user_data)
  : outcome (DB * conversation_state * user_data * list onboarding_action) :=
  match int_of_text text with
  | Some age =>
      if (age <? MIN_AGE) || (age >? MAX_AGE) then
        Done (db, WAITING_AGE, ud, [reply_notice AgeOutOfRange])
      else
        let ud1 := mkUserData (Some age) (ud_user_id ud) (ud_role ud) (ud_problem ud) in
        if existsb (fun u => User.telegram_id u =? user_id) (users db) then
          Failed IntegrityError
        else
          let user := User.mk (fresh_id (map User.id (users db))) user_id age false now
                        None None None in
          Done (with_users (fun l => l ++ [user]) db, WAITING_ROLE,
                mkUserData (Some age) (Some (User.id user)) (ud_role ud1) (ud_problem ud1),
                [reply_notice RegisteredChooseRole])
  | None => Done (db, WAITING_AGE, ud, [reply_notice AgeNotANumber])
  end.

End Onboarding.

Definition handle_role_selection (data : string) (ud : user_data)
  : result (conversation_state * user_data * list onboarding_action) :=
  role <- index (split "_" data) 1 ;;
  Ok (WAITING_PROBLEM,
      mkUserData (ud_age ud) (ud_user_id ud) (Some role) (ud_problem ud),
      [edit_notice ChooseProblem]).

Definition handle_problem_selection (clk : nat -> Z) (db : DB) (user_id : Z)
  (data : string) (ud : user_data)
  : outcome (DB * conversation_state * user_data * list onboarding_action) :=
  let problem := join "_" (skipn 1 (split "_" data)) in
  let ud1 := mkUserData (ud_age ud) (ud_user_id ud) (ud_role ud) (Some problem) in
  match select_user_by_telegram_id db user_id with
  | Raise e => Failed (SessionError e)
  | Ok None => Done (db, END, ud1, [edit_notice UserNotFound])
  | Ok (Some user) =>
      match ud_role ud1 with
      | None => Failed KeyError
      | Some role =>
          let user := User.with_role_problem role problem user in
          let db1 := update_user (User.id user) (User.with_role_problem role problem) db in
          match add_to_queue (clk 0%nat) db1 user role problem with
          | Raise e => Failed (SessionError e)
          | Ok db2 =>
              match find_match db2 user role problem with
              | Some matched =>
                  let '(db3, chat) := create_chat (clk 1%nat) db2 user matched role problem in
                  let db4 := remove_from_queue db3 (User.id user) in
                  let db5 := remove_from_queue db4 (User.id matched) in
                  Done (db5, END, ud1,
                        [platform (edit_message_text (Fixed NoticeSearching));
                         platform (send_message (User.telegram_id user)
                                     (PartnerFound (User.age matched) (User.age user)));
                         platform (send_message (User.telegram_id matched)
                                     (PartnerFound (User.age user) (User.age matched)))])
              | None =>
                  Done (db2, END, ud1,
                        [platform (edit_message_text (Fixed NoticeSearching));
                         platform (send_message (User.telegram_id user)
                                     (Fixed NoticeQueued))])
              end
          end
      end
  end.

(** ** What the handlers keep *)

(** Rows are kept in place, each related to its earlier self by [R], and
    new rows are appended. *)
Definition table_evolves {A : Type} (R : A -> A -> Prop) (l l' : list A) : Prop :=
  exists kept added, l' = kept ++ added /\ Forall2 R l kept.

Definition user_kept (u u' : User.t) : Prop :=
  User.id u' = User.id u /\
  User.telegram_id u' = User.telegram_id u /\
  User.age u' = User.age u /\
  User.registered_at u' = User.registered_at u /\
  (User.is_banned u = true -> User.is_banned u' = true).

Definition chat_kept (c c' : Chat.t) : Prop :=
  Chat.id c' = Chat.id c /\
  Chat.user1_id c' = Chat.user1_id c /\
  Chat.user2_id c' = Chat.user2_id c /\
  Chat.role1 c' = Chat.role1 c /\
  Chat.role2 c' = Chat.role2 c /\
  Chat.problem_type c' = Chat.problem_type c /\
  Chat.created_at c' = Chat.created_at c /\
  (Chat.is_active c = false -> Chat.is_active c' = false) /\
  (Chat.ended_at c <> None -> Chat.ended_at c' <> None).

Definition history_kept (h h' : ChatHistory.t) : Prop :=
  ChatHistory.id h' = ChatHistory.id h /\
  ChatHistory.user_id h' = ChatHistory.user_id h /\
  ChatHistory.chat_id h' = ChatHistory.chat_id h.

Definition store_evolves (db db' : DB) : Prop :=
  table_evolves user_kept (users db) (users db') /\
  table_evolves chat_kept (chats db) (chats db') /\
  table_evolves eq (messages db) (messages db') /\
  table_evolves history_kept (chat_history db) (chat_history db').

(** The store after a request for a partner: the user's role and topic
    are written, the user is admitted to the queue, and either nobody is
    found or a chat with the user found is created and both leave the
    queue.  [menu_problem] and [handle_problem_selection] share it. *)
Definition requested (clk : nat -> Z) (db : DB) (user : User.t) (role problem : string)
  (db' : DB) : Prop :=
  let user' := User.with_role_problem role problem user in
  exists db2,
    add_to_queue (clk 0%nat)
      (update_user (User.id user) (User.with_role_problem role problem) db)
      user' role problem = Ok db2 /\
    ((find_match db2 user' role problem = None /\ db' = db2) \/
     (exists matched,
        find_match db2 user' role problem = Some matched /\
        db' = remove_from_queue
                (remove_from_queue
                   (fst (create_chat (clk 1%nat) db2 user' matched role problem))
                   (User.id user'))
                (User.id matched))).

(** No role in the queue has an underscore in it. *)
Definition roles_plain (db : DB) : Prop :=
  forall e, In e (queue_entries db) -> contains "_" (QueueEntry.role e) = false.

Definition history_pair (h : ChatHistory.t) : Z * Z :=
  (ChatHistory.user_id h, ChatHistory.chat_id h).

(** The constraints of the schema and the references between the tables. *)
Record well_formed (db : DB) : Prop := {
  wf_user_ids : NoDup (map User.id (users db));
  wf_telegram_ids : NoDup (map User.telegram_id (users db));
  wf_ages : forall u, In u (users db) -> MIN_AGE <= User.age u <= MAX_AGE;
  wf_chat_ids : NoDup (map Chat.id (chats db));
  wf_chat_ids_positive : forall c, In c (chats db) -> 0 < Chat.id c;
  wf_participants :
    forall c, In c (chats db) ->
      Chat.user1_id c <> Chat.user2_id c /\
      In (Chat.user1_id c) (map User.id (users db)) /\
      In (Chat.user2_id c) (map User.id (users db));
  wf_current_chat :
    forall u cid, In u (users db) -> User.current_chat_id u = Some cid ->
      exists c, In c (chats db) /\ Chat.id c = cid /\
                (Chat.user1_id c = User.id u \/ Chat.user2_id c = User.id u);
  wf_queue_users : NoDup (map QueueEntry.user_id (queue_entries db));
  wf_history_pairs : NoDup (map history_pair (chat_history db))
}.

(** A write to user rows that keeps id, telegram id and age and either
    keeps or clears the current chat. *)
Definition harmless (f : User.t -> User.t) : Prop :=
  forall u,
    User.id (f u) = User.id u /\ User.telegram_id (f u) = User.telegram_id u /\
    User.age (f u) = User.age u /\
    (User.current_chat_id (f u) = User.current_chat_id u \/
     User.current_chat_id (f u) = None).

(** How a user row of the sweep's state relates to the row the sweep
    started from, given the chats the sweep has added. *)
Definition swept_row (added : list Chat.t) (u0 u : User.t) : Prop :=
  User.id u = User.id u0 /\ User.is_banned u = User.is_banned u0 /\
  (User.current_chat_id u = User.current_chat_id u0 \/
   exists c, In c added /\ User.current_chat_id u = Some (Chat.id c)).

Definition takes_part (uid : Z) (c : Chat.t) : Prop :=
  Chat.user1_id c = uid \/ Chat.user2_id c = uid.

(** What holds of the chats [added] by a sweep of [db0] so far. *)
Record sweep_pairing (db0 : DB) (st : sweep_state) (added : list Chat.t) : Prop := {
  sp_chats : chats (sweep_db st) = chats db0 ++ added;
  sp_users : Forall2 (swept_row added) (users db0) (users (sweep_db st));
  sp_linked :
    forall c u, In c added -> In u (users (sweep_db st)) -> takes_part (User.id u) c ->
                User.current_chat_id u = Some (Chat.id c);
  sp_unqueued :
    forall c q, In c added -> In q (queue_entries (sweep_db st)) ->
                ~ takes_part (QueueEntry.user_id q) c;
  sp_waiting :
    forall e, In e (queue_entries db0) ->
      In e (queue_entries (sweep_db st)) \/
      stale_in db0 (QueueEntry.user_id e) \/
      exists c, In c added /\ takes_part (QueueEntry.user_id e) c
}.

Definition empty_store : DB := mkDB [] [] [] [] [].

(** The stores the handlers can produce from the empty store, one handler
    running at a time. *)
Inductive reachable (int_of_text : string -> option Z) (check_profanity : string -> bool)
  : DB -> Prop :=
| reach_empty : reachable int_of_text check_profanity empty_store
| reach_age db now tg text ud db' st ud' out :
    reachable int_of_text check_profanity db ->
    handle_age int_of_text now db tg text ud = Done (db', st, ud', out) ->
    reachable int_of_text check_profanity db'
| reach_problem db clk tg data ud db' st ud' out :
    reachable int_of_text check_profanity db ->
    handle_problem_selection clk db tg data ud = Done (db', st, ud', out) ->
    reachable int_of_text check_profanity db'
| reach_message db now tg txt db' out :
    reachable int_of_text check_profanity db ->
    handle_message check_profanity now db tg txt = Ok (db', out) ->
    reachable int_of_text check_profanity db'
| reach_callback db clk tg data db' out :
    reachable int_of_text check_profanity db ->
    handle_callback clk db tg data = Ok (db', out) ->
    reachable int_of_text check_profanity db'
| reach_sweep db clk st err :
    reachable int_of_text check_profanity db ->
    periodic_matchmaking_task clk db = (st, err) ->
    reachable int_of_text check_profanity (sweep_db st).

(** A current-chat reference no SQLite INTEGER can hold. *)
Definition unbound_reference (user : User.t) : Prop :=
  exists cid, User.current_chat_id user = Some cid /\ sqlite_integer cid = false.

(** How a button payload can fail in a well-formed store: the number of a
    [view_chat_] payload does not read as an integer, or it is one no
    SQLite INTEGER can hold. *)
Definition view_chat_fails (clk : nat -> Z) (db : DB) (tg : Z) (data : string) : Prop :=
  startswith data "view_chat_" = true /\
  exists part,
    index (split "_" data) 2 = Ok part /\
    ((py_int part = Raise ValueError /\
      handle_callback clk db tg data = Raise ValueError) \/
     (exists n, py_int part = Ok n /\ sqlite_integer n = false /\
                handle_callback clk db tg data = Raise OverflowError)).

(** ** Sample stores *)

Module Samples.

(** A stand-in for the profanity predicate. *)
Definition check_profanity (s : string) : bool := String.eqb s "#@!".

Definition clk (k : nat) : Z := 1000 + Z.of_nat k.

Definition alice (chat : option Z) : User.t :=
  User.mk 1 101 16 false 0 chat (Some "receive"%string) (Some "study"%string).
Definition bob (chat : option Z) : User.t :=
  User.mk 2 102 17 false 0 chat (Some "support"%string) (Some "study"%string).
Definition carol (chat : option Z) : User.t :=
  User.mk 3 103 15 false 0 chat None None.

Definition chat_alice_bob (id : Z) (active : bool) : Chat.t :=
  Chat.mk id 1 2 "receive" "support" "study" 50 active None.

(** Alice and Bob talk in chat 1; Carol is registered and idle. *)
Definition talking : DB :=
  mkDB [alice (Some 1); bob (Some 1); carol None]
       [chat_alice_bob 1 true]
       [Message.mk 1 1 1 "hello" 60; Message.mk 2 1 2 "hi there" 61]
       []
       [].

(** Alice has three history rows and is in her fourth chat, with Bob. *)
Definition three_in_history : DB :=
  mkDB [alice (Some 4); bob (Some 4); carol None]
       [Chat.mk 1 1 3 "receive" "support" "study" 10 false (Some 11);
        Chat.mk 2 1 3 "receive" "support" "study" 20 false (Some 21);
        Chat.mk 3 1 3 "receive" "support" "study" 30 false (Some 31);
        chat_alice_bob 4 true]
       []
       [ChatHistory.mk 1 1 1 11; ChatHistory.mk 2 1 2 21; ChatHistory.mk 3 1 3 31]
       [].

(** Alice still points at chat 1 with Bob.  Bob has since been matched
    with Carol in chat 2, has ended that chat, and waits in the queue. *)
Definition drifted : DB :=
  mkDB [alice (Some 1); bob None; carol None]
       [chat_alice_bob 1 true;
        Chat.mk 2 2 3 "receive" "support" "study" 60 false (Some 65)]
       []
       [ChatHistory.mk 1 2 2 65; ChatHistory.mk 2 3 2 65]
       [QueueEntry.mk 1 2 "support" "study" 17 70].

(** Alice, who is in a chat, still has a queue row; so has Carol. *)
Definition stale_queue : DB :=
  mkDB [alice (Some 1); bob (Some 1); carol None]
       [chat_alice_bob 1 true]
       []
       []
       [QueueEntry.mk 1 1 "receive" "study" 16 40;
        QueueEntry.mk 2 3 "receive" "friends" 15 45].

End Samples.

Module MoreSamples.

(** Alice waits for support on "study"; Bob is idle. *)
Definition receiver_waits : DB :=
  mkDB [Samples.alice None; Samples.bob None]
       [] [] []
       [QueueEntry.mk 1 1 "receive" "study" 16 40].

(** Bob waits to give support on "study"; Dave is registered, banned, and
    has not chosen a topic yet. *)
Definition dave : User.t := User.mk 4 104 16 true 0 None None None.

Definition banned_newcomer : DB :=
  mkDB [Samples.bob None; dave]
       [] [] []
       [QueueEntry.mk 1 2 "support" "study" 17 40].

(** [int] on the texts used below. *)
Definition int_of_text (s : string) : option Z :=
  match py_int s with
  | Ok n => Some n
  | Raise _ => None
  end.

(** Bob waits to give support and Alice, who joined later, to receive
    it, both on "study". *)
Definition two_waiting : DB :=
  mkDB [Samples.alice None; Samples.bob None]
       [] [] []
       [QueueEntry.mk 1 2 "support" "study" 17 40;
        QueueEntry.mk 2 1 "receive" "study" 16 50].

(** Alice and Bob talk in chat 1, for which Alice already has a history
    row. *)
Definition seen_before : DB :=
  mkDB (users Samples.talking) (chats Samples.talking) (messages Samples.talking)
       [ChatHistory.mk 1 1 1 55] [].

(** Erin, Carol and Bob wait to give support on "study", in that order
    of the queue table; Carol and Bob joined at the same instant, before
    Erin.  Alice is registered and idle. *)
Definition erin : User.t := User.mk 5 105 18 false 0 None None None.

Definition tied_queue : DB :=
  mkDB [Samples.alice None; Samples.bob None; Samples.carol None; erin]
       [] [] []
       [QueueEntry.mk 1 5 "support" "study" 18 50;
        QueueEntry.mk 2 3 "support" "study" 15 40;
        QueueEntry.mk 3 2 "support" "study" 17 40].

(** The store after the first registration. *)
Definition first_user : DB :=
  mkDB [User.mk 1 101 16 false 5 None None None] [] [] [] [].

Definition fresh_user_data : user_data := mkUserData None None None None.

End MoreSamples.

(** * Properties *)

(** ** The session layer *)

Lemma scalar_one_or_none_some (A : Type) (rows : list A) (r : A) :
  scalar_one_or_none rows = Ok (Some r) -> rows = [r].
Proof.
  destruct rows as [|a [|b rows]]; simpl; intro H; try discriminate.
  now inversion H.
Qed.

Lemma scalar_one_or_none_none (A : Type) (rows : list A) :
  scalar_one_or_none rows = Ok None -> rows = [].
Proof.
  destruct rows as [|a [|b rows]]; simpl; intro H; try discriminate.
  reflexivity.
Qed.

Lemma filter_map_commute (A : Type) (p : A -> bool) (f : A -> A) (l : list A) :
  (forall x, p (f x) = p x) -> filter p (map f l) = map f (filter p l).
Proof.
  intro Hp. induction l as [|a l IH]; simpl; [reflexivity|].
  rewrite Hp. destruct (p a); simpl; now rewrite IH.
Qed.

Lemma filter_singleton_in (A : Type) (p : A -> bool) (l : list A) (x y : A) :
  filter p l = [x] -> In y l -> p y = true -> y = x.
Proof.
  intros Hf Hin Hp.
  assert (Hy : In y (filter p l)) by (apply filter_In; now split).
  rewrite Hf in Hy. destruct Hy as [Hy|[]]. now symmetry.
Qed.

Lemma filter_singleton_elim (A : Type) (p : A -> bool) (l : list A) (x : A) :
  filter p l = [x] -> In x l /\ p x = true.
Proof.
  intro Hf. apply filter_In. rewrite Hf. now left.
Qed.

Lemma select_user_by_id_sound (db : DB) (uid : Z) (u : User.t) :
  select_user_by_id db uid = Ok (Some u) -> In u (users db) /\ User.id u = uid.
Proof.
  intro H. apply scalar_one_or_none_some, filter_singleton_elim in H.
  destruct H as [Hin Hid]. split; [assumption|]. now apply Z.eqb_eq.
Qed.

Lemma select_chat_by_id_rows (db : DB) (cid : Z) (r : option Chat.t) :
  select_chat_by_id db cid = Ok r ->
  sqlite_integer cid = true /\
  scalar_one_or_none (filter (fun c => Chat.id c =? cid) (chats db)) = Ok r.
Proof.
  unfold select_chat_by_id. destruct (sqlite_integer cid); [now split|discriminate].
Qed.

Lemma select_chat_by_id_bound (db : DB) (cid : Z) :
  sqlite_integer cid = true ->
  select_chat_by_id db cid
  = scalar_one_or_none (filter (fun c => Chat.id c =? cid) (chats db)).
Proof. intro H. unfold select_chat_by_id. now rewrite H. Qed.

Lemma select_chat_by_id_sound (db : DB) (cid : Z) (c : Chat.t) :
  select_chat_by_id db cid = Ok (Some c) -> In c (chats db) /\ Chat.id c = cid.
Proof.
  intro H. apply select_chat_by_id_rows in H. destruct H as [_ H].
  apply scalar_one_or_none_some, filter_singleton_elim in H.
  destruct H as [Hin Hid]. split; [assumption|]. now apply Z.eqb_eq.
Qed.

Lemma partner_is_not_user (chat : Chat.t) (user : User.t) :
  Chat.user1_id chat <> Chat.user2_id chat -> partner_id_of chat user <> User.id user.
Proof.
  unfold partner_id_of. intro Hd.
  destruct (Chat.user1_id chat =? User.id user) eqn:E.
  - apply Z.eqb_eq in E. congruence.
  - now apply Z.eqb_neq in E.
Qed.

Lemma fresh_id_above (ids : list Z) (x : Z) : In x ids -> x < fresh_id ids.
Proof.
  intro H. unfold fresh_id.
  assert (x <= fold_right Z.max 0 ids) as Hle; [|lia].
  induction ids as [|y ids IH]; cbn [fold_right]; [destruct H|].
  destruct H as [<-|H]; [lia|]. specialize (IH H). lia.
Qed.

Lemma fresh_id_positive (ids : list Z) : 0 < fresh_id ids.
Proof.
  unfold fresh_id. assert (0 <= fold_right Z.max 0 ids); [|lia].
  induction ids as [|x l IH]; cbn [fold_right]; lia.
Qed.

Lemma fresh_id_not_in (ids : list Z) : ~ In (fresh_id ids) ids.
Proof. intro H. apply fresh_id_above in H. lia. Qed.

Lemma map_update_same (A B : Type) (g : A -> B) (p : A -> bool) (f : A -> A)
  (l : list A) :
  (forall x, g (f x) = g x) ->
  map g (map (fun x => if p x then f x else x) l) = map g l.
Proof.
  intro H. rewrite map_map. apply map_ext. intro x. now destruct (p x).
Qed.

Lemma nodup_map_filter (A B : Type) (g : A -> B) (p : A -> bool) (l : list A) :
  NoDup (map g l) -> NoDup (map g (filter p l)).
Proof.
  induction l as [|a l IH]; simpl; intro H; [constructor|].
  inversion H as [|? ? Hnotin Hnd]; subst.
  destruct (p a); simpl; [|now apply IH].
  constructor; [|now apply IH].
  intro Hin. apply Hnotin. apply in_map_iff in Hin.
  destruct Hin as (x & E & Hx). apply filter_In in Hx. rewrite <- E.
  apply in_map. tauto.
Qed.

Lemma nodup_map_snoc (A B : Type) (g : A -> B) (l : list A) (x : A) :
  NoDup (map g l) -> ~ In (g x) (map g l) -> NoDup (map g (l ++ [x])).
Proof.
  intros Hnd Hnotin. rewrite map_app. simpl.
  apply NoDup_incl_NoDup with (l := g x :: map g l).
  - now constructor.
  - rewrite length_app. simpl. lia.
  - intros y [<-|Hy]; apply in_or_app; [right; now left|now left].
Qed.

Lemma unique_by_key (A : Type) (g : A -> Z) (l : list A) (a b : A) :
  NoDup (map g l) -> In a l -> In b l -> g a = g b -> a = b.
Proof.
  induction l as [|x l IH]; simpl; intros Hnd Ha Hb E; [destruct Ha|].
  inversion Hnd as [|? ? Hnotin Hnd']; subst.
  destruct Ha as [->|Ha], Hb as [->|Hb]; try reflexivity.
  - exfalso. apply Hnotin. rewrite E. now apply in_map.
  - exfalso. apply Hnotin. rewrite <- E. now apply in_map.
  - now apply IH.
Qed.

(** ** [ORDER BY] *)

Section OrderBy.

Variable A : Type.
Variable key : A -> Z.

Lemma insert_by_perm (x : A) (l : list A) :
  Permutation (x :: l) (insert_by key x l).
Proof.
  induction l as [|y l IH]; simpl; [reflexivity|].
  destruct (key x <=? key y); [reflexivity|].
  rewrite perm_swap. now apply perm_skip.
Qed.

Lemma order_by_perm (l : list A) : Permutation l (order_by key l).
Proof.
  induction l as [|x l IH]; simpl; [reflexivity|].
  rewrite <- insert_by_perm. now apply perm_skip.
Qed.

Lemma order_by_in (l : list A) (x : A) : In x (order_by key l) <-> In x l.
Proof.
  split; apply Permutation_in; [symmetry|]; apply order_by_perm.
Qed.

Lemma order_by_length (l : list A) : List.length (order_by key l) = List.length l.
Proof. symmetry. apply Permutation_length, order_by_perm. Qed.

Lemma insert_by_sorted (x : A) (l : list A) :
  StronglySorted (key_le key) l -> StronglySorted (key_le key) (insert_by key x l).
Proof.
  induction 1 as [|y l Hs IH Hall]; simpl.
  - repeat constructor.
  - destruct (Z.leb_spec (key x) (key y)) as [Hle|Hgt].
    + constructor; [now constructor|].
      constructor; [exact Hle|].
      rewrite Forall_forall in Hall |- *. intros z Hz.
      specialize (Hall z Hz). unfold key_le in *. lia.
    + constructor; [assumption|].
      rewrite Forall_forall in Hall |- *. intros z Hz.
      apply (Permutation_in z (Permutation_sym (insert_by_perm x l))) in Hz.
      destruct Hz as [<-|Hz]; [unfold key_le; lia|now apply Hall].
Qed.

Lemma order_by_sorted (l : list A) : StronglySorted (key_le key) (order_by key l).
Proof.
  induction l as [|x l IH]; simpl; [constructor|now apply insert_by_sorted].
Qed.

(** The head of the ordered rows carries the least key. *)
Lemma order_by_head_least (l : list A) (x : A) (rest : list A) :
  order_by key l = x :: rest -> forall y, In y l -> key x <= key y.
Proof.
  intros Ho y Hy. apply (proj2 (order_by_in l y)) in Hy. rewrite Ho in Hy.
  pose proof (order_by_sorted l) as Hs. rewrite Ho in Hs.
  inversion Hs as [|? ? _ Hall]; subst.
  destruct Hy as [<-|Hy]; [lia|].
  rewrite Forall_forall in Hall. now apply Hall.
Qed.

Lemma insert_by_latest (x : A) (l : list A) :
  (forall y, In y l -> key y < key x) -> insert_by key x l = l ++ [x].
Proof.
  induction l as [|y l IH]; simpl; intro Hlt; [reflexivity|].
  destruct (Z.leb_spec (key x) (key y)) as [Hle|_].
  - specialize (Hlt y (or_introl eq_refl)). lia.
  - f_equal. apply IH. intros z Hz. apply Hlt. now right.
Qed.

Lemma insert_by_before_last (x q : A) (front : list A) :
  key x < key q -> insert_by key x (front ++ [q]) = insert_by key x front ++ [q].
Proof.
  intro Hlt. induction front as [|y front IH]; simpl.
  - destruct (Z.leb_spec (key x) (key q)); [reflexivity|lia].
  - destruct (key x <=? key y); [reflexivity|]. simpl. now rewrite IH.
Qed.

(** Rows with equal keys stay in row order: the first of the ordered rows
    is the earliest row that carries the least key. *)
Lemma order_by_head_first (l : list A) (x : A) (rest : list A) :
  order_by key l = x :: rest ->
  exists before after,
    l = before ++ x :: after /\
    (forall y, In y before -> key x < key y) /\
    (forall y, In y after -> key x <= key y).
Proof.
  revert x rest. induction l as [|a l IH]; intros x rest H; [discriminate|].
  cbn [order_by fold_right] in H. fold (order_by key l) in H.
  destruct (order_by key l) as [|h t] eqn:Ho.
  - assert (l = []) as ->.
    { apply (f_equal (@List.length A)) in Ho. rewrite order_by_length in Ho.
      now destruct l. }
    simpl in H. injection H as <- _. exists [], []. repeat split; intros y [].
  - destruct (IH h t eq_refl) as (before & after & Hl & Hb & Ha).
    simpl in H. destruct (Z.leb_spec (key a) (key h)) as [Hle|Hgt].
    + injection H as <- _. exists [], l. split; [reflexivity|]. split; [intros y []|].
      intros y Hy. rewrite Hl in Hy. apply in_app_or in Hy.
      destruct Hy as [Hy|[<-|Hy]]; [specialize (Hb y Hy)|..|specialize (Ha y Hy)]; lia.
    + injection H as <- _. exists (a :: before), after. split; [now rewrite Hl|].
      split; [|assumption]. intros y [<-|Hy]; [assumption|now apply Hb].
Qed.

(** A row whose key is strictly above the key of every other row is the
    last of the ordered rows. *)
Lemma order_by_latest_last (p : A -> bool) (l : list A) (q : A) :
  filter p l = [q] ->
  (forall y, In y l -> p y = false -> key y < key q) ->
  exists front, order_by key l = front ++ [q].
Proof.
  induction l as [|a l IH]; simpl; intros Hf Hlt; [discriminate|].
  destruct (p a) eqn:Hpa.
  - injection Hf as Ha Hrest. subst a.
    exists (order_by key l). apply insert_by_latest.
    intros y Hy. apply (proj1 (order_by_in l y)) in Hy.
    assert (p y = false) as Hpy.
    { destruct (p y) eqn:E; [|reflexivity].
      assert (In y (filter p l)) as Hin by (apply filter_In; split; assumption).
      rewrite Hrest in Hin. destruct Hin. }
    exact (Hlt y (or_intror Hy) Hpy).
  - destruct (IH Hf) as [front Hfront].
    { intros y Hy. apply Hlt. now right. }
    exists (insert_by key a front). rewrite Hfront.
    apply insert_by_before_last. now apply Hlt; [left|].
Qed.

End OrderBy.

(** ** Strings: [split], [join], [int] and [str] *)

Lemma split_nonempty (sep : ascii) (s : string) : split sep s <> [].
Proof.
  destruct s as [|c s]; simpl; [discriminate|].
  destruct (Ascii.eqb c sep); [discriminate|].
  destruct (split sep s); discriminate.
Qed.

Lemma split_field (sep : ascii) (a b : string) :
  contains sep a = false ->
  split sep (a ++ String sep b) = a :: split sep b.
Proof.
  induction a as [|c a IH]; simpl; intro H.
  - now rewrite Ascii.eqb_refl.
  - apply orb_false_iff in H. destruct H as [Hc Ha].
    rewrite Hc, (IH Ha). reflexivity.
Qed.

Lemma split_last_field (sep : ascii) (a : string) :
  contains sep a = false -> split sep a = [a].
Proof.
  induction a as [|c a IH]; simpl; intro H; [reflexivity|].
  apply orb_false_iff in H. destruct H as [Hc Ha].
  now rewrite Hc, (IH Ha).
Qed.

Lemma join_split (sep : ascii) (s : string) :
  join (String sep EmptyString) (split sep s) = s.
Proof.
  unfold join. induction s as [|c s IH]; simpl; [reflexivity|].
  destruct (Ascii.eqb_spec c sep) as [->|_].
  - destruct (split sep s) as [|h t] eqn:E; [now apply split_nonempty in E|].
    simpl. simpl in IH. now rewrite IH.
  - destruct (split sep s) as [|h t] eqn:E; [now apply split_nonempty in E|].
    simpl in *. destruct t; simpl in *; now rewrite <- IH.
Qed.

Lemma digit_is_plain (c : ascii) :
  is_digit c = true ->
  is_space c = false /\ Ascii.eqb c "+" = false /\ Ascii.eqb c "-" = false /\
  Ascii.eqb c "_" = false.
Proof.
  destruct c as [[] [] [] [] [] [] [] []]; vm_compute; intro H;
    try discriminate H; repeat split.
Qed.

Lemma digit_is_ascii (c : ascii) : is_digit c = true -> (byte c <=? 127) = true.
Proof.
  destruct c as [[] [] [] [] [] [] [] []]; vm_compute; intro H;
    try discriminate H; reflexivity.
Qed.

Lemma to_ascii_plain (c : ascii) (s : string) :
  (byte c <=? 127) = true ->
  to_ascii (String c s) = option_map (String c) (to_ascii s).
Proof. intro H. cbn [to_ascii]. now rewrite H. Qed.

Lemma to_ascii_digits (s : string) : all_digits s = true -> to_ascii s = Some s.
Proof.
  induction s as [|c s IH]; intro H; [reflexivity|].
  cbn [all_digits] in H. apply andb_true_iff in H. destruct H as [Hc Hs].
  rewrite (@to_ascii_plain c s (@digit_is_ascii c Hc)), (IH Hs). reflexivity.
Qed.

Lemma all_digits_rstrip (s : string) : all_digits s = true -> rstrip s = s.
Proof.
  induction s as [|c s IH]; simpl; intro H; [reflexivity|].
  apply andb_true_iff in H. destruct H as [Hc Hs].
  rewrite (IH Hs). destruct (digit_is_plain c Hc) as [-> _]. now destruct s.
Qed.

Lemma all_digits_no_underscore (s : string) : all_digits s = true -> contains "_" s = false.
Proof.
  induction s as [|c s IH]; simpl; intro H; [reflexivity|].
  apply andb_true_iff in H. destruct H as [Hc Hs].
  destruct (digit_is_plain c Hc) as (_ & _ & _ & ->). now apply IH.
Qed.

Lemma string_of_uint_digits (d : Decimal.uint) :
  all_digits (DecimalString.NilEmpty.string_of_uint d) = true.
Proof. induction d; simpl; assumption || reflexivity. Qed.

Lemma parse_digits_step (c : ascii) (acc : Z) (r : string) :
  parse_digits acc (String c r) =
  match digit_of c with
  | Some v => parse_digits (10 * acc + v) r
  | None =>
      if Ascii.eqb c "_" then
        match r with
        | String c' _ => if is_digit c' then parse_digits acc r else None
        | EmptyString => None
        end
      else None
  end.
Proof. reflexivity. Qed.

Ltac read_digit :=
  rewrite parse_digits_step;
  match goal with
  | |- context [digit_of ?c] =>
      let v := eval vm_compute in (digit_of c) in change (digit_of c) with v
  end; cbv iota beta.

Lemma parse_digits_acc (d : Decimal.uint) (acc : positive) :
  parse_digits (Z.pos acc) (DecimalString.NilEmpty.string_of_uint d)
  = Some (Z.pos (Pos.of_uint_acc d acc)).
Proof.
  revert acc. induction d; intro acc;
    cbn [DecimalString.NilEmpty.string_of_uint Pos.of_uint_acc]; [reflexivity|..];
    read_digit;
    match goal with
    | |- parse_digits ?z _ = Some (Z.pos (Pos.of_uint_acc _ ?q)) =>
        replace z with (Z.pos q) by lia
    end; apply IHd.
Qed.

Lemma parse_digits_uint (d : Decimal.uint) :
  parse_digits 0 (DecimalString.NilEmpty.string_of_uint d) = Some (Z.of_N (Pos.of_uint d)).
Proof.
  induction d; cbn [DecimalString.NilEmpty.string_of_uint Pos.of_uint]; [reflexivity|..];
    read_digit; [exact IHd|..];
    match goal with
    | |- parse_digits ?z _ = _ =>
        let p := eval vm_compute in (Z.to_pos z) in change z with (Z.pos p)
    end; rewrite parse_digits_acc; reflexivity.
Qed.

Lemma parse_unsigned_pos (p : positive) :
  parse_unsigned (DecimalString.NilEmpty.string_of_uint (Pos.to_uint p)) = Some (Z.pos p).
Proof.
  unfold parse_unsigned.
  pose proof (string_of_uint_digits (Pos.to_uint p)) as Hd.
  destruct (DecimalString.NilEmpty.string_of_uint (Pos.to_uint p)) as [|c r] eqn:E.
  - exfalso. apply (DecimalPos.Unsigned.to_uint_nonnil p).
    destruct (Pos.to_uint p); simpl in E; try discriminate; reflexivity.
  - cbn [all_digits] in Hd. apply andb_true_iff in Hd. destruct Hd as [Hc _].
    rewrite Hc, <- E, parse_digits_uint, DecimalPos.Unsigned.of_to. reflexivity.
Qed.

Lemma py_str_shape (n : Z) :
  (all_digits (py_str n) = true /\ py_str n <> EmptyString) \/
  (exists r, py_str n = String "-" r /\ all_digits r = true /\ r <> EmptyString).
Proof.
  unfold py_str.
  assert (Hne : forall p, DecimalString.NilEmpty.string_of_uint (Pos.to_uint p) <> EmptyString).
  { intros p E. apply (DecimalPos.Unsigned.to_uint_nonnil p).
    destruct (Pos.to_uint p); simpl in E; try discriminate; reflexivity. }
  destruct n as [|p|p]; simpl.
  - left. split; [reflexivity|discriminate].
  - left. split; [apply string_of_uint_digits|apply Hne].
  - right. eexists. split; [reflexivity|]. split; [apply string_of_uint_digits|apply Hne].
Qed.

Lemma long_from_string_py_str (n : Z) : long_from_string (py_str n) = Some n.
Proof.
  unfold long_from_string, py_str. destruct n as [|p|p]; simpl Z.to_int;
    unfold DecimalString.NilEmpty.string_of_int.
  - reflexivity.
  - pose proof (string_of_uint_digits (Pos.to_uint p)) as Hd.
    pose proof (parse_unsigned_pos p) as Hp.
    destruct (DecimalString.NilEmpty.string_of_uint (Pos.to_uint p)) as [|c r] eqn:E;
      [discriminate Hp|].
    pose proof Hd as Hd'. simpl in Hd'. apply andb_true_iff in Hd'.
    destruct Hd' as [Hc _]. destruct (digit_is_plain c Hc) as (Hsp & Hplus & Hminus & _).
    replace (lstrip (String c r)) with (String c r) by (simpl; now rewrite Hsp).
    rewrite (all_digits_rstrip _ Hd), Hplus, Hminus, Hp. reflexivity.
  - pose proof (string_of_uint_digits (Pos.to_uint p)) as Hd.
    pose proof (parse_unsigned_pos p) as Hp.
    set (r := DecimalString.NilEmpty.string_of_uint (Pos.to_uint p)) in *.
    replace (lstrip (String "-" r)) with (String "-" r) by reflexivity.
    replace (rstrip (String "-" r)) with (String "-" r).
    + replace (Ascii.eqb "-" "+") with false by reflexivity.
      replace (Ascii.eqb "-" "-") with true by reflexivity.
      now rewrite Hp.
    + simpl. rewrite (all_digits_rstrip _ Hd). destruct r; [discriminate Hp|reflexivity].
Qed.

Lemma to_ascii_py_str (n : Z) : to_ascii (py_str n) = Some (py_str n).
Proof.
  destruct (py_str_shape n) as [[Hd _]|(r & -> & Hd & _)].
  - now apply to_ascii_digits.
  - rewrite to_ascii_plain by reflexivity. now rewrite (to_ascii_digits _ Hd).
Qed.

(** [int(str(n)) == n]. *)
Lemma py_int_py_str (n : Z) : py_int (py_str n) = Ok n.
Proof.
  unfold py_int. now rewrite to_ascii_py_str, long_from_string_py_str.
Qed.

(** [int] raises nothing but [ValueError]. *)
Lemma py_int_raises (s : string) (e : exn) : py_int s = Raise e -> e = ValueError.
Proof.
  unfold py_int. destruct (to_ascii s) as [literal|]; [|now intros [= <-]].
  destruct (long_from_string literal); [discriminate|now intros [= <-]].
Qed.

Lemma py_str_no_underscore (n : Z) : contains "_" (py_str n) = false.
Proof.
  destruct (py_str_shape n) as [[Hd _]|(r & -> & Hd & _)].
  - now apply all_digits_no_underscore.
  - simpl. now apply all_digits_no_underscore.
Qed.

(** ** The age band *)

(** C3: [get_age_range] returns the band of the table for the ages 14 to
    18 and the band [14, 18] for every other integer. *)
Theorem get_age_range_table :
  get_age_range 14 = (14, 16) /\
  get_age_range 15 = (14, 17) /\
  get_age_range 16 = (14, 18) /\
  get_age_range 17 = (15, 18) /\
  get_age_range 18 = (16, 18) /\
  forall age : Z, age < 14 \/ 18 < age -> get_age_range age = (14, 18).
Proof.
  repeat (split; [reflexivity|]).
  intros age Hage. unfold get_age_range, MIN_AGE, MAX_AGE.
  repeat match goal with
         | |- context [?a =? ?b] => destruct (Z.eqb_spec a b); [lia|]
         end.
  reflexivity.
Qed.

Lemma get_age_range_table_witness :
  get_age_range 13 = (14, 18) /\ get_age_range (-2) = (14, 18) /\ get_age_range 40 = (14, 18).
Proof.
  destruct get_age_range_table as (_ & _ & _ & _ & _ & H).
  repeat split; apply H; lia.
Defined.

(** ** Moderation and relay *)

Section RelayFacts.

Variable check_profanity : string -> bool.

Lemma banned_user_is_refused (now : Z) (db : DB) (tg : Z) (txt : string) (user : User.t) :
  select_user_by_telegram_id db tg = Ok (Some user) ->
  User.is_banned user = true ->
  handle_message check_profanity now db tg txt = Ok (db, [reply_text (Fixed NoticeBanned)]).
Proof.
  intros Hu Hb. unfold handle_message. rewrite Hu. simpl. now rewrite Hb.
Qed.

Lemma ban_is_stored (db : DB) (tg : Z) (user : User.t) :
  select_user_by_telegram_id db tg = Ok (Some user) ->
  select_user_by_telegram_id (update_user (User.id user) (User.with_is_banned true) db) tg
  = Ok (Some (User.with_is_banned true user)).
Proof.
  intro Hu. apply scalar_one_or_none_some in Hu.
  unfold select_user_by_telegram_id, update_user, with_users. simpl.
  rewrite filter_map_commute.
  - rewrite Hu. simpl. now rewrite Z.eqb_refl.
  - intro x. now destruct (User.id x =? User.id user).
Qed.

(** C1: a profane message from a registered user who is not banned yet
    sets the banned flag of the sender, stores no message, forwards
    nothing and is answered with the permanent-ban notice; every later
    message of a banned user, whatever its text, is refused with the store
    unchanged and nothing forwarded. *)
Theorem profanity_bans_for_good (db : DB) (tg : Z) (user : User.t) :
  select_user_by_telegram_id db tg = Ok (Some user) ->
  (User.is_banned user = false ->
   forall (now : Z) (txt : string),
     check_profanity txt = true ->
     let db' := update_user (User.id user) (User.with_is_banned true) db in
     handle_message check_profanity now db tg txt
       = Ok (db', [reply_text (Fixed NoticePermanentBan)]) /\
     select_user_by_telegram_id db' tg = Ok (Some (User.with_is_banned true user)) /\
     messages db' = messages db /\
     chats db' = chats db /\
     forall (later : Z) (txt' : string),
       handle_message check_profanity later db' tg txt'
         = Ok (db', [reply_text (Fixed NoticeBanned)])) /\
  (User.is_banned user = true ->
   forall (now : Z) (txt : string),
     handle_message check_profanity now db tg txt
       = Ok (db, [reply_text (Fixed NoticeBanned)])).
Proof.
  intro Hu. split.
  - intros Hb now txt Hp db'. repeat split.
    + unfold handle_message. rewrite Hu. simpl. now rewrite Hb, Hp.
    + now apply ban_is_stored.
    + intros later txt'. apply banned_user_is_refused with (user := User.with_is_banned true user).
      * now apply ban_is_stored.
      * reflexivity.
  - intros Hb now txt. now apply banned_user_is_refused with (user := user).
Qed.


End RelayFacts.

(** ** The queue *)

Lemma filter_nil_not_in (A : Type) (f : A -> Z) (k : Z) (l : list A) :
  filter (fun x => f x =? k) l = [] -> ~ In k (map f l).
Proof.
  intros Hf Hin. apply in_map_iff in Hin. destruct Hin as (x & Hx & Hin).
  assert (In x (filter (fun x => f x =? k) l)) as H.
  { apply filter_In. split; [assumption|]. now apply Z.eqb_eq. }
  rewrite Hf in H. destruct H.
Qed.

Lemma not_in_filter_nil (A : Type) (f : A -> Z) (k : Z) (l : list A) :
  ~ In k (map f l) -> filter (fun x => f x =? k) l = [].
Proof.
  intro Hn. induction l as [|a l IH]; simpl in *; [reflexivity|].
  destruct (Z.eqb_spec (f a) k) as [E|_].
  - exfalso. apply Hn. now left.
  - apply IH. intro H. apply Hn. now right.
Qed.

(** Under a [unique] constraint a lookup by the constrained column finds
    no row or one row. *)
Lemma unique_column_lookup (A : Type) (f : A -> Z) (l : list A) (k : Z) :
  NoDup (map f l) ->
  filter (fun x => f x =? k) l = [] \/ exists x, filter (fun x => f x =? k) l = [x].
Proof.
  induction l as [|a l IH]; simpl; intro Hnd; [now left|].
  inversion Hnd as [|? ? Hnotin Hnd']; subst.
  destruct (Z.eqb_spec (f a) k) as [E|_].
  - right. exists a. f_equal. apply not_in_filter_nil. now rewrite <- E.
  - now apply IH.
Qed.

Lemma add_to_queue_upserts (now : Z) (db : DB) (user : User.t) (role problem : string) :
  NoDup (map QueueEntry.user_id (queue_entries db)) ->
  exists db' q,
    add_to_queue now db user role problem = Ok db' /\
    filter (fun e => QueueEntry.user_id e =? User.id user) (queue_entries db') = [q] /\
    QueueEntry.role q = role /\
    QueueEntry.problem_type q = problem /\
    QueueEntry.age q = User.age user /\
    QueueEntry.joined_at q = now /\
    NoDup (map QueueEntry.user_id (queue_entries db')) /\
    users db' = users db /\ chats db' = chats db.
Proof.
  intro Hnd. unfold add_to_queue, select_queue_entry.
  destruct (unique_column_lookup QueueEntry.user_id (queue_entries db) (User.id user) Hnd)
    as [Hnone|[e He]].
  - rewrite Hnone. simpl. eexists. eexists. split; [reflexivity|]. simpl.
    rewrite filter_app, Hnone. simpl. rewrite Z.eqb_refl. simpl.
    repeat split; try reflexivity.
    rewrite map_app. simpl.
    apply NoDup_incl_NoDup with (l := User.id user :: map QueueEntry.user_id (queue_entries db)).
    + constructor; [now apply filter_nil_not_in|assumption].
    + rewrite length_app. simpl. lia.
    + intros x [<-|Hx]; apply in_or_app; [right; now left|now left].
  - rewrite He. simpl. eexists. eexists. split; [reflexivity|]. simpl.
    rewrite filter_map_commute.
    + rewrite He. simpl. rewrite Z.eqb_refl.
      repeat split; try reflexivity.
      rewrite map_map.
      erewrite map_ext; [exact Hnd|].
      intro a. now destruct (QueueEntry.id a =? QueueEntry.id e).
    + intro x. now destruct (QueueEntry.id x =? QueueEntry.id e).
Qed.

(** C6: admitting a user twice, with any roles and topics and with the
    user's age re-read at the second admission, leaves one queue entry for
    that user; it carries the second role and topic, the user's current
    age and the second admission instant, and when that instant is later
    than the join time of every other entry, it is the last row in the
    order of join times. *)
Theorem add_to_queue_twice_keeps_one_entry
  (db : DB) (user user' : User.t) (role1 problem1 role2 problem2 : string) (t1 t2 : Z) :
  NoDup (map QueueEntry.user_id (queue_entries db)) ->
  User.id user' = User.id user ->
  exists db1 db2 q,
    add_to_queue t1 db user role1 problem1 = Ok db1 /\
    add_to_queue t2 db1 user' role2 problem2 = Ok db2 /\
    filter (fun e => QueueEntry.user_id e =? User.id user) (queue_entries db2) = [q] /\
    QueueEntry.role q = role2 /\
    QueueEntry.problem_type q = problem2 /\
    QueueEntry.age q = User.age user' /\
    QueueEntry.joined_at q = t2 /\
    ((forall e, In e (queue_entries db2) ->
                QueueEntry.user_id e <> User.id user -> QueueEntry.joined_at e < t2) ->
     exists front, order_by QueueEntry.joined_at (queue_entries db2) = front ++ [q]).
Proof.
  intros Hnd Hid.
  destruct (@add_to_queue_upserts t1 db user role1 problem1 Hnd)
    as (db1 & q1 & Hadd1 & _ & _ & _ & _ & _ & Hnd1 & _).
  destruct (@add_to_queue_upserts t2 db1 user' role2 problem2 Hnd1)
    as (db2 & q & Hadd2 & Hone & Hr & Hp & Ha & Hj & _).
  rewrite Hid in Hone.
  exists db1, db2, q. repeat (split; [assumption|]).
  intro Hlater.
  apply order_by_latest_last with (p := fun e => QueueEntry.user_id e =? User.id user);
    [assumption|].
  intros y Hy Hpy. rewrite Hj. apply Hlater; [assumption|]. now apply Z.eqb_neq.
Qed.

(** ** The match search *)

Lemma queue_join_users_in (db : DB) (q : QueueEntry.t) (u : User.t) :
  In (q, u) (queue_join_users db) <->
  In q (queue_entries db) /\ In u (users db) /\ User.id u = QueueEntry.user_id q.
Proof.
  unfold queue_join_users. rewrite in_flat_map. split.
  - intros (q' & Hq' & Hin). apply in_map_iff in Hin.
    destruct Hin as (u' & Heq & Hu'). inversion Heq; subst.
    apply filter_In in Hu'. destruct Hu' as [Hu' Hid].
    repeat split; try assumption. now apply Z.eqb_eq.
  - intros (Hq & Hu & Hid). exists q. split; [assumption|].
    apply in_map. apply filter_In. split; [assumption|]. now apply Z.eqb_eq.
Qed.

Lemma match_where_spec (user : User.t) (opposite problem : string) (band : Z * Z)
  (q : QueueEntry.t) (u : User.t) :
  match_where user opposite problem (fst band) (snd band) (q, u) = true <->
  QueueEntry.user_id q <> User.id user /\
  QueueEntry.role q = opposite /\
  QueueEntry.problem_type q = problem /\
  in_band band (User.age u) /\
  User.is_banned u = false /\
  User.current_chat_id u = None.
Proof.
  unfold match_where, in_band. simpl.
  rewrite !andb_true_iff, !negb_true_iff, Z.eqb_neq, !String.eqb_eq, !Z.leb_le.
  destruct (User.current_chat_id u); simpl; intuition congruence.
Qed.

Lemma match_candidates_unfold (db : DB) (user : User.t) (role problem : string) :
  match_candidates db user role problem =
  order_by (fun row => QueueEntry.joined_at (fst row))
    (filter (match_where user (opposite_role role) problem
               (fst (get_age_range (User.age user))) (snd (get_age_range (User.age user))))
       (queue_join_users db)).
Proof.
  unfold match_candidates. now destruct (get_age_range (User.age user)).
Qed.

Lemma match_candidates_in (db : DB) (user : User.t) (role problem : string)
  (q : QueueEntry.t) (u : User.t) :
  In (q, u) (match_candidates db user role problem) <->
  In q (queue_entries db) /\ In u (users db) /\ User.id u = QueueEntry.user_id q /\
  QueueEntry.user_id q <> User.id user /\
  QueueEntry.role q = opposite_role role /\
  QueueEntry.problem_type q = problem /\
  in_band (get_age_range (User.age user)) (User.age u) /\
  User.is_banned u = false /\
  User.current_chat_id u = None.
Proof.
  rewrite match_candidates_unfold. split.
  - intro Hin.
    apply (proj1 (order_by_in _ _ _)) in Hin. apply filter_In in Hin.
    destruct Hin as [Hjoin Hwhere].
    apply queue_join_users_in in Hjoin. apply match_where_spec in Hwhere. tauto.
  - intros (Hq & Hu & Hid & Hrest).
    apply order_by_in. apply filter_In. split.
    + now apply queue_join_users_in.
    + now apply match_where_spec.
Qed.

Lemma find_match_some (db : DB) (user : User.t) (role problem : string) (m : User.t) :
  find_match db user role problem = Some m ->
  (exists q rest, match_candidates db user role problem = (q, m) :: rest) /\
  in_band (get_age_range (User.age m)) (User.age user).
Proof.
  intro H. unfold find_match in H.
  destruct (match_candidates db user role problem) as [|[q u] rest]; simpl in H;
    [discriminate|].
  unfold in_band.
  destruct (get_age_range (User.age u)) as [lo hi] eqn:Hband.
  destruct (Z.leb_spec lo (User.age user)); simpl in H; [|discriminate].
  destruct (Z.leb_spec (User.age user) hi); [|discriminate].
  inversion H; subst. rewrite Hband. simpl. split; [now exists q, rest|lia].
Qed.

(** A user returned by the search is a registered user other than the
    requester, not banned and without current chat. *)
Lemma find_match_eligible (db : DB) (user : User.t) (role problem : string) (m : User.t) :
  find_match db user role problem = Some m ->
  In m (users db) /\ User.id m <> User.id user /\
  User.is_banned m = false /\ User.current_chat_id m = None.
Proof.
  intro H. apply find_match_some in H. destruct H as [(q & rest & Hc) _].
  assert (In (q, m) (match_candidates db user role problem)) as Hin
    by (rewrite Hc; now left).
  apply match_candidates_in in Hin.
  destruct Hin as (_ & Hu & Hid & Hne & _ & _ & _ & Hb & Hn).
  repeat split; try assumption. congruence.
Qed.

Lemma find_match_head (db : DB) (user : User.t) (role problem : string)
  (q : QueueEntry.t) (m : User.t) (rest : list (QueueEntry.t * User.t)) :
  match_candidates db user role problem = (q, m) :: rest ->
  in_band (get_age_range (User.age m)) (User.age user) ->
  find_match db user role problem = Some m.
Proof.
  intros Hc [Hlo Hhi]. unfold find_match. rewrite Hc. cbn [first].
  destruct (get_age_range (User.age m)) as [lo hi]. cbn [fst snd] in Hlo, Hhi.
  destruct (Z.leb_spec lo (User.age user)); [|lia].
  destruct (Z.leb_spec (User.age user) hi); [reflexivity|lia].
Qed.

Lemma opposite_role_cases (role other : string) :
  other = opposite_role role <->
  (role = "support"%string /\ other = "receive_support"%string) \/
  (role <> "support"%string /\ other = "support"%string).
Proof.
  unfold opposite_role. destruct (String.eqb_spec role "support") as [E|E]; split.
  - intros ->. left. now split.
  - intros [[_ ->]|[N _]]; [reflexivity|contradiction].
  - intros ->. right. now split.
  - intros [[N _]|[_ ->]]; [contradiction|reflexivity].
Qed.

Lemma app_split_mid (A : Type) (u v before : list A) (x : A) (after : list A) :
  u ++ v = before ++ x :: after ->
  In x u \/ exists rest, before = u ++ rest /\ v = rest ++ x :: after.
Proof.
  revert before. induction u as [|h u IH]; intros before H.
  - right. now exists before.
  - destruct before as [|h' before]; simpl in H; injection H as Hh Ht.
    + left. left. assumption.
    + destruct (IH _ Ht) as [Hin|(rest & -> & Hv)]; [left; now right|].
      right. exists rest. subst h'. now split.
Qed.

Lemma flat_map_split (A B : Type) (g : A -> list B) (l : list A)
  (before : list B) (x : B) (after : list B) :
  flat_map g l = before ++ x :: after ->
  exists front a back,
    l = front ++ a :: back /\ In x (g a) /\
    forall y, In y (flat_map g front) -> In y before.
Proof.
  revert before. induction l as [|a l IH]; intros before H; simpl in H.
  - now destruct before.
  - apply app_split_mid in H. destruct H as [Hin|(rest & -> & Hl)].
    + exists [], a, l. split; [reflexivity|]. split; [assumption|]. intros y [].
    + destruct (IH _ Hl) as (front & a' & back & -> & Hin & Hsub).
      exists (a :: front), a', back. split; [reflexivity|]. split; [assumption|].
      intros y Hy. simpl in Hy. apply in_app_or in Hy. apply in_or_app.
      destruct Hy as [Hy|Hy]; [now left|right; now apply Hsub].
Qed.

Lemma filter_flat_map (A B : Type) (p : B -> bool) (g : A -> list B) (l : list A) :
  filter p (flat_map g l) = flat_map (fun a => filter p (g a)) l.
Proof.
  induction l as [|a l IH]; simpl; [reflexivity|]. now rewrite filter_app, IH.
Qed.

(** Among the candidates with the least join time the first is the one
    whose queue row comes first in the table. *)
Lemma match_candidates_head_earliest (db : DB) (user : User.t) (role problem : string)
  (q : QueueEntry.t) (m : User.t) (rest : list (QueueEntry.t * User.t)) :
  match_candidates db user role problem = (q, m) :: rest ->
  exists before after,
    queue_entries db = before ++ q :: after /\
    forall q' u', In (q', u') (match_candidates db user role problem) ->
                  In q' before -> QueueEntry.joined_at q < QueueEntry.joined_at q'.
Proof.
  intro H. pose proof H as Hhead. rewrite match_candidates_unfold in H.
  apply order_by_head_first in H. destruct H as (b & af & Hrows & Hstrict & _).
  unfold queue_join_users in Hrows. rewrite filter_flat_map in Hrows.
  apply flat_map_split in Hrows.
  destruct Hrows as (front & a & back & Hq & Hin & Hsub).
  apply filter_In in Hin. destruct Hin as [Hin _].
  apply in_map_iff in Hin. destruct Hin as (u & E & _). injection E as -> _.
  exists front, back. split; [assumption|].
  intros q' u' Hcand Hfront.
  apply (Hstrict (q', u')). apply Hsub. apply in_flat_map. exists q'.
  split; [assumption|].
  rewrite match_candidates_unfold in Hcand.
  apply (proj1 (order_by_in _ _ _)) in Hcand. apply filter_In in Hcand.
  destruct Hcand as [Hjoin Hwhere]. apply queue_join_users_in in Hjoin.
  destruct Hjoin as (_ & Hu' & Hid).
  apply filter_In. split; [|assumption].
  apply in_map. apply filter_In. split; [assumption|]. now apply Z.eqb_eq.
Qed.

(** C2: the rows [find_match] looks at are the queue entries, each with
    its user, of another user, with the opposite role ([receive_support]
    for a requester with the role [support], [support] for any other
    role), the same topic, an age in the requester's band, not banned and
    without current chat.  They are ordered by join time, and among rows
    with the least join time the first is the one earliest in the queue
    table.  [find_match] returns a user exactly when that user is the user
    of the first such row and has the requester's age in its own band; so
    when no such row passes that second check, nothing is returned. *)
Theorem find_match_considers_eligible_entries
  (db : DB) (user : User.t) (role problem : string) :
  let candidates := match_candidates db user role problem in
  (forall q u,
     In (q, u) candidates <->
     In q (queue_entries db) /\ In u (users db) /\ User.id u = QueueEntry.user_id q /\
     QueueEntry.user_id q <> User.id user /\
     ((role = "support"%string /\ QueueEntry.role q = "receive_support"%string) \/
      (role <> "support"%string /\ QueueEntry.role q = "support"%string)) /\
     QueueEntry.problem_type q = problem /\
     in_band (get_age_range (User.age user)) (User.age u) /\
     User.is_banned u = false /\
     User.current_chat_id u = None) /\
  StronglySorted
    (fun a b => QueueEntry.joined_at (fst a) <= QueueEntry.joined_at (fst b)) candidates /\
  (forall q m rest,
     candidates = (q, m) :: rest ->
     exists before after,
       queue_entries db = before ++ q :: after /\
       forall q' u', In (q', u') candidates -> In q' before ->
                     QueueEntry.joined_at q < QueueEntry.joined_at q') /\
  (forall m,
     find_match db user role problem = Some m <->
     exists q rest,
       candidates = (q, m) :: rest /\
       in_band (get_age_range (User.age m)) (User.age user)) /\
  ((forall q u, In (q, u) candidates ->
                ~ in_band (get_age_range (User.age u)) (User.age user)) ->
   find_match db user role problem = None).
Proof.
  intro candidates. subst candidates. split; [|split; [|split; [|split]]].
  - intros q u. rewrite match_candidates_in, (opposite_role_cases role (QueueEntry.role q)).
    tauto.
  - rewrite match_candidates_unfold.
    apply (order_by_sorted (fun row : QueueEntry.t * User.t => QueueEntry.joined_at (fst row))).
  - intros q m rest. apply match_candidates_head_earliest.
  - intro m. split.
    + intro H. apply find_match_some in H. destruct H as [(q & rest & Hc) Hband].
      now exists q, rest.
    + intros (q & rest & Hc & Hband). exact (find_match_head _ _ _ _ Hc Hband).
  - intro Hnone.
    destruct (find_match db user role problem) as [m|] eqn:Hm; [|reflexivity].
    apply find_match_some in Hm. destruct Hm as [(q & rest & Hc) Hband].
    exfalso. apply (Hnone q m); [|assumption]. rewrite Hc. now left.
Qed.

(** ** Ending a chat *)

Lemma record_history_unfold (now : Z) (db : DB) (uid cid : Z) :
  record_history now db uid cid =
  match select_history_entry db uid cid with
  | Ok None =>
      Ok (with_chat_history
            (fun l => l ++ [ChatHistory.mk (fresh_id (map ChatHistory.id l)) uid cid now]) db)
  | Ok (Some e) =>
      Ok (update_history_entry (ChatHistory.id e) (ChatHistory.with_viewed_at now) db)
  | Raise e => Raise e
  end.
Proof.
  unfold record_history, record_history_with.
  destruct (select_history_entry db uid cid) as [[e|]|e]; simpl; try reflexivity.
  destruct (3 <=? _); simpl; [|reflexivity].
  destruct (order_by ChatHistory.viewed_at (filter (history_of uid) (chat_history db)))
    as [|old rest]; reflexivity.
Qed.

Lemma length_le_1_cases (A : Type) (l : list A) :
  (List.length l <= 1)%nat -> l = [] \/ exists x, l = [x].
Proof.
  destruct l as [|x [|y l]]; simpl; intro H; [now left|right; now exists x|lia].
Qed.

Lemma history_for_with_viewed_at (uid cid hid now : Z) (l : list ChatHistory.t) :
  filter (history_for uid cid)
    (map (fun h => if ChatHistory.id h =? hid then ChatHistory.with_viewed_at now h else h) l)
  = map (fun h => if ChatHistory.id h =? hid then ChatHistory.with_viewed_at now h else h)
      (filter (history_for uid cid) l).
Proof.
  apply filter_map_commute. intro h. now destruct (ChatHistory.id h =? hid).
Qed.

(** Recording (user, chat) leaves one row for that pair and as many rows
    as before for every other pair; the other tables are untouched. *)
Lemma record_history_effect (now : Z) (db : DB) (uid cid : Z) :
  (List.length (filter (history_for uid cid) (chat_history db)) <= 1)%nat ->
  exists db',
    record_history now db uid cid = Ok db' /\
    users db' = users db /\ chats db' = chats db /\
    List.length (filter (history_for uid cid) (chat_history db')) = 1%nat /\
    forall uid' cid',
      uid' <> uid \/ cid' <> cid ->
      List.length (filter (history_for uid' cid') (chat_history db'))
      = List.length (filter (history_for uid' cid') (chat_history db)).
Proof.
  intro Hle. rewrite record_history_unfold. unfold select_history_entry.
  destruct (length_le_1_cases _ Hle) as [Hnone|[e He]].
  - rewrite Hnone. simpl. eexists. split; [reflexivity|]. simpl.
    repeat split.
    + rewrite filter_app, Hnone. simpl. unfold history_for at 1. simpl.
      now rewrite !Z.eqb_refl.
    + intros uid' cid' Hneq. rewrite filter_app. simpl.
      unfold history_for at 2. simpl.
      destruct (Z.eqb_spec uid uid'), (Z.eqb_spec cid cid'); simpl;
        rewrite ?app_nil_r; try reflexivity.
      destruct Hneq; congruence.
  - rewrite He. simpl. eexists. split; [reflexivity|]. simpl.
    repeat split.
    + now rewrite history_for_with_viewed_at, length_map, He.
    + intros uid' cid' _. now rewrite history_for_with_viewed_at, length_map.
Qed.

Lemma handle_callback_end_chat (clk : nat -> Z) (db : DB) (tg : Z) (user : User.t) :
  select_user_by_telegram_id db tg = Ok (Some user) ->
  User.is_banned user = false ->
  handle_callback clk db tg "end_chat" = end_chat clk db user.
Proof.
  intros Hu Hb. unfold handle_callback. rewrite Hu. simpl bind. now rewrite Hb.
Qed.

Lemma cleared_reference (k : Z) (l : list User.t) (u' : User.t) :
  In u' (map (fun u => if User.id u =? k then User.with_current_chat_id None u else u) l) ->
  (User.id u' = k -> User.current_chat_id u' = None) /\
  exists u, In u l /\ User.id u = User.id u' /\
            (User.current_chat_id u = None -> User.current_chat_id u' = None).
Proof.
  intro Hin. apply in_map_iff in Hin. destruct Hin as (u & <- & Hu).
  destruct (Z.eqb_spec (User.id u) k) as [E|E]; simpl.
  - split; [reflexivity|]. exists u. now repeat split.
  - split; [intro; contradiction|]. exists u. now repeat split.
Qed.

Lemma history_for_false (uid cid : Z) (h : ChatHistory.t) :
  history_for uid cid h = false ->
  ChatHistory.user_id h <> uid \/ ChatHistory.chat_id h <> cid.
Proof.
  unfold history_for. intro H. apply andb_false_iff in H.
  destruct H as [H|H]; apply Z.eqb_neq in H; [now left|now right].
Qed.

Lemma history_for_other (uid cid uid' cid' : Z) (h : ChatHistory.t) :
  uid' <> uid \/ cid' <> cid ->
  history_for uid cid h = true -> history_for uid' cid' h = false.
Proof.
  unfold history_for. intros Hne H. apply andb_true_iff in H.
  destruct H as [Hu Hc]. apply Z.eqb_eq in Hu, Hc. apply andb_false_iff.
  destruct Hne as [N|N]; [left|right]; apply Z.eqb_neq; congruence.
Qed.

(** Recording (user, chat): the row of that pair, if there is one, gets
    the new instant and keeps its id; otherwise one row with a new id is
    appended.  The rows of every other pair are as before. *)
Lemma record_history_row (now : Z) (db : DB) (uid cid : Z) :
  NoDup (map ChatHistory.id (chat_history db)) ->
  (List.length (filter (history_for uid cid) (chat_history db)) <= 1)%nat ->
  exists db' h,
    record_history now db uid cid = Ok db' /\
    users db' = users db /\ chats db' = chats db /\
    filter (history_for uid cid) (chat_history db') = [h] /\
    ChatHistory.viewed_at h = now /\
    (forall e, In e (chat_history db) -> history_for uid cid e = true ->
               ChatHistory.id h = ChatHistory.id e) /\
    (filter (history_for uid cid) (chat_history db) = [] ->
     ~ In (ChatHistory.id h) (map ChatHistory.id (chat_history db))) /\
    (List.length (chat_history db')
     + List.length (filter (history_for uid cid) (chat_history db))
     = List.length (chat_history db) + 1)%nat /\
    NoDup (map ChatHistory.id (chat_history db')) /\
    incl (map ChatHistory.id (chat_history db)) (map ChatHistory.id (chat_history db')) /\
    (forall uid' cid', uid' <> uid \/ cid' <> cid ->
       filter (history_for uid' cid') (chat_history db')
       = filter (history_for uid' cid') (chat_history db)).
Proof.
  intros Hnd Hle. rewrite record_history_unfold. unfold select_history_entry.
  destruct (length_le_1_cases _ Hle) as [Hnone|[e He]].
  - rewrite Hnone. cbn [scalar_one_or_none].
    set (h := ChatHistory.mk (fresh_id (map ChatHistory.id (chat_history db))) uid cid now).
    exists (with_chat_history (fun l => l ++ [h]) db), h.
    split; [reflexivity|]. split; [reflexivity|]. split; [reflexivity|].
    cbn [chat_history with_chat_history].
    assert (Hmine : history_for uid cid h = true)
      by (unfold history_for, h; simpl; now rewrite !Z.eqb_refl).
    split; [rewrite filter_app, Hnone; simpl; now rewrite Hmine|].
    split; [reflexivity|]. split.
    { intros e Hin Hfor. exfalso.
      assert (In e (filter (history_for uid cid) (chat_history db))) as H
        by (apply filter_In; now split).
      rewrite Hnone in H. destruct H. }
    split; [intros _; apply fresh_id_not_in|].
    split; [rewrite length_app; simpl; lia|].
    split; [apply nodup_map_snoc; [assumption|apply fresh_id_not_in]|].
    split; [intros x Hx; rewrite map_app; apply in_or_app; now left|].
    intros uid' cid' Hne. rewrite filter_app. simpl.
    rewrite (history_for_other h Hne Hmine). apply app_nil_r.
  - rewrite He. cbn [scalar_one_or_none].
    destruct (filter_singleton_elim _ _ He) as [Hine Hfore].
    exists (update_history_entry (ChatHistory.id e) (ChatHistory.with_viewed_at now) db),
           (ChatHistory.with_viewed_at now e).
    split; [reflexivity|]. split; [reflexivity|]. split; [reflexivity|].
    cbn [chat_history update_history_entry with_chat_history].
    split; [rewrite history_for_with_viewed_at, He; simpl; now rewrite Z.eqb_refl|].
    split; [reflexivity|]. split.
    { intros e' Hin Hfor.
      now rewrite (@filter_singleton_in _ (history_for uid cid) (chat_history db) e e'
                     He Hin Hfor). }
    split; [intro Hnone; rewrite Hnone in He; discriminate|].
    split; [rewrite length_map; simpl; lia|].
    split; [rewrite map_update_same; [assumption|reflexivity]|].
    split; [rewrite map_update_same; [apply incl_refl|reflexivity]|].
    intros uid' cid' Hne. rewrite history_for_with_viewed_at.
    rewrite <- (map_id (filter (history_for uid' cid') (chat_history db))) at 2.
    apply map_ext_in. intros x Hx. apply filter_In in Hx. destruct Hx as [Hx Hforx].
    destruct (Z.eqb_spec (ChatHistory.id x) (ChatHistory.id e)) as [E|_]; [|reflexivity].
    rewrite (@unique_by_key _ ChatHistory.id (chat_history db) x e Hnd Hx Hine E) in Hforx.
    rewrite (history_for_other e Hne Hfore) in Hforx. discriminate.
Qed.

(** C4: a registered user whose current chat exists (the user being one
    of its two distinct participants, the partner's row being found)
    presses [end_chat].  A banned user is refused and nothing changes.
    For a user who is not banned the chat is marked inactive with the end
    instant, the current-chat reference of both participants is cleared,
    and each participant has exactly one history row for the chat, viewed
    at the instant of its recording: a row that existed keeps its id and
    gets the new instant, a missing row is added with a new id, so that
    the table grows by the number of rows that were missing, and the rows
    of every other pair are as before. *)
Theorem end_chat_closes_and_records
  (clk : nat -> Z) (db : DB) (tg : Z) (user partner : User.t) (cid : Z) (chat : Chat.t) :
  select_user_by_telegram_id db tg = Ok (Some user) ->
  User.current_chat_id user = Some cid ->
  cid <> 0 ->
  select_chat_by_id db cid = Ok (Some chat) ->
  Chat.user1_id chat = User.id user \/ Chat.user2_id chat = User.id user ->
  Chat.user1_id chat <> Chat.user2_id chat ->
  select_user_by_id db (partner_id_of chat user) = Ok (Some partner) ->
  NoDup (map ChatHistory.id (chat_history db)) ->
  (List.length (filter (history_for (Chat.user1_id chat) cid) (chat_history db)) <= 1)%nat ->
  (List.length (filter (history_for (Chat.user2_id chat) cid) (chat_history db)) <= 1)%nat ->
  (User.is_banned user = true ->
   handle_callback clk db tg "end_chat"
     = Ok (db, [edit_message_text (Fixed NoticeAccessDenied)])) /\
  (User.is_banned user = false ->
   exists (db' : DB) (hu hp : ChatHistory.t),
     handle_callback clk db tg "end_chat"
       = Ok (db', [send_message (User.telegram_id partner) (Fixed NoticePartnerEndedChat);
                   edit_message_text (Fixed NoticeChatEnded)]) /\
     select_chat_by_id db' cid = Ok (Some (Chat.ended (clk 0%nat) chat)) /\
     Chat.is_active (Chat.ended (clk 0%nat) chat) = false /\
     Chat.ended_at (Chat.ended (clk 0%nat) chat) = Some (clk 0%nat) /\
     ((User.id user = Chat.user1_id chat /\ User.id partner = Chat.user2_id chat) \/
      (User.id user = Chat.user2_id chat /\ User.id partner = Chat.user1_id chat)) /\
     (forall u, In u (users db') ->
                User.id u = Chat.user1_id chat \/ User.id u = Chat.user2_id chat ->
                User.current_chat_id u = None) /\
     filter (history_for (User.id user) cid) (chat_history db') = [hu] /\
     ChatHistory.viewed_at hu = clk 1%nat /\
     filter (history_for (User.id partner) cid) (chat_history db') = [hp] /\
     ChatHistory.viewed_at hp = clk 2%nat /\
     (forall e, In e (chat_history db) ->
        (history_for (User.id user) cid e = true -> ChatHistory.id hu = ChatHistory.id e) /\
        (history_for (User.id partner) cid e = true ->
         ChatHistory.id hp = ChatHistory.id e)) /\
     (filter (history_for (User.id user) cid) (chat_history db) = [] ->
      ~ In (ChatHistory.id hu) (map ChatHistory.id (chat_history db))) /\
     (filter (history_for (User.id partner) cid) (chat_history db) = [] ->
      ~ In (ChatHistory.id hp) (map ChatHistory.id (chat_history db))) /\
     (List.length (chat_history db')
      + List.length (filter (history_for (User.id user) cid) (chat_history db))
      + List.length (filter (history_for (User.id partner) cid) (chat_history db))
      = List.length (chat_history db) + 2)%nat /\
     (forall uid' cid',
        uid' <> User.id user \/ cid' <> cid ->
        uid' <> User.id partner \/ cid' <> cid ->
        filter (history_for uid' cid') (chat_history db')
        = filter (history_for uid' cid') (chat_history db))).
Proof.
  intros Hu Hc Hcid Hchat Hpart Hdist Hpartner Hnd Hh1 Hh2. split.
  { intro Hb. unfold handle_callback. rewrite Hu. cbn [bind]. now rewrite Hb. }
  intro Hb.
  rewrite (handle_callback_end_chat clk db tg Hu Hb).
  pose proof (select_chat_by_id_sound _ _ Hchat) as [_ Hchatid].
  pose proof (select_chat_by_id_rows _ _ Hchat) as [Hrange Hrows].
  pose proof (select_user_by_id_sound _ _ Hpartner) as [_ Hpid].
  pose proof (partner_is_not_user chat user Hdist) as Hneq.
  assert (Hpair : (User.id user = Chat.user1_id chat /\ User.id partner = Chat.user2_id chat)
                  \/ (User.id user = Chat.user2_id chat /\ User.id partner = Chat.user1_id chat)).
  { rewrite Hpid. unfold partner_id_of.
    destruct (Z.eqb_spec (Chat.user1_id chat) (User.id user)) as [E|E].
    - left. now split.
    - right. destruct Hpart; [contradiction|]. now split. }
  assert (Hhu : (List.length (filter (history_for (User.id user) cid) (chat_history db)) <= 1)%nat)
    by (destruct Hpair as [[-> _]|[-> _]]; assumption).
  assert (Hhp : (List.length (filter (history_for (User.id partner) cid) (chat_history db)) <= 1)%nat)
    by (destruct Hpair as [[_ ->]|[_ ->]]; assumption).
  assert (Hup : User.id user <> User.id partner) by congruence.
  unfold end_chat. rewrite Hc.
  destruct (Z.eqb_spec cid 0) as [|_]; [contradiction|]. simpl negb. cbv iota.
  rewrite Hchat. cbn [bind].
  replace (select_user_by_id (update_chat (Chat.id chat) (Chat.ended (clk 0%nat)) db)
             (partner_id_of chat user))
    with (select_user_by_id db (partner_id_of chat user)) by reflexivity.
  rewrite Hpartner. cbn [bind]. rewrite Hchatid.
  set (db3 := update_user (User.id user) (User.with_current_chat_id None)
                (update_user (User.id partner) (User.with_current_chat_id None)
                   (update_chat cid (Chat.ended (clk 0%nat)) db))).
  destruct (@record_history_row (clk 1%nat) db3 (User.id user) cid Hnd Hhu)
    as (db4 & hu & Hrec4 & Husers4 & Hchats4 & Hone4 & Hv4 & Hupd4 & Hnew4 & Hlen4
        & Hnd4 & Hincl4 & Hother4).
  change (chat_history db3) with (chat_history db) in *.
  rewrite Hrec4. cbn [bind].
  assert (Hsame4 : filter (history_for (User.id partner) cid) (chat_history db4)
                   = filter (history_for (User.id partner) cid) (chat_history db))
    by (apply Hother4; left; congruence).
  assert (Hhp4 : (List.length (filter (history_for (User.id partner) cid) (chat_history db4)) <= 1)%nat)
    by (now rewrite Hsame4).
  destruct (@record_history_row (clk 2%nat) db4 (User.id partner) cid Hnd4 Hhp4)
    as (db5 & hp & Hrec5 & Husers5 & Hchats5 & Hone5 & Hv5 & Hupd5 & Hnew5 & Hlen5
        & _ & _ & Hother5).
  rewrite Hrec5. cbn [bind].
  exists db5, hu, hp. split; [reflexivity|].
  split; [|split; [reflexivity|split; [reflexivity|split; [exact Hpair|]]]].
  { rewrite (@select_chat_by_id_bound db5 cid Hrange). rewrite Hchats5, Hchats4. simpl.
    rewrite filter_map_commute.
    + apply scalar_one_or_none_some in Hrows. rewrite Hrows. simpl.
      now rewrite Hchatid, Z.eqb_refl.
    + intro c. simpl. destruct (Chat.id c =? cid) eqn:E; simpl; now rewrite ?E. }
  split.
  { intros u Hin Hwho. rewrite Husers5, Husers4 in Hin. simpl in Hin.
    apply cleared_reference in Hin. destruct Hin as [Hmine (u1 & Hin1 & Hid1 & Hkeep1)].
    destruct (Z.eq_dec (User.id u) (User.id user)) as [E|E]; [now apply Hmine|].
    apply Hkeep1. apply cleared_reference in Hin1. destruct Hin1 as [Hmine1 _].
    apply Hmine1. rewrite Hid1.
    destruct Hpair as [[H1 H2]|[H1 H2]]; destruct Hwho; congruence. }
  split; [rewrite Hother5; [exact Hone4|now left]|].
  split; [exact Hv4|]. split; [exact Hone5|]. split; [exact Hv5|].
  split.
  { intros e Hin. split; [now apply Hupd4|]. intro Hfor. apply Hupd5; [|assumption].
    assert (In e (filter (history_for (User.id partner) cid) (chat_history db))) as H
      by (apply filter_In; now split).
    rewrite <- Hsame4 in H. now apply filter_In in H. }
  split; [exact Hnew4|].
  split.
  { intros Hnone Hin. rewrite <- Hsame4 in Hnone. apply (Hnew5 Hnone).
    now apply Hincl4. }
  split; [rewrite Hsame4 in Hlen5; lia|].
  intros uid' cid' Hnu Hnp. now rewrite (Hother5 _ _ Hnp), (Hother4 _ _ Hnu).
Qed.

(** C4 as stated fails for a banned user.  Alice, in chat 1 with Bob, is
    banned for a profane message and keeps her current-chat reference;
    her [end_chat] is then refused, and the chat stays active with both
    references in place. *)
Lemma banned_user_cannot_end_chat :
  exists db0 alice bob chat,
    handle_message Samples.check_profanity 5 Samples.talking 101 "#@!"
      = Ok (db0, [reply_text (Fixed NoticePermanentBan)]) /\
    select_user_by_telegram_id db0 101 = Ok (Some alice) /\
    User.is_banned alice = true /\
    User.current_chat_id alice = Some 1 /\
    select_chat_by_id db0 1 = Ok (Some chat) /\
    handle_callback Samples.clk db0 101 "end_chat"
      = Ok (db0, [edit_message_text (Fixed NoticeAccessDenied)]) /\
    Chat.is_active chat = true /\
    Chat.ended_at chat = None /\
    select_user_by_id db0 2 = Ok (Some bob) /\
    User.current_chat_id bob = Some 1 /\
    chat_history db0 = [].
Proof.
  do 4 eexists. split; [vm_compute; reflexivity|].
  repeat (split; [reflexivity|]). reflexivity.
Qed.

(** ** The history bound *)

(** Whatever the number of rows, recording a new pair adds a row and
    removes none: the statement meant to evict the oldest row has no
    effect. *)
Lemma record_history_new_pair_grows (now : Z) (db : DB) (uid cid : Z) :
  filter (history_for uid cid) (chat_history db) = [] ->
  exists db',
    record_history now db uid cid = Ok db' /\
    chat_history db' =
      chat_history db ++ [ChatHistory.mk (fresh_id (map ChatHistory.id (chat_history db))) uid cid now].
Proof.
  intro Hnone. rewrite record_history_unfold. unfold select_history_entry.
  rewrite Hnone. simpl. eexists. split; reflexivity.
Qed.

Lemma awaited_delete_removes_one (p : ChatHistory.t -> bool) (l : list ChatHistory.t)
  (x : ChatHistory.t) :
  NoDup (map ChatHistory.id l) -> In x l -> p x = true ->
  S (List.length
       (filter p (filter (fun h => negb (ChatHistory.id h =? ChatHistory.id x)) l)))
  = List.length (filter p l).
Proof.
  induction l as [|a l IH]; simpl; intros Hnd Hin Hp; [destruct Hin|].
  inversion Hnd as [|? ? Hnotin Hnd']; subst.
  destruct Hin as [->|Hin].
  - rewrite Z.eqb_refl, Hp. simpl. f_equal. f_equal. f_equal.
    clear IH Hnd. induction l as [|b l IHl]; simpl; [reflexivity|].
    simpl in Hnotin, Hnd'. inversion Hnd'; subst.
    destruct (Z.eqb_spec (ChatHistory.id b) (ChatHistory.id x)) as [E|_]; simpl.
    + exfalso. apply Hnotin. now left.
    + f_equal. apply IHl; [|assumption]. intro H. apply Hnotin. now right.
  - destruct (Z.eqb_spec (ChatHistory.id a) (ChatHistory.id x)) as [E|_]; simpl.
    + exfalso. apply Hnotin. rewrite E. now apply in_map.
    + destruct (p a); simpl; rewrite <- (IH Hnd' Hin Hp); reflexivity.
Qed.

(** Had the deletion been awaited, three rows would stay three rows. *)
Lemma awaited_delete_keeps_bound (now : Z) (db db' : DB) (uid cid : Z) :
  NoDup (map ChatHistory.id (chat_history db)) ->
  (List.length (filter (history_of uid) (chat_history db)) <= 3)%nat ->
  record_history_with session_delete now db uid cid = Ok db' ->
  (List.length (filter (history_of uid) (chat_history db')) <= 3)%nat.
Proof.
  intros Hnd Hle. unfold record_history_with.
  destruct (select_history_entry db uid cid) as [[e|]|e]; simpl; [| |discriminate].
  - intro H. inversion H; subst. simpl.
    rewrite filter_map_commute, length_map; [assumption|].
    intro h. now destruct (ChatHistory.id h =? ChatHistory.id e).
  - destruct (Z.leb_spec 3 (Z.of_nat (List.length (filter (history_of uid) (chat_history db)))))
      as [Hfull|Hroom]; simpl.
    + destruct (order_by ChatHistory.viewed_at (filter (history_of uid) (chat_history db)))
        as [|old rest] eqn:Hord.
      * apply (f_equal (@List.length _)) in Hord. rewrite order_by_length in Hord.
        simpl in Hord. lia.
      * simpl. intro H. inversion H; subst. simpl.
        assert (In old (filter (history_of uid) (chat_history db))) as Hold.
        { apply (proj1 (order_by_in ChatHistory.viewed_at _ old)). rewrite Hord. now left. }
        apply filter_In in Hold. destruct Hold as [Hin Hmine].
        pose proof (@awaited_delete_removes_one (history_of uid) _ old Hnd Hin Hmine) as Hone.
        rewrite filter_app, length_app. simpl. unfold history_of at 2. simpl.
        rewrite Z.eqb_refl. simpl. lia.
    + intro H. inversion H; subst. simpl.
      rewrite filter_app, length_app. simpl. unfold history_of at 2. simpl.
      rewrite Z.eqb_refl. simpl. lia.
Qed.

(** C5, at a store where the user has three history rows and ends a
    fourth chat: the handler succeeds and the user is left with four
    history rows, the oldest one among them. *)
Theorem history_grows_past_three :
  exists db' sent,
    handle_callback Samples.clk Samples.three_in_history 101 "end_chat" = Ok (db', sent) /\
    List.length (filter (history_of 1) (chat_history Samples.three_in_history)) = 3%nat /\
    List.length (filter (history_of 1) (chat_history db')) = 4%nat /\
    In (ChatHistory.mk 1 1 1 11) (chat_history db').
Proof.
  eexists. eexists. split; [vm_compute; reflexivity|].
  split; [reflexivity|]. split; [reflexivity|]. simpl. now left.
Qed.

(** ** The periodic sweep *)

Lemma mem_true_in (x : Z) (s : list Z) : mem x s = true <-> In x s.
Proof.
  unfold mem. rewrite existsb_exists. split.
  - intros (y & Hy & E). apply Z.eqb_eq in E. now subst.
  - intro H. exists x. split; [assumption|apply Z.eqb_refl].
Qed.

Lemma select_user_by_id_total (db : DB) (uid : Z) :
  NoDup (map User.id (users db)) ->
  select_user_by_id db uid = Ok None \/ exists u, select_user_by_id db uid = Ok (Some u).
Proof.
  intro Hnd. unfold select_user_by_id.
  destruct (@unique_column_lookup _ User.id (users db) uid Hnd) as [->|[u ->]];
    [now left|right; now exists u].
Qed.

Lemma select_user_by_id_none (db : DB) (uid : Z) :
  select_user_by_id db uid = Ok None -> forall u, In u (users db) -> User.id u <> uid.
Proof.
  intros H u Hin E. apply scalar_one_or_none_none, filter_nil_not_in in H.
  apply H. rewrite <- E. now apply in_map.
Qed.

Lemma select_user_by_id_only (db : DB) (uid : Z) (u u0 : User.t) :
  select_user_by_id db uid = Ok (Some u) -> In u0 (users db) -> User.id u0 = uid -> u0 = u.
Proof.
  intros H Hin E. apply scalar_one_or_none_some in H.
  eapply filter_singleton_in; [exact H|exact Hin|]. now apply Z.eqb_eq.
Qed.

Lemma remove_from_queue_in (db : DB) (uid : Z) (q : QueueEntry.t) :
  In q (queue_entries (remove_from_queue db uid)) <->
  In q (queue_entries db) /\ QueueEntry.user_id q <> uid.
Proof.
  unfold remove_from_queue. simpl. rewrite filter_In, negb_true_iff, Z.eqb_neq. tauto.
Qed.

(** The branch taken for a stale entry: the entry is deleted and nothing
    else happens. *)
Lemma sweep_step_stale (clk : nat -> Z) (st : sweep_state) (e : QueueEntry.t) :
  mem (QueueEntry.user_id e) (processed_users st) = false ->
  NoDup (map User.id (users (sweep_db st))) ->
  stale_in (sweep_db st) (QueueEntry.user_id e) ->
  sweep_step clk st e
  = Ok (mkSweep (remove_from_queue (sweep_db st) (QueueEntry.user_id e))
          (processed_users st) (sweep_sent st) (sweep_clock st)).
Proof.
  intros Hmem Hnd Hstale. unfold sweep_step. rewrite Hmem.
  destruct (select_user_by_id_total (sweep_db st) (QueueEntry.user_id e) Hnd)
    as [Hn|[u Hu]].
  - now rewrite Hn.
  - rewrite Hu. simpl.
    destruct (@select_user_by_id_sound _ _ _ Hu) as [Hin Hid].
    destruct Hstale as [Hmiss|(u0 & Hin0 & Hid0 & Hst0)].
    + exfalso. now apply (Hmiss u Hin).
    + rewrite (@select_user_by_id_only _ _ _ _ Hu Hin0 Hid0) in Hst0. now rewrite Hst0.
Qed.

Section SweepInvariant.

Variable db0 : DB.
Hypothesis users_pk : NoDup (map User.id (users db0)).

Lemma sweep_inv_init : sweep_inv db0 [] (mkSweep db0 [] [] 0%nat).
Proof.
  constructor; simpl; tauto.
Qed.

Lemma stale_before_stale_now (done : list QueueEntry.t) (st : sweep_state) (uid : Z) :
  sweep_inv db0 done st -> stale_in db0 uid -> stale_in (sweep_db st) uid.
Proof.
  intros Hinv [Hmiss|(u0 & Hin0 & Hid0 & Hst0)].
  - left. intros u Hin E.
    assert (In uid (map User.id (users db0))) as H.
    { rewrite <- (inv_ids Hinv), <- E. now apply in_map. }
    apply in_map_iff in H. destruct H as (u' & E' & Hin'). now apply (Hmiss u').
  - right. exists u0. repeat split; try assumption. now apply (inv_stale_rows Hinv).
Qed.

Lemma found_fresh_not_stale (done : list QueueEntry.t) (st : sweep_state) (uid : Z)
  (u : User.t) :
  sweep_inv db0 done st ->
  select_user_by_id (sweep_db st) uid = Ok (Some u) ->
  stale_row u = false ->
  ~ stale_in db0 uid.
Proof.
  intros Hinv Hu Hfresh Hstale.
  destruct (@select_user_by_id_sound _ _ _ Hu) as [Hin Hid].
  destruct (@stale_before_stale_now _ _ _ Hinv Hstale) as [Hmiss|(u0 & Hin0 & Hid0 & Hst0)].
  - now apply (Hmiss u Hin).
  - rewrite (@select_user_by_id_only _ _ _ _ Hu Hin0 Hid0) in Hst0. congruence.
Qed.

Lemma inv_users_pk (done : list QueueEntry.t) (st : sweep_state) :
  sweep_inv db0 done st -> NoDup (map User.id (users (sweep_db st))).
Proof. intro Hinv. now rewrite (inv_ids Hinv). Qed.

Lemma sweep_inv_skip (done : list QueueEntry.t) (st : sweep_state) (e : QueueEntry.t) :
  sweep_inv db0 done st ->
  In (QueueEntry.user_id e) (processed_users st) ->
  sweep_inv db0 (e :: done) st.
Proof.
  intros Hinv Hproc. destruct Hinv as [H1 H2 H3 H4 H5]. constructor; try assumption.
  intros e' [<-|He'] Hstale; [|now apply H4].
  exfalso. now apply (H3 _ Hproc).
Qed.

Lemma sweep_inv_remove (done : list QueueEntry.t) (st : sweep_state) (e : QueueEntry.t) :
  sweep_inv db0 done st ->
  sweep_inv db0 (e :: done)
    (mkSweep (remove_from_queue (sweep_db st) (QueueEntry.user_id e))
       (processed_users st) (sweep_sent st) (sweep_clock st)).
Proof.
  intro Hinv. destruct Hinv as [H1 H2 H3 H4 H5]. constructor; simpl; try assumption.
  intros e' He' Hstale q Hq.
  change (In q (queue_entries (remove_from_queue (sweep_db st) (QueueEntry.user_id e)))) in Hq.
  apply remove_from_queue_in in Hq. destruct Hq as [Hq Hne].
  destruct He' as [<-|He']; [assumption|now apply (H4 e')].
Qed.

Lemma sweep_inv_mark (done : list QueueEntry.t) (st : sweep_state) (e : QueueEntry.t) :
  sweep_inv db0 done st ->
  ~ stale_in db0 (QueueEntry.user_id e) ->
  sweep_inv db0 (e :: done) (mark_processed (QueueEntry.user_id e) st).
Proof.
  intros Hinv Hfresh. destruct Hinv as [H1 H2 H3 H4 H5]. constructor; simpl; try assumption.
  - intros uid [<-|Hu]; [assumption|now apply H3].
  - intros e' [<-|He'] Hstale; [contradiction|now apply H4].
Qed.

Lemma sweep_inv_matched (done : list QueueEntry.t) (st : sweep_state) (e : QueueEntry.t)
  (now : Z) (user partner : User.t) (sent : list action) (tick : nat) :
  sweep_inv db0 done st ->
  User.id user = QueueEntry.user_id e ->
  ~ stale_in db0 (User.id user) ->
  ~ stale_in db0 (User.id partner) ->
  sweep_inv db0 (e :: done)
    (mkSweep
       (remove_from_queue
          (remove_from_queue
             (fst (create_chat now (sweep_db st) user partner
                     (QueueEntry.role e) (QueueEntry.problem_type e)))
             (User.id user))
          (User.id partner))
       (User.id user :: User.id partner :: processed_users st) sent tick).
Proof.
  intros Hinv Hid Hfu Hfp. destruct Hinv as [H1 H2 H3 H4 H5]. constructor; simpl.
  - rewrite !map_map. rewrite <- H1. apply map_ext. intro u.
    destruct (User.id u =? User.id user); simpl;
      now destruct (User.id u =? User.id partner).
  - intros u Hin Hst. specialize (H2 u Hin Hst).
    assert (stale_in db0 (User.id u)) as Hsu by (right; now exists u).
    apply in_map_iff. exists (if User.id u =? User.id user
                              then User.with_current_chat_id
                                     (Some (fresh_id (map Chat.id (chats (sweep_db st))))) u
                              else u).
    destruct (Z.eqb_spec (User.id u) (User.id user)) as [E|_];
      [rewrite E in Hsu; contradiction|].
    destruct (Z.eqb_spec (User.id u) (User.id partner)) as [E|_];
      [rewrite E in Hsu; contradiction|].
    split; [reflexivity|]. apply in_map_iff. exists u.
    destruct (Z.eqb_spec (User.id u) (User.id user)) as [E|_];
      [rewrite E in Hsu; contradiction|now split].
  - intros uid [<-|[<-|Hu]]; [assumption|assumption|now apply H3].
  - intros e' He' Hstale q Hq.
    apply filter_In in Hq. destruct Hq as [Hq _].
    apply filter_In in Hq. destruct Hq as [Hq _].
    destruct He' as [<-|He']; [|now apply (H4 e')].
    rewrite <- Hid in Hstale. contradiction.
  - intros c Hc. apply in_app_or in Hc. destruct Hc as [Hc|[<-|[]]]; [now apply H5|].
    right. simpl. now split.
Qed.

Lemma sweep_step_preserves (clk : nat -> Z) (done : list QueueEntry.t) (st : sweep_state)
  (e : QueueEntry.t) :
  sweep_inv db0 done st ->
  exists st', sweep_step clk st e = Ok st' /\ sweep_inv db0 (e :: done) st'.
Proof.
  intro Hinv. pose proof (@inv_users_pk _ _ Hinv) as Hpk. unfold sweep_step.
  destruct (mem (QueueEntry.user_id e) (processed_users st)) eqn:Hmem.
  { exists st. split; [reflexivity|]. apply sweep_inv_skip; [assumption|].
    now apply mem_true_in. }
  destruct (select_user_by_id_total (sweep_db st) (QueueEntry.user_id e) Hpk)
    as [Hn|[user Hu]].
  { rewrite Hn. simpl. eexists. split; [reflexivity|]. now apply sweep_inv_remove. }
  rewrite Hu. simpl.
  destruct (stale_row user) eqn:Hst.
  { eexists. split; [reflexivity|]. now apply sweep_inv_remove. }
  pose proof (@found_fresh_not_stale _ _ _ _ Hinv Hu Hst) as Hfresh.
  destruct (@select_user_by_id_sound _ _ _ Hu) as [Hin Hid].
  destruct (find_match (sweep_db st) user (QueueEntry.role e) (QueueEntry.problem_type e))
    as [matched|] eqn:Hm.
  2:{ eexists. split; [reflexivity|]. rewrite Hid. now apply sweep_inv_mark. }
  destruct (select_user_by_id_total (sweep_db st) (User.id matched) Hpk)
    as [Hn|[match_user Hmu]].
  { rewrite Hn. simpl. eexists. split; [reflexivity|]. rewrite Hid.
    now apply sweep_inv_mark. }
  rewrite Hmu. simpl.
  destruct (truthy (User.current_chat_id match_user)) eqn:Htr; simpl.
  { eexists. split; [reflexivity|]. rewrite Hid. now apply sweep_inv_mark. }
  eexists. split; [reflexivity|].
  apply find_match_eligible in Hm. destruct Hm as (Hinm & _ & Hbm & _).
  destruct (@select_user_by_id_sound _ _ _ Hmu) as [_ Hidm].
  pose proof (@select_user_by_id_only _ _ _ _ Hmu Hinm eq_refl) as Hsame.
  apply sweep_inv_matched; try assumption.
  - now rewrite Hid.
  - rewrite Hidm. apply (@found_fresh_not_stale _ _ _ _ Hinv Hmu).
    unfold stale_row. rewrite Htr. rewrite <- Hsame. now rewrite Hbm.
Qed.

Lemma sweep_loop_completes (clk : nat -> Z) (entries done : list QueueEntry.t)
  (st : sweep_state) :
  sweep_inv db0 done st ->
  exists st', sweep_loop clk st entries = (st', None) /\
              sweep_inv db0 (rev entries ++ done) st'.
Proof.
  revert done st. induction entries as [|e entries IH]; intros done st Hinv; simpl.
  - now exists st.
  - destruct (@sweep_step_preserves clk _ _ e Hinv) as (st1 & Hstep & Hinv1).
    rewrite Hstep. destruct (IH _ _ Hinv1) as (st' & Hloop & Hinv').
    exists st'. split; [assumption|]. now rewrite <- app_assoc.
Qed.

End SweepInvariant.

(** C8: a sweep over an empty queue changes nothing, sends nothing and
    logs no error; a turn of the loop at an entry that is not yet
    processed and whose user is missing, banned or in a chat only deletes
    the queue rows of that user; and a whole sweep ends without error,
    leaves no queue row of such a user, and every chat it adds is between
    other users. *)
Theorem sweep_drops_stale_entries (clk : nat -> Z) :
  (forall db, queue_entries db = [] ->
              periodic_matchmaking_task clk db = (mkSweep db [] [] 0%nat, None)) /\
  (forall st e,
     mem (QueueEntry.user_id e) (processed_users st) = false ->
     NoDup (map User.id (users (sweep_db st))) ->
     stale_in (sweep_db st) (QueueEntry.user_id e) ->
     sweep_step clk st e
     = Ok (mkSweep (remove_from_queue (sweep_db st) (QueueEntry.user_id e))
             (processed_users st) (sweep_sent st) (sweep_clock st))) /\
  (forall db,
     NoDup (map User.id (users db)) ->
     exists st,
       periodic_matchmaking_task clk db = (st, None) /\
       forall e, In e (queue_entries db) -> stale_in db (QueueEntry.user_id e) ->
         (forall q, In q (queue_entries (sweep_db st)) ->
                    QueueEntry.user_id q <> QueueEntry.user_id e) /\
         (forall c, In c (chats (sweep_db st)) ->
                    In c (chats db) \/
                    (Chat.user1_id c <> QueueEntry.user_id e /\
                     Chat.user2_id c <> QueueEntry.user_id e))).
Proof.
  split; [|split].
  - intros db Hq. unfold periodic_matchmaking_task. now rewrite Hq.
  - intros st e. apply sweep_step_stale.
  - intros db Hpk. unfold periodic_matchmaking_task.
    destruct (@sweep_loop_completes db Hpk clk (queue_entries db) _ _ (sweep_inv_init db))
      as (st & Hloop & Hinv).
    exists st. split; [assumption|]. intros e He Hstale. split.
    + apply (inv_removed Hinv e); [|assumption].
      apply in_or_app. left. now apply -> in_rev.
    + intros c Hc. destruct (inv_chats Hinv c Hc) as [Hold|[H1 H2]]; [now left|].
      right. split; intro E; [apply H1|apply H2]; now rewrite E.
Qed.

(** ** Viewing a transcript *)

Lemma split_view_chat (x : string) :
  contains "_" x = false -> split "_" ("view_chat_" ++ x) = ["view"; "chat"; x]%string.
Proof.
  intro H.
  change ("view_chat_" ++ x)%string
    with ("view" ++ String "_" ("chat" ++ String "_" x))%string.
  rewrite !split_field by reflexivity. now rewrite (split_last_field _ _ H).
Qed.

Lemma handle_callback_view_chat (clk : nat -> Z) (db : DB) (tg : Z) (viewer : User.t)
  (cid : Z) :
  select_user_by_telegram_id db tg = Ok (Some viewer) ->
  User.is_banned viewer = false ->
  handle_callback clk db tg ("view_chat_" ++ py_str cid)
  = (out <- view_chat_history db viewer cid ;; Ok (db, out)).
Proof.
  intros Hu Hb. unfold handle_callback. rewrite Hu. cbn [bind]. rewrite Hb.
  replace (String.eqb ("view_chat_" ++ py_str cid) "find_match") with false by reflexivity.
  replace (startswith ("view_chat_" ++ py_str cid) "menu_role_") with false by reflexivity.
  replace (startswith ("view_chat_" ++ py_str cid) "menu_problem_") with false
    by reflexivity.
  replace (String.eqb ("view_chat_" ++ py_str cid) "chat_history") with false by reflexivity.
  replace (String.eqb ("view_chat_" ++ py_str cid) "end_chat") with false by reflexivity.
  replace (startswith ("view_chat_" ++ py_str cid) "view_chat_") with true
    by (now destruct (py_str cid)).
  rewrite (split_view_chat _ (py_str_no_underscore cid)).
  cbn [index nth_error bind]. now rewrite py_int_py_str.
Qed.

(** C9: for a registered user who is not banned and any id of a chat that
    exists and has a message, the button payload [view_chat_<id>] is
    answered with the transcript of that chat: all of its messages, in
    the order of their send times, each line carrying the text of its
    message and, when the author is not the viewer, the interlocutor
    prefix.  Nothing ties the viewer to the chat. *)
Theorem any_user_views_any_transcript
  (clk : nat -> Z) (db : DB) (tg : Z) (viewer : User.t) (cid : Z) (chat : Chat.t) :
  select_user_by_telegram_id db tg = Ok (Some viewer) ->
  User.is_banned viewer = false ->
  select_chat_by_id db cid = Ok (Some chat) ->
  (exists m, In m (messages db) /\ Message.chat_id m = cid) ->
  handle_callback clk db tg ("view_chat_" ++ py_str cid)
    = Ok (db, [edit_message_text
                 (Transcript (map (render_line viewer) (chat_messages db cid)))]) /\
  Permutation (filter (fun m => Message.chat_id m =? cid) (messages db))
    (chat_messages db cid) /\
  StronglySorted (key_le Message.sent_at) (chat_messages db cid) /\
  forall m, In m (chat_messages db cid) ->
    line_text (render_line viewer m) = Message.text m /\
    (Message.user_id m <> User.id viewer ->
     line_prefix (render_line viewer m) = Interlocutor).
Proof.
  intros Hu Hb Hchat (m0 & Hin0 & Hcid0). split; [|split; [|split]].
  - rewrite (handle_callback_view_chat clk db tg cid Hu Hb).
    unfold view_chat_history. rewrite Hchat. simpl bind.
    destruct (chat_messages db cid) as [|m ms] eqn:E; [|reflexivity].
    exfalso. assert (In m0 (chat_messages db cid)) as H.
    { unfold chat_messages. apply order_by_in. apply filter_In. split; [assumption|].
      now apply Z.eqb_eq. }
    rewrite E in H. destruct H.
  - apply order_by_perm.
  - apply order_by_sorted.
  - intros m _. split; [reflexivity|]. intro Hne. unfold render_line. simpl.
    now destruct (Z.eqb_spec (Message.user_id m) (User.id viewer)).
Qed.

(** ** Asking for a partner from the menu *)

Lemma split_menu_problem (role topic : string) :
  contains "_" role = false ->
  split "_" ("menu_problem_" ++ role ++ "_" ++ topic)
  = ("menu" :: "problem" :: role :: split "_" topic)%string.
Proof.
  intro H.
  change ("menu_problem_" ++ role ++ "_" ++ topic)%string
    with ("menu" ++ String "_" ("problem" ++ String "_" (role ++ String "_" topic)))%string.
  now rewrite !split_field by (reflexivity || assumption).
Qed.

Lemma handle_callback_menu_problem (clk : nat -> Z) (db : DB) (tg : Z) (user : User.t)
  (role topic : string) :
  select_user_by_telegram_id db tg = Ok (Some user) ->
  User.is_banned user = false ->
  contains "_" role = false ->
  let user' := User.with_role_problem role topic user in
  handle_callback clk db tg ("menu_problem_" ++ role ++ "_" ++ topic)
  = (db2 <- add_to_queue (clk 0%nat)
              (update_user (User.id user) (User.with_role_problem role topic) db)
              user' role topic ;;
     match find_match db2 user' role topic with
     | Some matched =>
         let '(db3, chat) := create_chat (clk 1%nat) db2 user' matched role topic in
         Ok (remove_from_queue (remove_from_queue db3 (User.id user')) (User.id matched),
             [edit_message_text (Fixed NoticeSearching);
              send_message (User.telegram_id user')
                (PartnerFound (User.age matched) (User.age user'));
              send_message (User.telegram_id matched)
                (PartnerFound (User.age user') (User.age matched))])
     | None =>
         Ok (db2, [edit_message_text (Fixed NoticeSearching);
                   send_message (User.telegram_id user') (Fixed NoticeQueued)])
     end).
Proof.
  intros Hu Hb Hrole user'. unfold handle_callback. rewrite Hu. cbn [bind]. rewrite Hb.
  replace (String.eqb ("menu_problem_" ++ role ++ "_" ++ topic) "find_match")
    with false by reflexivity.
  replace (startswith ("menu_problem_" ++ role ++ "_" ++ topic) "menu_role_")
    with false by reflexivity.
  replace (startswith ("menu_problem_" ++ role ++ "_" ++ topic) "menu_problem_")
    with true by (now destruct role).
  unfold menu_problem. rewrite (split_menu_problem _ topic Hrole).
  cbn [index nth_error bind skipn]. rewrite (join_split "_" topic). reflexivity.
Qed.

Lemma users_after_create_chat (now : Z) (db : DB) (u1 u2 : User.t) (role topic : string) :
  users (fst (create_chat now db u1 u2 role topic))
  = map (fun u => if User.id u =? User.id u2
                  then User.with_current_chat_id (Some (fresh_id (map Chat.id (chats db)))) u
                  else u)
      (map (fun u => if User.id u =? User.id u1
                     then User.with_current_chat_id (Some (fresh_id (map Chat.id (chats db)))) u
                     else u)
         (users db)).
Proof. reflexivity. Qed.

Lemma filter_id_after_updates (f g h : User.t -> User.t) (a b c pid : Z)
  (l : list User.t) (p : User.t) :
  (forall u, User.id (f u) = User.id u) ->
  (forall u, User.id (g u) = User.id u) ->
  (forall u, User.id (h u) = User.id u) ->
  filter (fun u => User.id u =? pid) l = [p] ->
  pid <> a -> pid <> b -> pid <> c ->
  filter (fun u => User.id u =? pid)
    (map (fun u => if User.id u =? c then h u else u)
       (map (fun u => if User.id u =? b then g u else u)
          (map (fun u => if User.id u =? a then f u else u) l)))
  = [p].
Proof.
  intros Hf Hg Hh Hp Ha Hb Hc.
  assert (Hpid : User.id p = pid).
  { apply filter_singleton_elim in Hp. destruct Hp as [_ E]. now apply Z.eqb_eq. }
  rewrite !filter_map_commute.
  - rewrite Hp. simpl.
    destruct (Z.eqb_spec (User.id p) a); [congruence|].
    destruct (Z.eqb_spec (User.id p) b); [congruence|].
    destruct (Z.eqb_spec (User.id p) c); [congruence|]. reflexivity.
  - intro u. destruct (User.id u =? a); [now rewrite Hf|reflexivity].
  - intro u. destruct (User.id u =? b); [now rewrite Hg|reflexivity].
  - intro u. destruct (User.id u =? c); [now rewrite Hh|reflexivity].
Qed.

Lemma add_to_queue_other_rows (now : Z) (db db' : DB) (user : User.t)
  (role problem : string) (q : QueueEntry.t) :
  add_to_queue now db user role problem = Ok db' ->
  In q (queue_entries db') -> QueueEntry.user_id q <> User.id user ->
  exists q0, In q0 (queue_entries db) /\ QueueEntry.user_id q0 = QueueEntry.user_id q.
Proof.
  unfold add_to_queue.
  destruct (select_queue_entry db (User.id user)) as [[e|]|e]; cbn [bind];
    [| |discriminate]; intro H; injection H as <-; simpl; intros Hin Hne.
  - apply in_map_iff in Hin. destruct Hin as (q0 & <- & Hq0). exists q0.
    split; [assumption|]. now destruct (QueueEntry.id q0 =? QueueEntry.id e).
  - apply in_app_or in Hin. destruct Hin as [Hin|[<-|[]]]; [now exists q|].
    now contradiction Hne.
Qed.

(** C10, as the code has it: from the menu a registered user who is not
    banned is admitted to the queue and a match is searched whether or not
    the user has a current chat.  When a match is made, the new chat is
    appended with a new id, the user's reference is that id, every chat
    stored before is found unchanged, and every user other than the
    requester and the matched user is found unchanged.  The matched user
    is another registered user, not banned, whose reference was empty and
    who had a queue row; that user's reference becomes the new id. *)
Theorem menu_rematch_leaves_old_chat
  (clk : nat -> Z) (db : DB) (tg : Z) (user : User.t) (role topic : string) :
  select_user_by_telegram_id db tg = Ok (Some user) ->
  User.is_banned user = false ->
  contains "_" role = false ->
  NoDup (map QueueEntry.user_id (queue_entries db)) ->
  let user' := User.with_role_problem role topic user in
  exists db2 entry,
    add_to_queue (clk 0%nat)
      (update_user (User.id user) (User.with_role_problem role topic) db)
      user' role topic = Ok db2 /\
    filter (fun e => QueueEntry.user_id e =? User.id user) (queue_entries db2) = [entry] /\
    match find_match db2 user' role topic with
    | None =>
        handle_callback clk db tg ("menu_problem_" ++ role ++ "_" ++ topic)
        = Ok (db2, [edit_message_text (Fixed NoticeSearching);
                    send_message (User.telegram_id user) (Fixed NoticeQueued)])
    | Some matched =>
        let new_id := fresh_id (map Chat.id (chats db)) in
        exists db',
          handle_callback clk db tg ("menu_problem_" ++ role ++ "_" ++ topic)
          = Ok (db', [edit_message_text (Fixed NoticeSearching);
                      send_message (User.telegram_id user)
                        (PartnerFound (User.age matched) (User.age user));
                      send_message (User.telegram_id matched)
                        (PartnerFound (User.age user) (User.age matched))]) /\
          chats db' =
            chats db ++ [Chat.mk new_id (User.id user) (User.id matched) role
                           (opposite_role role) topic (clk 1%nat) true None] /\
          (forall u, In u (users db') -> User.id u = User.id user ->
                     User.current_chat_id u = Some new_id) /\
          (forall old c, select_chat_by_id db old = Ok (Some c) ->
                         select_chat_by_id db' old = Ok (Some c)) /\
          (forall pid p, select_user_by_id db pid = Ok (Some p) ->
                         pid <> User.id user -> pid <> User.id matched ->
                         select_user_by_id db' pid = Ok (Some p)) /\
          In matched (users db) /\
          User.id matched <> User.id user /\
          User.is_banned matched = false /\
          User.current_chat_id matched = None /\
          (exists q, In q (queue_entries db) /\
                     QueueEntry.user_id q = User.id matched) /\
          (forall u, In u (users db') -> User.id u = User.id matched ->
                     User.current_chat_id u = Some new_id)
    end.
Proof.
  intros Hu Hb Hrole Hq user'.
  set (db1 := update_user (User.id user) (User.with_role_problem role topic) db).
  destruct (@add_to_queue_upserts (clk 0%nat) db1 user' role topic Hq)
    as (db2 & entry & Hadd & Hentry & _ & _ & _ & _ & _ & Husers2 & Hchats2).
  exists db2, entry. split; [exact Hadd|]. split; [exact Hentry|].
  rewrite (@handle_callback_menu_problem clk db tg user role topic Hu Hb Hrole).
  fold user' db1. rewrite Hadd. cbn [bind].
  destruct (find_match db2 user' role topic) as [matched|] eqn:Hm; [|reflexivity].
  set (new_id := fresh_id (map Chat.id (chats db))).
  unfold create_chat. cbv beta iota zeta.
  eexists. split; [reflexivity|].
  assert (Hnew : fresh_id (map Chat.id (chats db2)) = new_id) by (now rewrite Hchats2).
  split; [|split; [|split; [|split]]].
  - cbn [chats remove_from_queue with_queue_entries update_user with_users with_chats].
    now rewrite Hnew, Hchats2.
  - intros u Hin Hid.
    cbn [users remove_from_queue with_queue_entries update_user with_users with_chats] in Hin.
    rewrite Hnew in Hin.
    apply in_map_iff in Hin. destruct Hin as (u1 & <- & Hin1).
    apply in_map_iff in Hin1. destruct Hin1 as (u2 & <- & _).
    cbn [Chat.id] in *.
    destruct (User.id u2 =? User.id user') eqn:E2.
    + now destruct (_ =? User.id matched).
    + destruct (_ =? User.id matched) eqn:E1; [reflexivity|].
      apply Z.eqb_neq in E2. exfalso. apply E2. exact Hid.
  - intros old c Hold. unfold select_chat_by_id.
    cbn [chats remove_from_queue with_queue_entries update_user with_users with_chats].
    rewrite Hnew, Hchats2. change (chats db1) with (chats db).
    rewrite filter_app. cbn [filter Chat.id].
    destruct (Z.eqb_spec new_id old) as [E|_].
    + exfalso. destruct (@select_chat_by_id_sound _ _ _ Hold) as [Hin Hid].
      pose proof (@fresh_id_above (map Chat.id (chats db)) _ (in_map Chat.id _ _ Hin)) as Hlt.
      fold new_id in Hlt. lia.
    + rewrite app_nil_r. exact Hold.
  - intros pid p Hp Hne1 Hne2. unfold select_user_by_id.
    cbn [users remove_from_queue with_queue_entries update_user with_users with_chats].
    rewrite Husers2. unfold db1.
    cbn [users update_user with_users].
    rewrite (@filter_id_after_updates _ _ _ (User.id user) (User.id user') (User.id matched)
               pid (users db) p); try reflexivity; try assumption.
    now apply scalar_one_or_none_some in Hp.
  - pose proof (find_match_eligible _ _ _ _ Hm) as (Hmin & Hmne & Hmb & Hmc).
    pose proof (find_match_some _ _ _ _ Hm) as [(q & rest & Hcand) _].
    assert (Hrow : In (q, matched) (match_candidates db2 user' role topic))
      by (rewrite Hcand; now left).
    apply match_candidates_in in Hrow. destruct Hrow as (Hrow & _ & Hqid & Hqne & _).
    change (User.id user') with (User.id user) in Hmne, Hqne.
    split.
    { rewrite Husers2 in Hmin. unfold db1 in Hmin.
      cbn [users update_user with_users] in Hmin.
      apply in_map_iff in Hmin. destruct Hmin as (u0 & E & Hin0).
      destruct (Z.eqb_spec (User.id u0) (User.id user)) as [Eid|_]; [|now subst u0].
      exfalso. apply Hmne. rewrite <- E. exact Eid. }
    split; [assumption|]. split; [assumption|]. split; [assumption|]. split.
    { destruct (@add_to_queue_other_rows _ _ _ _ _ _ q Hadd Hrow Hqne) as (q0 & Hq0 & E).
      exists q0. split; [exact Hq0|]. congruence. }
    intros u Hin Hid.
    cbn [users remove_from_queue with_queue_entries update_user with_users with_chats] in Hin.
    rewrite Hnew in Hin.
    apply in_map_iff in Hin. destruct Hin as (u1 & <- & Hin1).
    cbn [Chat.id] in *.
    destruct (Z.eqb_spec (User.id u1) (User.id matched)) as [E1|E1]; [reflexivity|].
    contradiction.
Qed.

(** C10 as stated fails where the former partner is the user matched now:
    Alice's current chat is chat 1 with Bob; Bob, whose own reference is
    empty, waits in the queue; Alice's request from the menu pairs her
    with Bob, and Bob's reference changes from none to the new chat. *)
Lemma rematch_changes_former_partner :
  exists db' sent before after,
    handle_callback Samples.clk Samples.drifted 101 "menu_problem_receive_study"
      = Ok (db', sent) /\
    select_user_by_telegram_id Samples.drifted 101 = Ok (Some (Samples.alice (Some 1))) /\
    select_chat_by_id Samples.drifted 1 = Ok (Some (Samples.chat_alice_bob 1 true)) /\
    partner_id_of (Samples.chat_alice_bob 1 true) (Samples.alice (Some 1)) = 2 /\
    select_user_by_id Samples.drifted 2 = Ok (Some before) /\
    select_user_by_id db' 2 = Ok (Some after) /\
    List.length (chats db') = S (List.length (chats Samples.drifted)) /\
    User.current_chat_id before = None /\
    User.current_chat_id after = Some 3 /\
    User.current_chat_id after <> User.current_chat_id before.
Proof.
  eexists. eexists. eexists. eexists.
  split; [vm_compute; reflexivity|].
  repeat (split; [reflexivity|]). discriminate.
Qed.

(** ** The theorems at the sample stores *)

Lemma profanity_bans_for_good_witness :
  handle_message Samples.check_profanity 5 Samples.talking 101 "#@!"
    = Ok (update_user 1 (User.with_is_banned true) Samples.talking,
          [reply_text (Fixed NoticePermanentBan)]) /\
  forall (later : Z) (txt : string),
    handle_message Samples.check_profanity later
      (update_user 1 (User.with_is_banned true) Samples.talking) 101 txt
    = Ok (update_user 1 (User.with_is_banned true) Samples.talking,
          [reply_text (Fixed NoticeBanned)]).
Proof.
  destruct (@profanity_bans_for_good Samples.check_profanity Samples.talking 101
              (Samples.alice (Some 1)) eq_refl) as [H _].
  destruct (H eq_refl 5 "#@!"%string eq_refl) as (H1 & _ & _ & _ & H5).
  split; [exact H1|exact H5].
Defined.


Lemma find_match_considers_eligible_entries_witness :
  find_match MoreSamples.tied_queue (Samples.alice None) "receive" "study"
    = Some (Samples.carol None) /\
  exists before after,
    queue_entries MoreSamples.tied_queue
      = before ++ QueueEntry.mk 2 3 "support" "study" 15 40 :: after /\
    forall q' u',
      In (q', u')
        (match_candidates MoreSamples.tied_queue (Samples.alice None) "receive" "study") ->
      In q' before -> 40 < QueueEntry.joined_at q'.
Proof.
  destruct (find_match_considers_eligible_entries MoreSamples.tied_queue
              (Samples.alice None) "receive" "study") as (_ & _ & Hfirst & Hfind & _).
  split.
  - apply Hfind.
    exists (QueueEntry.mk 2 3 "support" "study" 15 40),
           [(QueueEntry.mk 3 2 "support" "study" 17 40, Samples.bob None);
            (QueueEntry.mk 1 5 "support" "study" 18 50, MoreSamples.erin)].
    split; [reflexivity|]. unfold in_band. simpl. lia.
  - exact (Hfirst (QueueEntry.mk 2 3 "support" "study" 15 40) (Samples.carol None)
             [(QueueEntry.mk 3 2 "support" "study" 17 40, Samples.bob None);
              (QueueEntry.mk 1 5 "support" "study" 18 50, MoreSamples.erin)] eq_refl).
Defined.

Lemma end_chat_closes_and_records_witness :
  exists (db' : DB) (hu hp : ChatHistory.t),
    handle_callback Samples.clk MoreSamples.seen_before 101 "end_chat"
      = Ok (db', [send_message 102 (Fixed NoticePartnerEndedChat);
                  edit_message_text (Fixed NoticeChatEnded)]) /\
    select_chat_by_id db' 1
      = Ok (Some (Chat.ended (Samples.clk 0%nat) (Samples.chat_alice_bob 1 true))) /\
    filter (history_for 1 1) (chat_history db') = [hu] /\
    ChatHistory.viewed_at hu = Samples.clk 1%nat /\
    ChatHistory.id hu = 1 /\
    filter (history_for 2 1) (chat_history db') = [hp] /\
    ChatHistory.viewed_at hp = Samples.clk 2%nat /\
    ChatHistory.id hp <> 1 /\
    List.length (chat_history db') = 2%nat.
Proof.
  assert (Hcid : 1 <> 0) by discriminate.
  assert (Hdist : 1 <> 2) by discriminate.
  assert (Hnd : NoDup (map ChatHistory.id (chat_history MoreSamples.seen_before)))
    by (repeat constructor; simpl; tauto).
  assert (Hh1 : (List.length (filter (history_for 1 1)
                                (chat_history MoreSamples.seen_before)) <= 1)%nat)
    by (simpl; lia).
  assert (Hh2 : (List.length (filter (history_for 2 1)
                                (chat_history MoreSamples.seen_before)) <= 1)%nat)
    by (simpl; lia).
  destruct (@end_chat_closes_and_records Samples.clk MoreSamples.seen_before 101
              (Samples.alice (Some 1)) (Samples.bob (Some 1)) 1
              (Samples.chat_alice_bob 1 true)
              eq_refl eq_refl Hcid eq_refl (or_introl eq_refl) Hdist eq_refl
              Hnd Hh1 Hh2)
    as [_ H].
  destruct (H eq_refl)
    as (db' & hu & hp & H1 & H2 & _ & _ & _ & _ & H7 & H8 & H9 & H10 & H11 & _ & H13
        & H14 & _).
  exists db', hu, hp. repeat (split; [assumption|]).
  split; [|split; [assumption|split; [assumption|split]]].
  - apply (proj1 (H11 (ChatHistory.mk 1 1 1 55) (or_introl eq_refl))). reflexivity.
  - intro E. apply (H13 eq_refl). rewrite E. simpl. now left.
  - simpl in H14. lia.
Defined.

Lemma add_to_queue_twice_keeps_one_entry_witness :
  exists db1 db2 q,
    add_to_queue 80 Samples.stale_queue (Samples.carol None) "receive" "friends" = Ok db1 /\
    add_to_queue 90 db1 (Samples.carol None) "support" "study" = Ok db2 /\
    filter (fun e => QueueEntry.user_id e =? 3) (queue_entries db2) = [q] /\
    QueueEntry.role q = "support"%string /\
    QueueEntry.joined_at q = 90.
Proof.
  destruct (@add_to_queue_twice_keeps_one_entry Samples.stale_queue
              (Samples.carol None) (Samples.carol None)
              "receive" "friends" "support" "study" 80 90)
    as (db1 & db2 & q & H1 & H2 & H3 & H4 & _ & _ & H7 & _).
  - repeat constructor; simpl; intuition discriminate.
  - reflexivity.
  - exists db1, db2, q. repeat split; assumption.
Defined.

Lemma sweep_drops_stale_entries_witness :
  exists st,
    periodic_matchmaking_task Samples.clk Samples.stale_queue = (st, None) /\
    forall q, In q (queue_entries (sweep_db st)) -> QueueEntry.user_id q <> 1.
Proof.
  destruct (sweep_drops_stale_entries Samples.clk) as (_ & _ & H).
  destruct (H Samples.stale_queue) as (st & Hrun & Hstale).
  - repeat constructor; simpl; intuition discriminate.
  - exists st. split; [exact Hrun|].
    apply (Hstale (QueueEntry.mk 1 1 "receive" "study" 16 40)).
    + now left.
    + right. exists (Samples.alice (Some 1)). repeat split. now left.
Defined.

Lemma any_user_views_any_transcript_witness :
  handle_callback Samples.clk Samples.talking 103 ("view_chat_" ++ py_str 1)
  = Ok (Samples.talking,
        [edit_message_text
           (Transcript (map (render_line (Samples.carol None))
                          (chat_messages Samples.talking 1)))]).
Proof.
  apply (@any_user_views_any_transcript Samples.clk Samples.talking 103
           (Samples.carol None) 1 (Samples.chat_alice_bob 1 true));
    try reflexivity.
  exists (Message.mk 1 1 1 "hello" 60). split; [now left|reflexivity].
Defined.

Lemma menu_rematch_leaves_old_chat_witness :
  exists db2 entry,
    add_to_queue (Samples.clk 0%nat)
      (update_user 1 (User.with_role_problem "receive" "study") Samples.drifted)
      (User.with_role_problem "receive" "study" (Samples.alice (Some 1)))
      "receive" "study" = Ok db2 /\
    filter (fun e => QueueEntry.user_id e =? 1) (queue_entries db2) = [entry] /\
    exists db',
      handle_callback Samples.clk Samples.drifted 101 "menu_problem_receive_study"
      = Ok (db', [edit_message_text (Fixed NoticeSearching);
                  send_message 101 (PartnerFound 17 16);
                  send_message 102 (PartnerFound 16 17)]) /\
      In (Samples.bob None) (users Samples.drifted) /\
      forall u, In u (users db') -> User.id u = 2 -> User.current_chat_id u = Some 3.
Proof.
  destruct (@menu_rematch_leaves_old_chat Samples.clk Samples.drifted 101
              (Samples.alice (Some 1)) "receive" "study")
    as (db2 & entry & H1 & H2 & H3); try reflexivity.
  - repeat constructor; simpl; intuition discriminate.
  - exists db2, entry. split; [exact H1|]. split; [exact H2|].
    vm_compute in H1. injection H1 as <-.
    destruct H3 as (db' & H4 & _ & _ & _ & _ & H9 & _ & _ & _ & _ & H14).
    exists db'. split; [exact H4|]. split; [exact H9|exact H14].
Defined.

(** * Further properties of the handlers *)

(** ** The age band and the search *)

Lemma registered_age_cases (a : Z) :
  MIN_AGE <= a <= MAX_AGE -> a = 14 \/ a = 15 \/ a = 16 \/ a = 17 \/ a = 18.
Proof. unfold MIN_AGE, MAX_AGE. lia. Qed.

Lemma age_band_facts (a b : Z) :
  MIN_AGE <= a <= MAX_AGE ->
  (in_band (get_age_range a) b <-> MIN_AGE <= b <= MAX_AGE /\ a - 2 <= b <= a + 2) /\
  (MIN_AGE <= b <= MAX_AGE ->
   (in_band (get_age_range a) b <-> in_band (get_age_range b) a)).
Proof.
  intro Ha. split.
  - destruct (registered_age_cases Ha) as [->|[->|[->|[->| ->]]]];
      unfold in_band, MIN_AGE, MAX_AGE; simpl; lia.
  - intro Hb.
    destruct (registered_age_cases Ha) as [->|[->|[->|[->| ->]]]];
      destruct (registered_age_cases Hb) as [->|[->|[->|[->| ->]]]];
      unfold in_band; simpl; lia.
Qed.

(** For an age a user can register with, the band holds the registrable
    ages at most two years away; so two such ages accept each other or
    neither accepts the other. *)
Theorem age_band_within_two_years (a b : Z) :
  MIN_AGE <= a <= MAX_AGE ->
  (in_band (get_age_range a) b <-> MIN_AGE <= b <= MAX_AGE /\ a - 2 <= b <= a + 2) /\
  (MIN_AGE <= b <= MAX_AGE ->
   (in_band (get_age_range a) b <-> in_band (get_age_range b) a)).
Proof. apply age_band_facts. Qed.

Lemma age_band_within_two_years_witness :
  in_band (get_age_range 16) 18 /\ ~ in_band (get_age_range 14) 18.
Proof.
  assert (H16 : MIN_AGE <= 16 <= MAX_AGE) by (unfold MIN_AGE, MAX_AGE; lia).
  assert (H14 : MIN_AGE <= 14 <= MAX_AGE) by (unfold MIN_AGE, MAX_AGE; lia).
  split.
  - apply (proj1 (age_band_within_two_years 18 H16)). unfold MIN_AGE, MAX_AGE. lia.
  - intro H. apply (proj1 (age_band_within_two_years 18 H14)) in H. lia.
Defined.

Lemma match_candidates_eligible (db : DB) (user : User.t) (role problem : string)
  (q : QueueEntry.t) (u : User.t) :
  In (q, u) (match_candidates db user role problem) <-> eligible db user role problem q u.
Proof.
  unfold eligible.
  rewrite match_candidates_in, (opposite_role_cases role (QueueEntry.role q)). tauto.
Qed.

(** When every age in the store is one a user can register with, the
    second age check of [find_match] rejects nobody.  If no queue entry is
    eligible nothing is returned.  Otherwise the user of an eligible entry
    is returned whose join time is the least among the eligible entries
    and which, among those with that join time, comes first in the queue
    table. *)
Theorem find_match_takes_oldest_candidate
  (db : DB) (user : User.t) (role problem : string) :
  MIN_AGE <= User.age user <= MAX_AGE ->
  (forall u, In u (users db) -> MIN_AGE <= User.age u <= MAX_AGE) ->
  ((forall q u, ~ eligible db user role problem q u) ->
   find_match db user role problem = None) /\
  (forall q0 u0,
     eligible db user role problem q0 u0 ->
     exists q m before after,
       find_match db user role problem = Some m /\
       eligible db user role problem q m /\
       queue_entries db = before ++ q :: after /\
       forall q' u',
         eligible db user role problem q' u' ->
         QueueEntry.joined_at q <= QueueEntry.joined_at q' /\
         (In q' before -> QueueEntry.joined_at q < QueueEntry.joined_at q')).
Proof.
  intros Hage Hages. split.
  - intro Hnone.
    destruct (find_match db user role problem) as [m|] eqn:Hm; [|reflexivity].
    apply find_match_some in Hm. destruct Hm as [(q & rest & Hc) _].
    exfalso. apply (Hnone q m). apply match_candidates_eligible. rewrite Hc. now left.
  - intros q0 u0 H0. apply match_candidates_eligible in H0.
    destruct (match_candidates db user role problem) as [|[q m] rest] eqn:E;
      [destruct H0|].
    assert (Hin : In (q, m) (match_candidates db user role problem))
      by (rewrite E; now left).
    pose proof (proj1 (match_candidates_eligible _ _ _ _ _ _) Hin) as Helig.
    destruct (match_candidates_head_earliest _ _ _ _ E) as (before & after & Hq & Hfirst).
    exists q, m, before, after.
    split.
    { apply (find_match_head _ _ _ _ E).
      destruct Helig as (_ & Hm & _ & _ & _ & _ & Hband & _).
      exact (proj1 (proj2 (age_band_facts (User.age m) Hage) (Hages m Hm)) Hband). }
    split; [exact Helig|]. split; [exact Hq|].
    intros q' u' H'. apply match_candidates_eligible in H'. split.
    + pose proof (order_by_sorted
                    (fun row : QueueEntry.t * User.t => QueueEntry.joined_at (fst row))
                    (filter (match_where user (opposite_role role) problem
                               (fst (get_age_range (User.age user)))
                               (snd (get_age_range (User.age user))))
                       (queue_join_users db))) as Hs.
      rewrite <- match_candidates_unfold, E in Hs.
      inversion Hs as [|? ? _ Hall]; subst.
      rewrite E in H'. destruct H' as [H'|H'].
      * injection H' as <- _. lia.
      * rewrite Forall_forall in Hall. apply (Hall (q', u') H').
    + intro Hb. apply (Hfirst q' u'); assumption.
Qed.

Lemma no_match_for_support_role (db : DB) (user : User.t) (problem : string) :
  (forall e, In e (queue_entries db) -> QueueEntry.role e <> "receive_support"%string) ->
  find_match db user "support" problem = None.
Proof.
  intro Hroles.
  destruct (find_match db user "support" problem) as [m|] eqn:Hm; [|reflexivity].
  apply find_match_some in Hm. destruct Hm as [(q & rest & Hc) _].
  assert (Hin : In (q, m) (match_candidates db user "support" problem))
    by (rewrite Hc; now left).
  apply match_candidates_in in Hin. destruct Hin as (Hq & _ & _ & _ & Hrole & _).
  exfalso. now apply (Hroles q Hq).
Qed.

(** A user asking with the role [support] is matched with nobody as long
    as no queue entry has the role [receive_support]. *)
Theorem supporter_request_finds_nobody (db : DB) (user : User.t) (problem : string) :
  (forall e, In e (queue_entries db) -> QueueEntry.role e <> "receive_support"%string) ->
  find_match db user "support" problem = None.
Proof. apply no_match_for_support_role. Qed.

Lemma roles_plain_no_receive_support (db : DB) :
  roles_plain db ->
  forall e, In e (queue_entries db) -> QueueEntry.role e <> "receive_support"%string.
Proof.
  intros Hplain e He Hrole. specialize (Hplain e He). rewrite Hrole in Hplain.
  discriminate Hplain.
Qed.

(** ** The queue and chat creation *)

Lemma filter_idempotent (A : Type) (p : A -> bool) (l : list A) :
  filter p (filter p l) = filter p l.
Proof.
  induction l as [|a l IH]; simpl; [reflexivity|].
  destruct (p a) eqn:E; simpl; [now rewrite E, IH|assumption].
Qed.

Lemma filter_all (A : Type) (p : A -> bool) (l : list A) :
  (forall x, In x l -> p x = true) -> filter p l = l.
Proof.
  induction l as [|a l IH]; simpl; intro H; [reflexivity|].
  rewrite (H a (or_introl eq_refl)). f_equal. apply IH. intros x Hx. apply H. now right.
Qed.

(** [remove_from_queue] deletes the rows of that user and no other row,
    touches no other table, changes nothing when the user has no row,
    and a second call changes nothing more. *)
Theorem remove_from_queue_exact (db : DB) (uid : Z) :
  (forall q, In q (queue_entries (remove_from_queue db uid)) <->
             In q (queue_entries db) /\ QueueEntry.user_id q <> uid) /\
  remove_from_queue (remove_from_queue db uid) uid = remove_from_queue db uid /\
  ((forall q, In q (queue_entries db) -> QueueEntry.user_id q <> uid) ->
   queue_entries (remove_from_queue db uid) = queue_entries db) /\
  users (remove_from_queue db uid) = users db /\
  chats (remove_from_queue db uid) = chats db /\
  messages (remove_from_queue db uid) = messages db /\
  chat_history (remove_from_queue db uid) = chat_history db.
Proof.
  split; [intro q; apply remove_from_queue_in|].
  split; [|split; [|repeat split]].
  - unfold remove_from_queue, with_queue_entries. simpl. now rewrite filter_idempotent.
  - intro Hnone. unfold remove_from_queue. simpl. apply filter_all.
    intros q Hq. apply negb_true_iff, Z.eqb_neq. now apply Hnone.
Qed.

Lemma opposite_role_differs (role : string) : opposite_role role <> role.
Proof.
  unfold opposite_role. destruct (String.eqb_spec role "support") as [->|Hne].
  - discriminate.
  - congruence.
Qed.

Lemma create_chat_facts
  (now : Z) (db : DB) (user1 user2 : User.t) (role1 problem : string) :
  let db' := fst (create_chat now db user1 user2 role1 problem) in
  let chat := snd (create_chat now db user1 user2 role1 problem) in
  chats db' = chats db ++ [chat] /\
  (forall c, In c (chats db) -> Chat.id c < Chat.id chat) /\
  0 < Chat.id chat /\
  Chat.is_active chat = true /\ Chat.ended_at chat = None /\
  Chat.user1_id chat = User.id user1 /\ Chat.user2_id chat = User.id user2 /\
  Chat.role1 chat = role1 /\ Chat.role2 chat <> role1 /\
  (forall u, In u (users db') ->
             User.id u = User.id user1 \/ User.id u = User.id user2 ->
             User.current_chat_id u = Some (Chat.id chat)) /\
  (forall u, In u (users db) ->
             User.id u <> User.id user1 -> User.id u <> User.id user2 ->
             In u (users db')) /\
  map User.id (users db') = map User.id (users db) /\
  queue_entries db' = queue_entries db /\
  messages db' = messages db /\
  chat_history db' = chat_history db.
Proof.
  intros db' chat. subst db' chat. rewrite users_after_create_chat.
  unfold create_chat. cbn [fst snd chats queue_entries messages chat_history
                             update_user with_users with_chats Chat.id Chat.is_active
                             Chat.ended_at Chat.user1_id Chat.user2_id Chat.role1 Chat.role2].
  split; [reflexivity|]. split.
  { intros c Hc. apply fresh_id_above. now apply in_map. }
  split.
  { unfold fresh_id.
    assert (0 <= fold_right Z.max 0 (map Chat.id (chats db))); [|lia].
    induction (map Chat.id (chats db)) as [|x l IH]; cbn [fold_right]; lia. }
  repeat (split; [reflexivity|]).
  split; [apply opposite_role_differs|].
  split.
  { intros u Hin Hid. apply in_map_iff in Hin. destruct Hin as (u1 & <- & Hin1).
    apply in_map_iff in Hin1. destruct Hin1 as (u0 & <- & _).
    destruct (Z.eqb_spec (User.id u0) (User.id user1)) as [E1|E1];
      cbn [User.id User.with_current_chat_id User.current_chat_id] in *.
    - now destruct (_ =? User.id user2).
    - destruct (Z.eqb_spec (User.id u0) (User.id user2)) as [E2|E2];
        cbn [User.id User.with_current_chat_id User.current_chat_id] in *;
        [reflexivity|]. destruct Hid; contradiction. }
  split.
  { intros u Hin H1 H2. apply in_map_iff. exists u. split.
    - destruct (Z.eqb_spec (User.id u) (User.id user2)); [contradiction|reflexivity].
    - apply in_map_iff. exists u. split; [|assumption].
      destruct (Z.eqb_spec (User.id u) (User.id user1)); [contradiction|reflexivity]. }
  split; [|repeat split].
  rewrite !map_map. apply map_ext. intro u.
  destruct (User.id u =? User.id user1); cbn [User.id User.with_current_chat_id];
    now destruct (_ =? User.id user2).
Qed.

(** [create_chat] appends one active, not ended chat whose id is above
    every id in the table and whose two roles differ; afterwards every row
    of the two users refers to it, every other user row is as before, and
    the queue, the messages and the history are untouched. *)
Theorem create_chat_links_both_users
  (now : Z) (db : DB) (user1 user2 : User.t) (role1 problem : string) :
  let db' := fst (create_chat now db user1 user2 role1 problem) in
  let chat := snd (create_chat now db user1 user2 role1 problem) in
  chats db' = chats db ++ [chat] /\
  (forall c, In c (chats db) -> Chat.id c < Chat.id chat) /\
  0 < Chat.id chat /\
  Chat.is_active chat = true /\ Chat.ended_at chat = None /\
  Chat.user1_id chat = User.id user1 /\ Chat.user2_id chat = User.id user2 /\
  Chat.role1 chat = role1 /\ Chat.role2 chat <> role1 /\
  (forall u, In u (users db') ->
             User.id u = User.id user1 \/ User.id u = User.id user2 ->
             User.current_chat_id u = Some (Chat.id chat)) /\
  (forall u, In u (users db) ->
             User.id u <> User.id user1 -> User.id u <> User.id user2 ->
             In u (users db')) /\
  map User.id (users db') = map User.id (users db) /\
  queue_entries db' = queue_entries db /\
  messages db' = messages db /\
  chat_history db' = chat_history db.
Proof. apply create_chat_facts. Qed.

Lemma find_match_takes_oldest_candidate_witness :
  exists q m before after,
    find_match MoreSamples.tied_queue (Samples.alice None) "receive" "study" = Some m /\
    m = Samples.carol None /\
    queue_entries MoreSamples.tied_queue = before ++ q :: after /\
    forall q' u',
      eligible MoreSamples.tied_queue (Samples.alice None) "receive" "study" q' u' ->
      QueueEntry.joined_at q <= QueueEntry.joined_at q' /\
      (In q' before -> QueueEntry.joined_at q < QueueEntry.joined_at q').
Proof.
  assert (Hage : MIN_AGE <= User.age (Samples.alice None) <= MAX_AGE)
    by (unfold MIN_AGE, MAX_AGE; simpl; lia).
  assert (Hages : forall u, In u (users MoreSamples.tied_queue) ->
                            MIN_AGE <= User.age u <= MAX_AGE).
  { intros u [<-|[<-|[<-|[<-|[]]]]]; unfold MIN_AGE, MAX_AGE; simpl; lia. }
  assert (Hbob : eligible MoreSamples.tied_queue (Samples.alice None) "receive" "study"
                   (QueueEntry.mk 3 2 "support" "study" 17 40) (Samples.bob None)).
  { unfold eligible, in_band. simpl. repeat split; try tauto; try lia; try discriminate.
    right. split; [discriminate|reflexivity]. }
  destruct (proj2 (@find_match_takes_oldest_candidate MoreSamples.tied_queue
                     (Samples.alice None) "receive" "study" Hage Hages) _ _ Hbob)
    as (q & m & before & after & Hfind & _ & Hq & Hleast).
  exists q, m, before, after. split; [exact Hfind|]. split; [|split; assumption].
  assert (E : find_match MoreSamples.tied_queue (Samples.alice None) "receive" "study"
              = Some (Samples.carol None)) by reflexivity.
  rewrite E in Hfind. now injection Hfind as <-.
Defined.

Lemma supporter_request_finds_nobody_witness :
  find_match MoreSamples.receiver_waits (Samples.bob None) "support" "study" = None.
Proof.
  apply supporter_request_finds_nobody.
  intros e [<-|[]]. discriminate.
Defined.

(** ** Which payloads change the store *)

Lemma handle_callback_inversion (clk : nat -> Z) (db : DB) (tg : Z) (data : string)
  (db' : DB) (out : list action) :
  handle_callback clk db tg data = Ok (db', out) ->
  db' = db \/
  exists user,
    select_user_by_telegram_id db tg = Ok (Some user) /\
    User.is_banned user = false /\
    ((startswith data "menu_problem_" = true /\ menu_problem clk db user data = Ok (db', out)) \/
     (data = "end_chat"%string /\ end_chat clk db user = Ok (db', out))).
Proof.
  unfold handle_callback.
  destruct (select_user_by_telegram_id db tg) as [[user|]|e] eqn:Hu; cbn [bind];
    [|intro H; inversion H; now left|discriminate].
  destruct (User.is_banned user) eqn:Hb; [intro H; inversion H; now left|].
  destruct (String.eqb data "find_match"); [intro H; inversion H; now left|].
  destruct (startswith data "menu_role_").
  { destruct (index (split "_" data) 2); cbn [bind]; intro H; inversion H. now left. }
  destruct (startswith data "menu_problem_") eqn:Hmp.
  { intro H. right. exists user. split; [reflexivity|]. split; [assumption|]. left. now split. }
  destruct (String.eqb data "chat_history").
  { destruct (show_chat_history db user); cbn [bind]; intro H; inversion H. now left. }
  destruct (String.eqb_spec data "end_chat") as [->|_].
  { intro H. right. exists user. split; [reflexivity|]. split; [assumption|]. right. now split. }
  destruct (startswith data "view_chat_").
  { destruct (index (split "_" data) 2); cbn [bind]; [|discriminate].
    destruct (py_int a); cbn [bind]; [|discriminate].
    destruct (view_chat_history db user a0); cbn [bind]; intro H; inversion H. now left. }
  destruct (String.eqb data "back_to_menu"); intro H; inversion H; now left.
Qed.

(** A banned or unknown account gets "access denied" for every payload
    and changes nothing; and whoever presses, the store changes only on a
    [menu_problem_...] payload or on [end_chat], pressed by a registered
    user who is not banned. *)
Theorem handle_callback_changes_store_only_on_request
  (clk : nat -> Z) (db : DB) (tg : Z) (data : string) :
  ((select_user_by_telegram_id db tg = Ok None \/
    exists user, select_user_by_telegram_id db tg = Ok (Some user) /\
                 User.is_banned user = true) ->
   handle_callback clk db tg data = Ok (db, [edit_message_text (Fixed NoticeAccessDenied)])) /\
  (forall db' out,
     handle_callback clk db tg data = Ok (db', out) ->
     db' <> db ->
     exists user,
       select_user_by_telegram_id db tg = Ok (Some user) /\
       User.is_banned user = false /\
       (startswith data "menu_problem_" = true \/ data = "end_chat"%string)).
Proof.
  split.
  - intros [Hn|(user & Hu & Hb)]; unfold handle_callback.
    + now rewrite Hn.
    + rewrite Hu. cbn [bind]. now rewrite Hb.
  - intros db' out H Hne.
    destruct (handle_callback_inversion _ _ _ _ H) as [->|(user & Hu & Hb & Hcase)];
      [contradiction|].
    exists user. repeat split; try assumption.
    destruct Hcase as [[Hp _]|[He _]]; [now left|now right].
Qed.

Lemma menu_problem_requested (clk : nat -> Z) (db : DB) (user : User.t) (data : string)
  (db' : DB) (out : list action) :
  menu_problem clk db user data = Ok (db', out) ->
  exists role,
    index (split "_" data) 2 = Ok role /\
    requested clk db user role (join "_" (skipn 3 (split "_" data))) db'.
Proof.
  unfold menu_problem, requested.
  destruct (index (split "_" data) 2) as [role|e]; cbn [bind]; [|discriminate].
  destruct (add_to_queue _ _ _ _ _) as [db2|e] eqn:Hadd; cbn [bind]; [|discriminate].
  destruct (find_match db2 _ role _) as [matched|] eqn:Hm.
  - destruct (create_chat _ db2 _ matched role _) as [db3 chat] eqn:Hc.
    intro H. inversion H; subst. exists role. split; [reflexivity|].
    exists db2. split; [exact Hadd|]. right. exists matched.
    split; [exact Hm|]. now rewrite Hc.
  - intro H. injection H as Hdb Hout. subst db'. exists role. split; [reflexivity|].
    exists db2. split; [exact Hadd|]. now left.
Qed.

Lemma handle_problem_selection_requested (clk : nat -> Z) (db : DB) (tg : Z)
  (data : string) (ud : user_data) (db' : DB) (st : conversation_state)
  (ud' : user_data) (out : list onboarding_action) :
  handle_problem_selection clk db tg data ud = Done (db', st, ud', out) ->
  db' = db \/
  exists user role,
    select_user_by_telegram_id db tg = Ok (Some user) /\
    ud_role ud = Some role /\
    requested clk db user role (join "_" (skipn 1 (split "_" data))) db'.
Proof.
  unfold handle_problem_selection, requested.
  destruct (select_user_by_telegram_id db tg) as [[user|]|e] eqn:Hu;
    [|intro H; inversion H; now left|discriminate].
  cbn [ud_role]. destruct (ud_role ud) as [role|] eqn:Hr; [|discriminate].
  destruct (add_to_queue _ _ _ _ _) as [db2|e] eqn:Hadd; [|discriminate].
  destruct (find_match db2 _ role _) as [matched|] eqn:Hm.
  - destruct (create_chat _ db2 _ matched role _) as [db3 chat] eqn:Hc.
    intro H. inversion H; subst. right. exists user, role.
    split; [reflexivity|]. split; [reflexivity|].
    exists db2. split; [exact Hadd|]. right. exists matched.
    split; [exact Hm|]. now rewrite Hc.
  - intro H. injection H as Hdb Hst Hud Hout. subst db'. right. exists user, role.
    split; [reflexivity|]. split; [reflexivity|].
    exists db2. split; [exact Hadd|]. now left.
Qed.

Lemma record_history_frame (now : Z) (db db' : DB) (uid cid : Z) :
  record_history now db uid cid = Ok db' ->
  users db' = users db /\ chats db' = chats db /\ messages db' = messages db /\
  queue_entries db' = queue_entries db.
Proof.
  rewrite record_history_unfold.
  destruct (select_history_entry db uid cid) as [[e|]|e]; intro H; inversion H;
    repeat split.
Qed.

Lemma end_chat_inversion (clk : nat -> Z) (db : DB) (user : User.t) (db' : DB)
  (out : list action) :
  end_chat clk db user = Ok (db', out) ->
  db' = db \/
  exists cid chat partner db4,
    User.current_chat_id user = Some cid /\ cid <> 0 /\
    select_chat_by_id db cid = Ok (Some chat) /\
    select_user_by_id db (partner_id_of chat user) = Ok partner /\
    record_history (clk 1%nat)
      (update_user (User.id user) (User.with_current_chat_id None)
         (match partner with
          | Some p => update_user (User.id p) (User.with_current_chat_id None)
                        (update_chat (Chat.id chat) (Chat.ended (clk 0%nat)) db)
          | None => update_chat (Chat.id chat) (Chat.ended (clk 0%nat)) db
          end))
      (User.id user) (Chat.id chat) = Ok db4 /\
    match partner with
    | Some p => record_history (clk 2%nat) db4 (User.id p) (Chat.id chat) = Ok db'
    | None => db' = db4
    end.
Proof.
  unfold end_chat.
  destruct (User.current_chat_id user) as [cid|] eqn:Hc;
    [|intro H; inversion H; now left].
  destruct (Z.eqb_spec cid 0) as [|Hcid]; cbn [negb];
    [intro H; inversion H; now left|].
  destruct (select_chat_by_id db cid) as [[chat|]|e] eqn:Hchat; cbn [bind];
    [|intro H; inversion H; now left|discriminate].
  replace (select_user_by_id (update_chat (Chat.id chat) (Chat.ended (clk 0%nat)) db)
             (partner_id_of chat user))
    with (select_user_by_id db (partner_id_of chat user)) by reflexivity.
  destruct (select_user_by_id db (partner_id_of chat user)) as [partner|e] eqn:Hp;
    cbn [bind]; [|discriminate].
  destruct (record_history (clk 1%nat) _ (User.id user) (Chat.id chat)) as [db4|e] eqn:H4;
    cbn [bind]; [|discriminate].
  destruct partner as [p|].
  - destruct (record_history (clk 2%nat) db4 (User.id p) (Chat.id chat)) as [db5|e] eqn:H5;
      cbn [bind]; [|discriminate].
    intro H. inversion H; subst. right. exists cid, chat, (Some p), db4.
    repeat split; assumption.
  - cbn [bind]. intro H. inversion H; subst. right. exists cid, chat, None, db'.
    repeat split; assumption.
Qed.

(** ** Roles in the queue *)

Lemma split_fields_plain (sep : ascii) (s : string) :
  Forall (fun field => contains sep field = false) (split sep s).
Proof.
  induction s as [|c s IH]; simpl.
  - now repeat constructor.
  - destruct (Ascii.eqb c sep) eqn:E.
    + constructor; [reflexivity|assumption].
    + destruct (split sep s) as [|h t]; inversion IH; subst; constructor;
        simpl; try rewrite E; auto.
Qed.

Lemma index_split_plain (sep : ascii) (s : string) (k : nat) (field : string) :
  index (split sep s) k = Ok field -> contains sep field = false.
Proof.
  unfold index. destruct (nth_error (split sep s) k) as [f|] eqn:E; [|discriminate].
  intro H. inversion H; subst.
  apply nth_error_In in E.
  pose proof (split_fields_plain sep s) as Hall. rewrite Forall_forall in Hall.
  now apply Hall.
Qed.

Lemma add_to_queue_roles_plain (now : Z) (db db' : DB) (user : User.t)
  (role problem : string) :
  roles_plain db -> contains "_" role = false ->
  add_to_queue now db user role problem = Ok db' -> roles_plain db'.
Proof.
  intros Hplain Hrole. unfold add_to_queue.
  destruct (select_queue_entry db (User.id user)) as [[e|]|e]; cbn [bind];
    [| |discriminate]; intro H; inversion H; subst; intros e' Hin; simpl in Hin.
  - apply in_map_iff in Hin. destruct Hin as (x & <- & Hx).
    destruct (QueueEntry.id x =? QueueEntry.id e); [assumption|now apply Hplain].
  - apply in_app_or in Hin. destruct Hin as [Hin|[<-|[]]]; [now apply Hplain|assumption].
Qed.

Lemma requested_roles_plain (clk : nat -> Z) (db db' : DB) (user : User.t)
  (role problem : string) :
  roles_plain db -> contains "_" role = false ->
  requested clk db user role problem db' -> roles_plain db'.
Proof.
  intros Hplain Hrole (db2 & Hadd & Hcase).
  assert (Hplain2 : roles_plain db2).
  { eapply add_to_queue_roles_plain; [|exact Hrole|exact Hadd]. exact Hplain. }
  destruct Hcase as [[_ ->]|(matched & _ & ->)]; [assumption|].
  intros e He. apply remove_from_queue_in in He. destruct He as [He _].
  apply remove_from_queue_in in He. destruct He as [He _].
  now apply Hplain2.
Qed.

Lemma end_chat_queue (clk : nat -> Z) (db db' : DB) (user : User.t) (out : list action) :
  end_chat clk db user = Ok (db', out) -> queue_entries db' = queue_entries db.
Proof.
  intro H. apply end_chat_inversion in H.
  destruct H as [->|(cid & chat & partner & db4 & _ & _ & _ & _ & H4 & H5)];
    [reflexivity|].
  apply record_history_frame in H4. destruct H4 as (_ & _ & _ & Hq4).
  destruct partner as [p|].
  - apply record_history_frame in H5. destruct H5 as (_ & _ & _ & Hq5).
    now rewrite Hq5, Hq4.
  - subst db'. now rewrite Hq4.
Qed.

(** Whatever the payload, a role written to the queue by [handle_callback]
    is one field of the payload split at underscores, so it has no
    underscore in it: if no queued role had one before, none has one
    after. *)
Theorem handle_callback_keeps_roles_plain
  (clk : nat -> Z) (db : DB) (tg : Z) (data : string) (db' : DB) (out : list action) :
  roles_plain db ->
  handle_callback clk db tg data = Ok (db', out) ->
  roles_plain db'.
Proof.
  intros Hplain H.
  destruct (handle_callback_inversion _ _ _ _ H)
    as [->|(user & _ & _ & [[_ Hmenu]|[_ Hend]])]; [assumption| |].
  - apply menu_problem_requested in Hmenu. destruct Hmenu as (role & Hrole & Hreq).
    eapply requested_roles_plain; [exact Hplain| |exact Hreq].
    now apply index_split_plain in Hrole.
  - intros e He. rewrite (end_chat_queue _ _ _ Hend) in He. now apply Hplain.
Qed.

(** From the menu, choosing to give support always ends in the queue:
    when no queued role has an underscore, the payload
    [menu_problem_support_<topic>] creates no chat and the user is told to
    wait. *)
Theorem menu_support_request_always_queues
  (clk : nat -> Z) (db : DB) (tg : Z) (user : User.t) (topic : string) :
  roles_plain db ->
  select_user_by_telegram_id db tg = Ok (Some user) ->
  User.is_banned user = false ->
  NoDup (map QueueEntry.user_id (queue_entries db)) ->
  exists db' entry,
    handle_callback clk db tg ("menu_problem_support_" ++ topic)
      = Ok (db', [edit_message_text (Fixed NoticeSearching);
                  send_message (User.telegram_id user) (Fixed NoticeQueued)]) /\
    chats db' = chats db /\
    filter (fun e => QueueEntry.user_id e =? User.id user) (queue_entries db') = [entry] /\
    QueueEntry.role entry = "support"%string /\
    QueueEntry.problem_type entry = topic.
Proof.
  intros Hplain Hu Hb Hq.
  pose proof (@handle_callback_menu_problem clk db tg user "support" topic Hu Hb eq_refl)
    as Hcb. cbv zeta in Hcb.
  change ("menu_problem_" ++ "support" ++ "_" ++ topic)%string
    with ("menu_problem_support_" ++ topic)%string in Hcb.
  rewrite Hcb. clear Hcb.
  set (db1 := update_user (User.id user) (User.with_role_problem "support" topic) db).
  set (user' := User.with_role_problem "support" topic user).
  destruct (@add_to_queue_upserts (clk 0%nat) db1 user' "support" topic Hq)
    as (db2 & entry & Hadd & Hentry & Hrole & Htopic & _ & _ & _ & _ & Hchats).
  rewrite Hadd. cbn [bind].
  assert (Hplain2 : roles_plain db2).
  { exact (@add_to_queue_roles_plain (clk 0%nat) db1 db2 user' "support" topic
             Hplain eq_refl Hadd). }
  rewrite (no_match_for_support_role db2 user' topic
             (roles_plain_no_receive_support Hplain2)).
  exists db2, entry. repeat split; assumption.
Qed.

Lemma menu_support_request_always_queues_witness :
  exists db',
    handle_callback Samples.clk MoreSamples.receiver_waits 102 "menu_problem_support_study"
      = Ok (db', [edit_message_text (Fixed NoticeSearching);
                  send_message 102 (Fixed NoticeQueued)]) /\
    chats db' = [].
Proof.
  destruct (@menu_support_request_always_queues Samples.clk MoreSamples.receiver_waits 102
              (Samples.bob None) "study")
    as (db' & entry & H & Hchats & _); try reflexivity.
  - intros e [<-|[]]. reflexivity.
  - repeat constructor; simpl; intuition discriminate.
  - exists db'. split; assumption.
Defined.

Lemma handle_callback_keeps_roles_plain_witness :
  exists db' out,
    handle_callback Samples.clk Samples.drifted 101 "menu_problem_receive_study"
      = Ok (db', out) /\
    roles_plain db'.
Proof.
  destruct (handle_callback Samples.clk Samples.drifted 101 "menu_problem_receive_study")
    as [[db' out]|e] eqn:E; [|vm_compute in E; discriminate E].
  exists db', out. split; [reflexivity|].
  apply (@handle_callback_keeps_roles_plain Samples.clk Samples.drifted 101
           "menu_problem_receive_study" db' out); [|exact E].
  intros e [<-|[]]. reflexivity.
Defined.

(** ** What a text message can do *)

Section MessageFacts.

Variable check_profanity : string -> bool.

Lemma handle_message_effect
  (now : Z) (db : DB) (tg : Z) (txt : string) (db' : DB) (out : list action) :
  handle_message check_profanity now db tg txt = Ok (db', out) ->
  chats db' = chats db /\
  queue_entries db' = queue_entries db /\
  chat_history db' = chat_history db /\
  ((exists n, out = [reply_text (Fixed n)] /\ messages db' = messages db) \/
   (exists m partner_tg,
      out = [send_message partner_tg (Verbatim txt)] /\
      messages db' = messages db ++ [m] /\
      Message.text m = txt /\
      users db' = users db)).
Proof.
  unfold handle_message.
  destruct (select_user_by_telegram_id db tg) as [[user|]|e]; cbn [bind];
    [| |discriminate].
  2:{ intro H. inversion H; subst. repeat split. left. now eexists. }
  destruct (User.is_banned user).
  { intro H. inversion H; subst. repeat split. left. now eexists. }
  destruct (check_profanity txt).
  { intro H. inversion H; subst. repeat split. left. now eexists. }
  destruct (User.current_chat_id user) as [cid|].
  2:{ intro H. inversion H; subst. repeat split. left. now eexists. }
  destruct (negb (cid =? 0)).
  2:{ intro H. inversion H; subst. repeat split. left. now eexists. }
  destruct (select_chat_by_id db cid) as [[chat|]|e]; cbn [bind]; [| |discriminate].
  2:{ intro H. inversion H; subst. repeat split. left. now eexists. }
  destruct (Chat.is_active chat).
  2:{ intro H. inversion H; subst. repeat split. left. now eexists. }
  destruct (select_user_by_id db (partner_id_of chat user)) as [[partner|]|e];
    cbn [bind]; [| |discriminate].
  2:{ intro H. inversion H; subst. repeat split. left. now eexists. }
  intro H. inversion H; subst. repeat split. right.
  eexists. eexists. repeat split.
Qed.

(** Every text message is answered by exactly one platform call.  Either
    it is a notice to the sender and no message row is stored, or it is
    the text itself sent to one account, with one message row appended
    that carries the text and with the users unchanged.  Chats, queue and
    history are never touched. *)
Theorem handle_message_answers_once
  (now : Z) (db : DB) (tg : Z) (txt : string) (db' : DB) (out : list action) :
  handle_message check_profanity now db tg txt = Ok (db', out) ->
  chats db' = chats db /\
  queue_entries db' = queue_entries db /\
  chat_history db' = chat_history db /\
  ((exists n, out = [reply_text (Fixed n)] /\ messages db' = messages db) \/
   (exists m partner_tg,
      out = [send_message partner_tg (Verbatim txt)] /\
      messages db' = messages db ++ [m] /\
      Message.text m = txt /\
      users db' = users db)).
Proof. apply handle_message_effect. Qed.

End MessageFacts.

Lemma handle_message_answers_once_witness :
  exists db' out,
    handle_message Samples.check_profanity 70 Samples.talking 103 "anyone there" = Ok (db', out) /\
    chats db' = chats Samples.talking /\
    queue_entries db' = queue_entries Samples.talking.
Proof.
  destruct (handle_message Samples.check_profanity 70 Samples.talking 103 "anyone there")
    as [[db' out]|e] eqn:E; [|vm_compute in E; discriminate E].
  exists db', out. split; [reflexivity|].
  destruct (@handle_message_answers_once Samples.check_profanity 70 Samples.talking 103
              "anyone there" db' out E) as (H1 & H2 & _).
  now split.
Defined.

(** ** Rows are never deleted *)

Lemma forall2_refl (A : Type) (R : A -> A -> Prop) (l : list A) :
  (forall x, R x x) -> Forall2 R l l.
Proof. intro H. induction l; constructor; auto. Qed.

Lemma forall2_map_r (A : Type) (R : A -> A -> Prop) (f : A -> A) (l : list A) :
  (forall x, R x (f x)) -> Forall2 R l (map f l).
Proof. intro H. induction l; simpl; constructor; auto. Qed.

Lemma forall2_trans (A : Type) (R : A -> A -> Prop) (l1 l2 l3 : list A) :
  (forall x y z, R x y -> R y z -> R x z) ->
  Forall2 R l1 l2 -> Forall2 R l2 l3 -> Forall2 R l1 l3.
Proof.
  intros Ht H12. revert l3. induction H12; intros l3 H23; inversion H23; subst;
    constructor; eauto.
Qed.

Lemma table_evolves_refl (A : Type) (R : A -> A -> Prop) (l : list A) :
  (forall x, R x x) -> table_evolves R l l.
Proof.
  intro H. exists l, []. split; [now rewrite app_nil_r|now apply forall2_refl].
Qed.

Lemma table_evolves_eq (A : Type) (R : A -> A -> Prop) (l l' : list A) :
  (forall x, R x x) -> l' = l -> table_evolves R l l'.
Proof. intros H ->. now apply table_evolves_refl. Qed.

Lemma table_evolves_map (A : Type) (R : A -> A -> Prop) (f : A -> A) (l : list A) :
  (forall x, R x (f x)) -> table_evolves R l (map f l).
Proof.
  intro H. exists (map f l), []. split; [now rewrite app_nil_r|now apply forall2_map_r].
Qed.

Lemma table_evolves_app (A : Type) (R : A -> A -> Prop) (l added : list A) :
  (forall x, R x x) -> table_evolves R l (l ++ added).
Proof. intro H. exists l, added. split; [reflexivity|now apply forall2_refl]. Qed.

Lemma table_evolves_trans (A : Type) (R : A -> A -> Prop) (l1 l2 l3 : list A) :
  (forall x y z, R x y -> R y z -> R x z) ->
  table_evolves R l1 l2 -> table_evolves R l2 l3 -> table_evolves R l1 l3.
Proof.
  intros Ht (k1 & a1 & -> & H1) (k2 & a2 & -> & H2).
  apply Forall2_app_inv_l in H2. destruct H2 as (k2a & k2b & Ha & _ & ->).
  exists k2a, (k2b ++ a2). split; [now rewrite app_assoc|].
  now apply (forall2_trans Ht H1 Ha).
Qed.

Lemma user_kept_refl (u : User.t) : user_kept u u.
Proof. unfold user_kept. tauto. Qed.

Lemma user_kept_trans (u v w : User.t) : user_kept u v -> user_kept v w -> user_kept u w.
Proof. unfold user_kept. intuition congruence. Qed.

Lemma chat_kept_refl (c : Chat.t) : chat_kept c c.
Proof. unfold chat_kept. tauto. Qed.

Lemma chat_kept_trans (c d e : Chat.t) : chat_kept c d -> chat_kept d e -> chat_kept c e.
Proof. unfold chat_kept. intuition congruence. Qed.

Lemma history_kept_refl (h : ChatHistory.t) : history_kept h h.
Proof. unfold history_kept. tauto. Qed.

Lemma history_kept_trans (h i j : ChatHistory.t) :
  history_kept h i -> history_kept i j -> history_kept h j.
Proof. unfold history_kept. intuition congruence. Qed.

Lemma store_evolves_refl (db : DB) : store_evolves db db.
Proof.
  repeat split.
  - apply table_evolves_refl, user_kept_refl.
  - apply table_evolves_refl, chat_kept_refl.
  - now apply table_evolves_refl.
  - apply table_evolves_refl, history_kept_refl.
Qed.

Lemma store_evolves_trans (db1 db2 db3 : DB) :
  store_evolves db1 db2 -> store_evolves db2 db3 -> store_evolves db1 db3.
Proof.
  intros (U1 & C1 & M1 & H1) (U2 & C2 & M2 & H2). repeat split.
  - exact (table_evolves_trans user_kept_trans U1 U2).
  - exact (table_evolves_trans chat_kept_trans C1 C2).
  - refine (table_evolves_trans _ M1 M2). intros; congruence.
  - exact (table_evolves_trans history_kept_trans H1 H2).
Qed.

(** A change of the queue alone. *)
Lemma store_evolves_same_rows (db db' : DB) :
  users db' = users db -> chats db' = chats db -> messages db' = messages db ->
  chat_history db' = chat_history db -> store_evolves db db'.
Proof.
  intros HU HC HM HH. repeat split.
  - apply table_evolves_eq; [apply user_kept_refl|assumption].
  - apply table_evolves_eq; [apply chat_kept_refl|assumption].
  - now apply table_evolves_eq.
  - apply table_evolves_eq; [apply history_kept_refl|assumption].
Qed.

Lemma update_user_evolves (uid : Z) (f : User.t -> User.t) (db : DB) :
  (forall u, user_kept u (f u)) -> store_evolves db (update_user uid f db).
Proof.
  intro Hf. repeat split; simpl.
  - apply table_evolves_map. intro u. destruct (User.id u =? uid);
      [apply Hf|apply user_kept_refl].
  - apply table_evolves_refl, chat_kept_refl.
  - now apply table_evolves_refl.
  - apply table_evolves_refl, history_kept_refl.
Qed.

Lemma with_current_chat_id_kept (c : option Z) (u : User.t) :
  user_kept u (User.with_current_chat_id c u).
Proof. unfold user_kept. simpl. tauto. Qed.

Lemma with_role_problem_kept (r p : string) (u : User.t) :
  user_kept u (User.with_role_problem r p u).
Proof. unfold user_kept. simpl. tauto. Qed.

Lemma with_is_banned_kept (u : User.t) : user_kept u (User.with_is_banned true u).
Proof. unfold user_kept. simpl. tauto. Qed.

Lemma update_chat_ended_evolves (cid now : Z) (db : DB) :
  store_evolves db (update_chat cid (Chat.ended now) db).
Proof.
  repeat split; simpl.
  - apply table_evolves_refl, user_kept_refl.
  - apply table_evolves_map. intro c. destruct (Chat.id c =? cid);
      [|apply chat_kept_refl].
    unfold chat_kept. simpl. repeat split; congruence.
  - now apply table_evolves_refl.
  - apply table_evolves_refl, history_kept_refl.
Qed.

Lemma add_to_queue_frame (now : Z) (db db' : DB) (user : User.t) (role problem : string) :
  add_to_queue now db user role problem = Ok db' ->
  users db' = users db /\ chats db' = chats db /\ messages db' = messages db /\
  chat_history db' = chat_history db.
Proof.
  unfold add_to_queue.
  destruct (select_queue_entry db (User.id user)) as [[e|]|e]; cbn [bind];
    [| |discriminate]; intro H; inversion H; repeat split.
Qed.

Lemma remove_from_queue_evolves (db : DB) (uid : Z) :
  store_evolves db (remove_from_queue db uid).
Proof. now apply store_evolves_same_rows. Qed.

Lemma create_chat_evolves (now : Z) (db : DB) (u1 u2 : User.t) (role problem : string) :
  store_evolves db (fst (create_chat now db u1 u2 role problem)).
Proof.
  repeat split; simpl.
  - rewrite map_map. apply table_evolves_map. intro u.
    apply user_kept_trans
      with (v := if User.id u =? User.id u1
                 then User.with_current_chat_id
                        (Some (fresh_id (map Chat.id (chats db)))) u
                 else u).
    + destruct (User.id u =? User.id u1);
        [apply with_current_chat_id_kept|apply user_kept_refl].
    + match goal with
      | |- user_kept ?v (if ?b then _ else _) =>
          destruct b; [apply with_current_chat_id_kept|apply user_kept_refl]
      end.
  - apply table_evolves_app, chat_kept_refl.
  - now apply table_evolves_refl.
  - apply table_evolves_refl, history_kept_refl.
Qed.

Lemma record_history_evolves (now : Z) (db db' : DB) (uid cid : Z) :
  record_history now db uid cid = Ok db' -> store_evolves db db'.
Proof.
  rewrite record_history_unfold.
  destruct (select_history_entry db uid cid) as [[e|]|e]; intro H; inversion H;
    repeat split; simpl;
    try (apply table_evolves_refl; auto using user_kept_refl, chat_kept_refl).
  - apply table_evolves_map. intro h. destruct (ChatHistory.id h =? ChatHistory.id e);
      [|apply history_kept_refl]. unfold history_kept. simpl. tauto.
  - apply table_evolves_app, history_kept_refl.
Qed.

Lemma requested_evolves (clk : nat -> Z) (db db' : DB) (user : User.t)
  (role problem : string) :
  requested clk db user role problem db' -> store_evolves db db'.
Proof.
  intros (db2 & Hadd & Hcase).
  assert (H2 : store_evolves db db2).
  { apply store_evolves_trans
      with (db2 := update_user (User.id user) (User.with_role_problem role problem) db).
    - apply update_user_evolves, with_role_problem_kept.
    - apply add_to_queue_frame in Hadd. destruct Hadd as (HU & HC & HM & HH).
      now apply store_evolves_same_rows. }
  destruct Hcase as [[_ ->]|(matched & _ & ->)]; [assumption|].
  eapply store_evolves_trans; [exact H2|].
  eapply store_evolves_trans; [apply create_chat_evolves|].
  eapply store_evolves_trans; apply remove_from_queue_evolves.
Qed.

Lemma end_chat_evolves (clk : nat -> Z) (db db' : DB) (user : User.t) (out : list action) :
  end_chat clk db user = Ok (db', out) -> store_evolves db db'.
Proof.
  intro H. apply end_chat_inversion in H.
  destruct H as [->|(cid & chat & partner & db4 & _ & _ & _ & _ & H4 & H5)];
    [apply store_evolves_refl|].
  apply record_history_evolves in H4.
  assert (H3 : store_evolves db db4).
  { eapply store_evolves_trans; [|exact H4].
    eapply store_evolves_trans;
      [|apply update_user_evolves, with_current_chat_id_kept].
    destruct partner as [p|].
    - eapply store_evolves_trans; [apply update_chat_ended_evolves|].
      apply update_user_evolves, with_current_chat_id_kept.
    - apply update_chat_ended_evolves. }
  destruct partner as [p|].
  - apply record_history_evolves in H5. now apply store_evolves_trans with (db2 := db4).
  - now subst db'.
Qed.

Lemma sweep_step_evolves (clk : nat -> Z) (st st' : sweep_state) (e : QueueEntry.t) :
  sweep_step clk st e = Ok st' -> store_evolves (sweep_db st) (sweep_db st').
Proof.
  unfold sweep_step.
  destruct (mem _ _); [intro H; inversion H; apply store_evolves_refl|].
  destruct (select_user_by_id (sweep_db st) (QueueEntry.user_id e)) as [[user|]|x];
    cbn [bind]; [| |discriminate].
  2:{ intro H. inversion H. apply remove_from_queue_evolves. }
  destruct (stale_row user); [intro H; inversion H; apply remove_from_queue_evolves|].
  destruct (find_match _ _ _ _) as [matched|];
    [|intro H; inversion H; apply store_evolves_refl].
  destruct (select_user_by_id (sweep_db st) (User.id matched)) as [[mu|]|x];
    cbn [bind]; [| |discriminate].
  2:{ intro H. inversion H. apply store_evolves_refl. }
  destruct (negb (truthy (User.current_chat_id mu)));
    [|intro H; inversion H; apply store_evolves_refl].
  destruct (create_chat _ (sweep_db st) user mu _ _) as [db1 chat] eqn:Hc.
  intro H. inversion H. simpl.
  eapply store_evolves_trans; [|apply remove_from_queue_evolves].
  eapply store_evolves_trans; [|apply remove_from_queue_evolves].
  change db1 with (fst (db1, chat)). rewrite <- Hc. apply create_chat_evolves.
Qed.

Lemma sweep_loop_evolves (clk : nat -> Z) (entries : list QueueEntry.t)
  (st st' : sweep_state) (err : option exn) :
  sweep_loop clk st entries = (st', err) -> store_evolves (sweep_db st) (sweep_db st').
Proof.
  revert st. induction entries as [|e entries IH]; intros st; simpl.
  - intro H. inversion H. apply store_evolves_refl.
  - destruct (sweep_step clk st e) as [st1|x] eqn:Hstep.
    + intro H. eapply store_evolves_trans; [exact (sweep_step_evolves _ _ _ Hstep)|].
      now apply IH.
    + intro H. inversion H. apply store_evolves_refl.
Qed.

(** No handler deletes a row of the users, chats, messages or history, or
    moves one: rows stay in place and new rows are appended.  A user row
    keeps its id, telegram id, age and registration time, and a ban is
    never lifted; a chat keeps its id, participants, roles, topic and
    creation time, and once inactive or ended it stays so; a message is
    never changed; a history row keeps its id, user and chat. *)
Theorem handlers_never_delete_rows
  (int_of_text : string -> option Z) (check_profanity : string -> bool) :
  (forall now db tg txt db' out,
     handle_message check_profanity now db tg txt = Ok (db', out) ->
     store_evolves db db') /\
  (forall clk db tg data db' out,
     handle_callback clk db tg data = Ok (db', out) -> store_evolves db db') /\
  (forall clk db st err,
     periodic_matchmaking_task clk db = (st, err) -> store_evolves db (sweep_db st)) /\
  (forall now db tg text ud db' st ud' out,
     handle_age int_of_text now db tg text ud = Done (db', st, ud', out) ->
     store_evolves db db') /\
  (forall clk db tg data ud db' st ud' out,
     handle_problem_selection clk db tg data ud = Done (db', st, ud', out) ->
     store_evolves db db').
Proof.
  split; [|split; [|split; [|split]]].
  - intros now db tg txt db' out H.
    pose proof (handle_message_effect check_profanity _ _ _ _ H) as (HC & _ & HH & Hcase).
    unfold handle_message in H.
    destruct (select_user_by_telegram_id db tg) as [[user|]|e]; cbn [bind] in H;
      [| |discriminate].
    2:{ inversion H. apply store_evolves_refl. }
    destruct (User.is_banned user); [inversion H; apply store_evolves_refl|].
    destruct (check_profanity txt).
    { inversion H. apply update_user_evolves, with_is_banned_kept. }
    destruct Hcase as [(n & _ & HM)|(m & ptg & _ & HM & _ & HU)].
    + repeat split.
      * destruct (User.current_chat_id user) as [cid|]; [|inversion H;
          apply table_evolves_refl, user_kept_refl].
        destruct (negb (cid =? 0)); [|inversion H; apply table_evolves_refl, user_kept_refl].
        destruct (select_chat_by_id db cid) as [[chat|]|e]; cbn [bind] in H;
          [| |discriminate];
          [|inversion H; apply table_evolves_refl, user_kept_refl].
        destruct (Chat.is_active chat);
          [|inversion H; apply table_evolves_refl, user_kept_refl].
        destruct (select_user_by_id db (partner_id_of chat user)) as [[partner|]|e];
          cbn [bind] in H; [| |discriminate]; inversion H;
          apply table_evolves_refl, user_kept_refl.
      * apply table_evolves_eq; [apply chat_kept_refl|assumption].
      * now apply table_evolves_eq.
      * apply table_evolves_eq; [apply history_kept_refl|assumption].
    + repeat split.
      * apply table_evolves_eq; [apply user_kept_refl|assumption].
      * apply table_evolves_eq; [apply chat_kept_refl|assumption].
      * rewrite HM. now apply table_evolves_app.
      * apply table_evolves_eq; [apply history_kept_refl|assumption].
  - intros clk db tg data db' out H.
    destruct (handle_callback_inversion _ _ _ _ H)
      as [->|(user & _ & _ & [[_ Hmenu]|[_ Hend]])].
    + apply store_evolves_refl.
    + apply menu_problem_requested in Hmenu. destruct Hmenu as (role & _ & Hreq).
      exact (requested_evolves Hreq).
    + exact (end_chat_evolves _ _ _ Hend).
  - intros clk db st err H. exact (sweep_loop_evolves _ _ _ H).
  - intros now db tg text ud db' st ud' out. unfold handle_age.
    destruct (int_of_text text) as [age|];
      [|intro H; inversion H; apply store_evolves_refl].
    destruct ((age <? MIN_AGE) || (age >? MAX_AGE));
      [intro H; inversion H; apply store_evolves_refl|].
    destruct (existsb _ (users db)); [discriminate|].
    intro H. inversion H. repeat split; simpl.
    + apply table_evolves_app, user_kept_refl.
    + apply table_evolves_refl, chat_kept_refl.
    + now apply table_evolves_refl.
    + apply table_evolves_refl, history_kept_refl.
  - intros clk db tg data ud db' st ud' out H.
    destruct (handle_problem_selection_requested _ _ _ _ _ H)
      as [->|(user & role & _ & _ & Hreq)].
    + apply store_evolves_refl.
    + exact (requested_evolves Hreq).
Qed.

(** ** Onboarding *)

Lemma existsb_telegram_id (tg : Z) (l : list User.t) :
  existsb (fun u => User.telegram_id u =? tg) l = true <->
  In tg (map User.telegram_id l).
Proof.
  rewrite existsb_exists, in_map_iff. split.
  - intros (u & Hu & E). exists u. split; [now apply Z.eqb_eq|assumption].
  - intros (u & E & Hu). exists u. split; [assumption|now apply Z.eqb_eq].
Qed.

(** [handle_age] adds a user row only when the text reads as a number
    from 14 to 18 and the telegram id is not registered yet: the row is
    appended with a new id, that telegram id and age, not banned and
    without chat, and the conversation moves on.  In every other case in
    which it returns, the store is as before and the conversation stays at
    the age question; and it fails only on a valid age for a telegram id
    that is already registered. *)
Theorem handle_age_registers_valid_ages_once
  (int_of_text : string -> option Z) (now : Z) (db : DB) (tg : Z) (text : string)
  (ud : user_data) :
  (forall db' st ud' out,
     handle_age int_of_text now db tg text ud = Done (db', st, ud', out) ->
     (st = WAITING_AGE /\ db' = db /\ ud' = ud /\
      (int_of_text text = None \/
       exists age, int_of_text text = Some age /\ (age < MIN_AGE \/ MAX_AGE < age))) \/
     (st = WAITING_ROLE /\
      exists age user,
        int_of_text text = Some age /\ MIN_AGE <= age <= MAX_AGE /\
        users db' = users db ++ [user] /\
        User.telegram_id user = tg /\ User.age user = age /\
        User.is_banned user = false /\ User.current_chat_id user = None /\
        (forall u, In u (users db) ->
                   User.id u < User.id user /\ User.telegram_id u <> tg) /\
        ud_user_id ud' = Some (User.id user) /\
        chats db' = chats db /\ queue_entries db' = queue_entries db)) /\
  (forall e,
     handle_age int_of_text now db tg text ud = Failed e ->
     e = IntegrityError /\ In tg (map User.telegram_id (users db)) /\
     exists age, int_of_text text = Some age /\ MIN_AGE <= age <= MAX_AGE).
Proof.
  unfold handle_age. split.
  - intros db' st ud' out.
    destruct (int_of_text text) as [age|].
    2:{ intro H. inversion H; subst. left. repeat split. now left. }
    destruct (Z.ltb_spec age MIN_AGE) as [Hlo|Hlo]; cbn [orb].
    { intro H. inversion H; subst. left. repeat split. right. exists age.
      split; [reflexivity|now left]. }
    destruct (Z.gtb_spec age MAX_AGE) as [Hhi|Hhi].
    { intro H. inversion H; subst. left. repeat split. right. exists age.
      split; [reflexivity|right; lia]. }
    destruct (existsb _ (users db)) eqn:Hex; [discriminate|].
    intro H. inversion H; subst. right. split; [reflexivity|].
    eexists. eexists. split; [reflexivity|]. split; [lia|].
    split; [reflexivity|]. repeat (split; [reflexivity|]).
    split; [|repeat split].
    intros u Hu. cbn [User.id]. split.
    + apply fresh_id_above. now apply in_map.
    + intro E. apply not_true_iff_false in Hex. apply Hex.
      apply existsb_telegram_id. rewrite <- E. now apply in_map.
  - intro e. destruct (int_of_text text) as [age|]; [|discriminate].
    destruct (Z.ltb_spec age MIN_AGE) as [Hlo|Hlo]; cbn [orb]; [discriminate|].
    destruct (Z.gtb_spec age MAX_AGE) as [Hhi|Hhi]; [discriminate|].
    destruct (existsb _ (users db)) eqn:Hex; [|discriminate].
    intro H. inversion H. split; [reflexivity|]. split.
    + now apply existsb_telegram_id.
    + exists age. split; [reflexivity|lia].
Qed.

(** The role kept by [handle_role_selection] is the second field of the
    payload split at underscores: for [role_<a>_<b>] with no underscore in
    [a] it is [a] (so [role_receive_support] keeps [receive]), and for
    [role_<a>] it is [a]. *)
Theorem handle_role_selection_keeps_second_field (a b : string) (ud : user_data) :
  contains "_" a = false ->
  handle_role_selection ("role_" ++ a ++ "_" ++ b) ud
    = Ok (WAITING_PROBLEM, mkUserData (ud_age ud) (ud_user_id ud) (Some a) (ud_problem ud),
          [edit_notice ChooseProblem]) /\
  handle_role_selection ("role_" ++ a) ud
    = Ok (WAITING_PROBLEM, mkUserData (ud_age ud) (ud_user_id ud) (Some a) (ud_problem ud),
          [edit_notice ChooseProblem]).
Proof.
  intro Ha. unfold handle_role_selection. split.
  - change ("role_" ++ a ++ "_" ++ b)%string
      with ("role" ++ String "_" (a ++ String "_" b))%string.
    rewrite !split_field by (reflexivity || assumption). reflexivity.
  - change ("role_" ++ a)%string with ("role" ++ String "_" a)%string.
    rewrite split_field by reflexivity. now rewrite (split_last_field _ _ Ha).
Qed.

Lemma handle_role_selection_keeps_second_field_witness :
  handle_role_selection "role_receive_support" (mkUserData (Some 16) (Some 1) None None)
  = Ok (WAITING_PROBLEM, mkUserData (Some 16) (Some 1) (Some "receive"%string) None,
        [edit_notice ChooseProblem]).
Proof.
  exact (proj1 (@handle_role_selection_keeps_second_field "receive" "support"
                  (mkUserData (Some 16) (Some 1) None None) eq_refl)).
Defined.

Lemma split_problem (topic : string) :
  split "_" ("problem_" ++ topic) = ("problem" :: split "_" topic)%string.
Proof.
  change ("problem_" ++ topic)%string with ("problem" ++ String "_" topic)%string.
  now rewrite split_field by reflexivity.
Qed.

(** The topic step of onboarding does what the menu does for the payload
    [menu_problem_<role>_<topic>], with the role kept in the user data,
    and it does so without looking at the banned flag. *)
Theorem onboarding_request_is_menu_request
  (clk : nat -> Z) (db : DB) (tg : Z) (user : User.t) (role topic : string)
  (ud : user_data) :
  select_user_by_telegram_id db tg = Ok (Some user) ->
  ud_role ud = Some role ->
  contains "_" role = false ->
  handle_problem_selection clk db tg ("problem_" ++ topic) ud =
  match menu_problem clk db user ("menu_problem_" ++ role ++ "_" ++ topic) with
  | Ok (db', out) =>
      Done (db', END, mkUserData (ud_age ud) (ud_user_id ud) (Some role) (Some topic),
            map platform out)
  | Raise e => Failed (SessionError e)
  end.
Proof.
  intros Hu Hr Hrole. unfold handle_problem_selection, menu_problem.
  rewrite Hu, split_problem, (split_menu_problem _ topic Hrole).
  cbn [skipn index nth_error bind ud_role]. rewrite Hr, (join_split "_" topic).
  destruct (add_to_queue _ _ _ _ _) as [db2|e]; cbn [bind]; [|reflexivity].
  destruct (find_match db2 _ role topic) as [matched|]; [|reflexivity].
  now destruct (create_chat _ db2 _ matched role topic) as [db3 chat].
Qed.

Lemma onboarding_request_is_menu_request_witness :
  exists db' ud' out dave',
    handle_problem_selection Samples.clk MoreSamples.banned_newcomer 104 "problem_study"
      (mkUserData (Some 16) (Some 4) (Some "receive"%string) None)
      = Done (db', END, ud', out) /\
    select_user_by_telegram_id db' 104 = Ok (Some dave') /\
    User.is_banned dave' = true /\
    User.current_chat_id dave' = Some 1 /\
    List.length (chats db') = 1%nat.
Proof.
  pose proof (@onboarding_request_is_menu_request Samples.clk MoreSamples.banned_newcomer
                104 MoreSamples.dave "receive" "study"
                (mkUserData (Some 16) (Some 4) (Some "receive"%string) None)
                eq_refl eq_refl eq_refl) as H.
  change ("problem_" ++ "study")%string with "problem_study"%string in H.
  rewrite H. vm_compute.
  eexists. eexists. eexists. eexists. repeat split.
Defined.

(** ** Well-formed stores *)

Lemma wf_same_rows (db db' : DB) :
  well_formed db ->
  users db' = users db -> chats db' = chats db -> chat_history db' = chat_history db ->
  NoDup (map QueueEntry.user_id (queue_entries db')) ->
  well_formed db'.
Proof.
  intros [H1 H2 H3 H4 H5 H6 H7 H8 H9] HU HC HH HQ.
  constructor; rewrite ?HU, ?HC, ?HH; assumption.
Qed.

Lemma wf_update_user (uid : Z) (f : User.t -> User.t) (db : DB) :
  harmless f -> well_formed db -> well_formed (update_user uid f db).
Proof.
  intros Hf [H1 H2 H3 H4 H5 H6 H7 H8 H9]. constructor; simpl; try assumption.
  - rewrite map_update_same; [assumption|]. intro u. apply Hf.
  - rewrite map_update_same; [assumption|]. intro u. apply Hf.
  - intros u' Hin. apply in_map_iff in Hin. destruct Hin as (u & <- & Hu).
    destruct (User.id u =? uid); [|now apply H3].
    destruct (Hf u) as (_ & _ & -> & _). now apply H3.
  - intros c Hc. rewrite map_update_same; [now apply H6|]. intro u. apply Hf.
  - intros u' cid Hin Hcur. apply in_map_iff in Hin. destruct Hin as (u & <- & Hu).
    destruct (User.id u =? uid); [|now apply H7].
    destruct (Hf u) as (Hid & _ & _ & [Hsame|Hnone]).
    + rewrite Hid. apply H7; [assumption|]. now rewrite <- Hsame.
    + rewrite Hnone in Hcur. discriminate.
Qed.

Lemma harmless_role_problem (r p : string) : harmless (User.with_role_problem r p).
Proof. intro u. simpl. tauto. Qed.

Lemma harmless_ban : harmless (User.with_is_banned true).
Proof. intro u. simpl. tauto. Qed.

Lemma harmless_clear : harmless (User.with_current_chat_id None).
Proof. intro u. simpl. tauto. Qed.

Lemma wf_update_chat_ended (cid now : Z) (db : DB) :
  well_formed db -> well_formed (update_chat cid (Chat.ended now) db).
Proof.
  intros [H1 H2 H3 H4 H5 H6 H7 H8 H9]. constructor; simpl; try assumption.
  - rewrite map_update_same; [assumption|reflexivity].
  - intros c' Hin. apply in_map_iff in Hin. destruct Hin as (c & <- & Hc).
    destruct (Chat.id c =? cid); simpl; now apply H5.
  - intros c' Hin. apply in_map_iff in Hin. destruct Hin as (c & <- & Hc).
    destruct (Chat.id c =? cid); simpl; now apply H6.
  - intros u k Hu Hcur. destruct (H7 u k Hu Hcur) as (c & Hc & Hid & Hpart).
    exists (if Chat.id c =? cid then Chat.ended now c else c). split.
    + apply in_map_iff. now exists c.
    + destruct (Chat.id c =? cid); simpl; now split.
Qed.

Lemma wf_add_chat (c : Chat.t) (db : DB) :
  well_formed db ->
  0 < Chat.id c -> ~ In (Chat.id c) (map Chat.id (chats db)) ->
  Chat.user1_id c <> Chat.user2_id c ->
  In (Chat.user1_id c) (map User.id (users db)) ->
  In (Chat.user2_id c) (map User.id (users db)) ->
  well_formed (with_chats (fun l => l ++ [c]) db).
Proof.
  intros [H1 H2 H3 H4 H5 H6 H7 H8 H9] Hpos Hnew Hd Hu1 Hu2.
  constructor; simpl; try assumption.
  - now apply nodup_map_snoc.
  - intros c' Hin. apply in_app_or in Hin. destruct Hin as [Hin|[<-|[]]];
      [now apply H5|assumption].
  - intros c' Hin. apply in_app_or in Hin. destruct Hin as [Hin|[<-|[]]];
      [now apply H6|now repeat split].
  - intros u k Hu Hcur. destruct (H7 u k Hu Hcur) as (c' & Hc' & Hrest).
    exists c'. split; [apply in_or_app; now left|assumption].
Qed.

Lemma wf_set_current (uid : Z) (c : Chat.t) (db : DB) :
  well_formed db -> In c (chats db) ->
  Chat.user1_id c = uid \/ Chat.user2_id c = uid ->
  well_formed (update_user uid (User.with_current_chat_id (Some (Chat.id c))) db).
Proof.
  intros [H1 H2 H3 H4 H5 H6 H7 H8 H9] Hc Hpart. constructor; simpl; try assumption.
  - rewrite map_update_same; [assumption|reflexivity].
  - rewrite map_update_same; [assumption|reflexivity].
  - intros u' Hin. apply in_map_iff in Hin. destruct Hin as (u & <- & Hu).
    destruct (User.id u =? uid); simpl; now apply H3.
  - intros c' Hc'. rewrite map_update_same; [now apply H6|reflexivity].
  - intros u' k Hin Hcur. apply in_map_iff in Hin. destruct Hin as (u & <- & Hu).
    destruct (Z.eqb_spec (User.id u) uid) as [E|_]; [|now apply H7].
    simpl in Hcur. inversion Hcur; subst k. exists c. simpl.
    repeat split; try assumption. now rewrite E.
Qed.

Lemma wf_create_chat (now : Z) (db : DB) (u1 u2 : User.t) (role problem : string) :
  well_formed db ->
  In (User.id u1) (map User.id (users db)) ->
  In (User.id u2) (map User.id (users db)) ->
  User.id u1 <> User.id u2 ->
  well_formed (fst (create_chat now db u1 u2 role problem)).
Proof.
  intros Hwf Hu1 Hu2 Hd.
  set (chat := Chat.mk (fresh_id (map Chat.id (chats db))) (User.id u1) (User.id u2)
                 role (opposite_role role) problem now true None).
  assert (Hwf1 : well_formed (with_chats (fun l => l ++ [chat]) db)).
  { apply wf_add_chat; try assumption.
    - apply fresh_id_positive.
    - apply fresh_id_not_in. }
  assert (Hin : In chat (chats (with_chats (fun l => l ++ [chat]) db))).
  { simpl. apply in_or_app. right. now left. }
  assert (Hwf2 : well_formed
                   (update_user (User.id u1) (User.with_current_chat_id (Some (Chat.id chat)))
                      (with_chats (fun l => l ++ [chat]) db))).
  { apply wf_set_current; [assumption|assumption|now left]. }
  change (fst (create_chat now db u1 u2 role problem))
    with (update_user (User.id u2) (User.with_current_chat_id (Some (Chat.id chat)))
            (update_user (User.id u1) (User.with_current_chat_id (Some (Chat.id chat)))
               (with_chats (fun l => l ++ [chat]) db))).
  apply wf_set_current; [assumption|exact Hin|now right].
Qed.

Lemma history_for_pair (uid cid : Z) (h : ChatHistory.t) :
  history_for uid cid h = true <-> history_pair h = (uid, cid).
Proof.
  unfold history_for, history_pair. rewrite andb_true_iff, !Z.eqb_eq.
  split; [intros [-> ->]; reflexivity|intro H; inversion H; now split].
Qed.

Lemma unique_pair_lookup (l : list ChatHistory.t) (uid cid : Z) :
  NoDup (map history_pair l) ->
  filter (history_for uid cid) l = [] \/ exists h, filter (history_for uid cid) l = [h].
Proof.
  induction l as [|a l IH]; simpl; intro Hnd; [now left|].
  inversion Hnd as [|? ? Hnotin Hnd']; subst.
  destruct (history_for uid cid a) eqn:E; [|now apply IH].
  right. exists a. f_equal.
  destruct (filter (history_for uid cid) l) as [|b rest] eqn:F; [reflexivity|].
  exfalso. apply Hnotin.
  assert (Hb : In b (filter (history_for uid cid) l)) by (rewrite F; now left).
  apply filter_In in Hb. destruct Hb as [Hb Hfor].
  apply history_for_pair in E. apply history_for_pair in Hfor.
  rewrite E, <- Hfor. now apply in_map.
Qed.

Lemma record_history_total (now : Z) (db : DB) (uid cid : Z) :
  well_formed db ->
  exists db', record_history now db uid cid = Ok db' /\ well_formed db'.
Proof.
  intro Hwf. pose proof Hwf as [H1 H2 H3 H4 H5 H6 H7 H8 H9].
  rewrite record_history_unfold. unfold select_history_entry.
  destruct (@unique_pair_lookup (chat_history db) uid cid H9) as [Hnone|[e He]].
  - rewrite Hnone. simpl. eexists. split; [reflexivity|].
    constructor; simpl; try assumption.
    apply nodup_map_snoc; [assumption|]. simpl. unfold history_pair at 1. simpl.
    intro Hin. apply in_map_iff in Hin. destruct Hin as (h & Hpair & Hh).
    assert (In h (filter (history_for uid cid) (chat_history db))) as Hf.
    { apply filter_In. split; [assumption|]. now apply history_for_pair. }
    rewrite Hnone in Hf. destruct Hf.
  - rewrite He. simpl. eexists. split; [reflexivity|].
    constructor; simpl; try assumption.
    rewrite map_update_same; [assumption|reflexivity].
Qed.

Lemma select_user_by_telegram_id_total (db : DB) (tg : Z) :
  well_formed db ->
  select_user_by_telegram_id db tg = Ok None \/
  exists u, select_user_by_telegram_id db tg = Ok (Some u) /\ In u (users db).
Proof.
  intro Hwf. unfold select_user_by_telegram_id.
  destruct (@unique_column_lookup _ User.telegram_id (users db) tg (wf_telegram_ids Hwf))
    as [->|[u Hu]]; [now left|].
  right. exists u. rewrite Hu. split; [reflexivity|].
  now apply filter_singleton_elim in Hu.
Qed.

Lemma select_chat_by_id_total (db : DB) (cid : Z) :
  well_formed db ->
  select_chat_by_id db cid = Ok None \/
  (exists c, select_chat_by_id db cid = Ok (Some c)) \/
  (select_chat_by_id db cid = Raise OverflowError /\ sqlite_integer cid = false).
Proof.
  intro Hwf. unfold select_chat_by_id.
  destruct (sqlite_integer cid); [|right; right; now split].
  destruct (@unique_column_lookup _ Chat.id (chats db) cid (wf_chat_ids Hwf))
    as [->|[c ->]]; [now left|right; left; now exists c].
Qed.

Lemma wf_remove_from_queue (db : DB) (uid : Z) :
  well_formed db -> well_formed (remove_from_queue db uid).
Proof.
  intro Hwf. apply (@wf_same_rows db _ Hwf); try reflexivity.
  simpl. apply nodup_map_filter, (wf_queue_users Hwf).
Qed.

Lemma wf_add_to_queue (now : Z) (db : DB) (user : User.t) (role problem : string) :
  well_formed db ->
  exists db', add_to_queue now db user role problem = Ok db' /\
              well_formed db' /\ users db' = users db.
Proof.
  intro Hwf.
  destruct (@add_to_queue_upserts now db user role problem (wf_queue_users Hwf))
    as (db' & q & Hadd & _ & _ & _ & _ & _ & Hnd & HU & HC).
  exists db'. split; [assumption|]. split; [|assumption].
  apply add_to_queue_frame in Hadd. destruct Hadd as (_ & _ & _ & HH).
  now apply (@wf_same_rows db db' Hwf).
Qed.

Lemma wf_requested (clk : nat -> Z) (db db' : DB) (user : User.t) (role problem : string) :
  well_formed db -> In user (users db) ->
  requested clk db user role problem db' -> well_formed db'.
Proof.
  intros Hwf Hin (db2 & Hadd & Hcase).
  set (db1 := update_user (User.id user) (User.with_role_problem role problem) db) in *.
  assert (Hwf1 : well_formed db1)
    by (apply wf_update_user; [apply harmless_role_problem|assumption]).
  destruct (@wf_add_to_queue (clk 0%nat) db1 (User.with_role_problem role problem user)
              role problem Hwf1) as (db2' & Hadd' & Hwf2 & HU2).
  rewrite Hadd in Hadd'. inversion Hadd'; subst db2'.
  destruct Hcase as [[_ ->]|(matched & Hm & ->)]; [assumption|].
  apply wf_remove_from_queue, wf_remove_from_queue.
  apply find_match_eligible in Hm. destruct Hm as (Hmin & Hne & _).
  apply wf_create_chat; try assumption.
  - rewrite HU2. unfold db1. simpl. rewrite map_update_same; [|reflexivity].
    now apply in_map.
  - now apply in_map.
  - congruence.
Qed.

Lemma requested_total (clk : nat -> Z) (db : DB) (user : User.t) (role problem : string) :
  well_formed db -> exists db', requested clk db user role problem db'.
Proof.
  intro Hwf. unfold requested.
  assert (Hwf1 : well_formed
                   (update_user (User.id user) (User.with_role_problem role problem) db))
    by (apply wf_update_user; [apply harmless_role_problem|assumption]).
  destruct (@wf_add_to_queue (clk 0%nat) _ (User.with_role_problem role problem user)
              role problem Hwf1) as (db2 & Hadd & _).
  destruct (find_match db2 (User.with_role_problem role problem user) role problem)
    as [matched|] eqn:Hm.
  - eexists. exists db2. split; [exact Hadd|]. right. exists matched. now split.
  - exists db2, db2. split; [exact Hadd|]. now left.
Qed.

Lemma startswith_split (data p : string) :
  startswith data p = true -> exists rest, data = (p ++ rest)%string.
Proof.
  unfold startswith. revert data. induction p as [|a p IH]; intros data H.
  - now exists data.
  - destruct data as [|b data]; simpl in H; [discriminate|].
    destruct (ascii_dec a b) as [->|]; [|discriminate].
    destruct (IH _ H) as [rest ->]. now exists rest.
Qed.

Lemma third_field_exists (a b rest : string) :
  contains "_" a = false -> contains "_" b = false ->
  exists field, index (split "_" (a ++ String "_" (b ++ String "_" rest))) 2 = Ok field.
Proof.
  intros Ha Hb. rewrite !split_field by assumption.
  destruct (split "_" rest) as [|h t] eqn:E; [now apply split_nonempty in E|].
  now exists h.
Qed.

Lemma menu_problem_total (clk : nat -> Z) (db : DB) (user : User.t) (data : string) :
  well_formed db -> startswith data "menu_problem_" = true ->
  exists db' out, menu_problem clk db user data = Ok (db', out).
Proof.
  intros Hwf Hp. apply startswith_split in Hp. destruct Hp as [rest ->].
  unfold menu_problem.
  destruct (@third_field_exists "menu" "problem" rest eq_refl eq_refl) as [role Hrole].
  change ("menu_problem_" ++ rest)%string
    with ("menu" ++ String "_" ("problem" ++ String "_" rest))%string.
  rewrite Hrole. cbn [bind].
  set (problem := join "_" _).
  assert (Hwf1 : well_formed
                   (update_user (User.id (User.with_role_problem role problem user))
                      (User.with_role_problem role problem) db))
    by (apply wf_update_user; [apply harmless_role_problem|assumption]).
  destruct (@wf_add_to_queue (clk 0%nat) _ (User.with_role_problem role problem user)
              role problem Hwf1) as (db2 & Hadd & _).
  rewrite Hadd. cbn [bind].
  destruct (find_match db2 _ role problem) as [matched|]; [|now eexists; eexists].
  destruct (create_chat _ db2 _ matched role problem). now eexists; eexists.
Qed.

Lemma wf_end_chat (clk : nat -> Z) (db : DB) (user : User.t) :
  well_formed db ->
  (exists db' out, end_chat clk db user = Ok (db', out) /\ well_formed db') \/
  (end_chat clk db user = Raise OverflowError /\ unbound_reference user).
Proof.
  intro Hwf. unfold end_chat, unbound_reference.
  destruct (User.current_chat_id user) as [cid|]; [|left; now exists db; eexists].
  destruct (negb (cid =? 0)); [|left; now exists db; eexists].
  destruct (@select_chat_by_id_total db cid Hwf) as [->|[[chat ->]|[-> Hbig]]];
    cbn [bind]; [left; now exists db; eexists| |right; split; [reflexivity|now exists cid]].
  left.
  replace (select_user_by_id (update_chat (Chat.id chat) (Chat.ended (clk 0%nat)) db)
             (partner_id_of chat user))
    with (select_user_by_id db (partner_id_of chat user)) by reflexivity.
  pose proof (@wf_update_chat_ended (Chat.id chat) (clk 0%nat) db Hwf) as Hwf1.
  destruct (@select_user_by_id_total db (partner_id_of chat user) (wf_user_ids Hwf))
    as [->|[p ->]]; cbn [bind].
  - pose proof (@wf_update_user (User.id user) _ _ harmless_clear Hwf1) as Hwf3.
    destruct (@record_history_total (clk 1%nat) _ (User.id user) (Chat.id chat) Hwf3)
      as (db4 & -> & Hwf4). cbn [bind]. now exists db4; eexists.
  - pose proof (@wf_update_user (User.id p) _ _ harmless_clear Hwf1) as Hwf2.
    pose proof (@wf_update_user (User.id user) _ _ harmless_clear Hwf2) as Hwf3.
    destruct (@record_history_total (clk 1%nat) _ (User.id user) (Chat.id chat) Hwf3)
      as (db4 & -> & Hwf4). cbn [bind].
    destruct (@record_history_total (clk 2%nat) _ (User.id p) (Chat.id chat) Hwf4)
      as (db5 & -> & Hwf5). cbn [bind]. now exists db5; eexists.
Qed.

Lemma history_buttons_total (db : DB) (user : User.t)
  (entries : list (ChatHistory.t * Chat.t)) (i : nat) :
  well_formed db -> exists keyboard, history_buttons db user i entries = Ok keyboard.
Proof.
  intro Hwf. revert i. induction entries as [|[h c] rest IH]; intro i; simpl.
  - now eexists.
  - destruct (IH (S i)) as [kb Hkb].
    destruct (@select_user_by_id_total db (partner_id_of c user) (wf_user_ids Hwf))
      as [->|[p ->]]; cbn [bind]; rewrite Hkb; cbn [bind]; now eexists.
Qed.

Lemma show_chat_history_total (db : DB) (user : User.t) :
  well_formed db -> exists out, show_chat_history db user = Ok out.
Proof.
  intro Hwf. unfold show_chat_history.
  destruct (firstn 3 _) as [|row rows] eqn:E; [now eexists|].
  destruct (@history_buttons_total db user (row :: rows) 1%nat Hwf) as [kb ->].
  cbn [bind]. now eexists.
Qed.

Lemma view_chat_history_total (db : DB) (user : User.t) (cid : Z) :
  well_formed db ->
  (exists out, view_chat_history db user cid = Ok out) \/
  (view_chat_history db user cid = Raise OverflowError /\ sqlite_integer cid = false).
Proof.
  intro Hwf. unfold view_chat_history.
  destruct (@select_chat_by_id_total db cid Hwf) as [->|[[c ->]|[-> Hbig]]]; cbn [bind];
    [left; now eexists| |right; now split].
  left. destruct (chat_messages db cid); now eexists.
Qed.

Lemma wf_handle_message (check_profanity : string -> bool) (now : Z) (db : DB) (tg : Z)
  (txt : string) :
  well_formed db ->
  (exists db' out,
     handle_message check_profanity now db tg txt = Ok (db', out) /\ well_formed db') \/
  (handle_message check_profanity now db tg txt = Raise OverflowError /\
   exists user, In user (users db) /\ unbound_reference user).
Proof.
  intro Hwf. unfold handle_message.
  destruct (@select_user_by_telegram_id_total db tg Hwf) as [->|(user & -> & Hin)];
    cbn [bind]; [left; now exists db; eexists|].
  destruct (User.is_banned user); [left; now exists db; eexists|].
  destruct (check_profanity txt).
  { left. eexists. eexists. split; [reflexivity|].
    apply wf_update_user; [apply harmless_ban|assumption]. }
  destruct (User.current_chat_id user) as [cid|] eqn:Hcur; [|left; now exists db; eexists].
  destruct (negb (cid =? 0)); [|left; now exists db; eexists].
  destruct (@select_chat_by_id_total db cid Hwf) as [->|[[chat ->]|[-> Hbig]]];
    cbn [bind]; [left; now exists db; eexists| |].
  2:{ right. split; [reflexivity|]. exists user. split; [assumption|]. now exists cid. }
  left.
  destruct (Chat.is_active chat); [|now exists db; eexists].
  destruct (@select_user_by_id_total db (partner_id_of chat user) (wf_user_ids Hwf))
    as [->|[p ->]]; cbn [bind]; [now exists db; eexists|].
  eexists. eexists. split; [reflexivity|].
  apply (@wf_same_rows db _ Hwf); try reflexivity. apply (wf_queue_users Hwf).
Qed.

Lemma wf_handle_callback (clk : nat -> Z) (db : DB) (tg : Z) (data : string) :
  well_formed db ->
  (exists db' out, handle_callback clk db tg data = Ok (db', out) /\ well_formed db') \/
  view_chat_fails clk db tg data \/
  (handle_callback clk db tg data = Raise OverflowError /\
   exists user, In user (users db) /\ unbound_reference user).
Proof.
  intro Hwf. unfold view_chat_fails, handle_callback.
  destruct (@select_user_by_telegram_id_total db tg Hwf) as [->|(user & -> & Hin)];
    cbn [bind]; [left; now exists db; eexists|].
  destruct (User.is_banned user); [left; now exists db; eexists|].
  destruct (String.eqb data "find_match"); [left; now exists db; eexists|].
  destruct (startswith data "menu_role_") eqn:Hmr.
  { left. apply startswith_split in Hmr. destruct Hmr as [rest ->].
    destruct (@third_field_exists "menu" "role" rest eq_refl eq_refl) as [role Hrole].
    change ("menu_role_" ++ rest)%string
      with ("menu" ++ String "_" ("role" ++ String "_" rest))%string.
    rewrite Hrole. cbn [bind]. now exists db; eexists. }
  destruct (startswith data "menu_problem_") eqn:Hmp.
  { left. destruct (@menu_problem_total clk db user data Hwf Hmp) as (db' & out & H).
    exists db', out. split; [assumption|].
    apply menu_problem_requested in H. destruct H as (role & _ & Hreq).
    exact (@wf_requested _ _ _ _ _ _ Hwf Hin Hreq). }
  destruct (String.eqb data "chat_history").
  { left. destruct (@show_chat_history_total db user Hwf) as [out ->]. cbn [bind].
    now exists db; eexists. }
  destruct (String.eqb data "end_chat").
  { destruct (@wf_end_chat clk db user Hwf) as [H|[H Hbig]]; [now left|].
    right. right. split; [assumption|]. now exists user. }
  destruct (startswith data "view_chat_") eqn:Hvc.
  { pose proof Hvc as Hrest. apply startswith_split in Hrest. destruct Hrest as [rest ->].
    destruct (@third_field_exists "view" "chat" rest eq_refl eq_refl) as [part Hpart].
    change ("view_chat_" ++ rest)%string
      with ("view" ++ String "_" ("chat" ++ String "_" rest))%string in *.
    rewrite Hpart. cbn [bind].
    destruct (py_int part) as [cid|e] eqn:Hint; cbn [bind].
    - destruct (@view_chat_history_total db user cid Hwf) as [[out ->]|[-> Hbig]];
        cbn [bind]; [left; now exists db; eexists|].
      right. left. split; [reflexivity|]. exists part. split; [reflexivity|].
      right. exists cid. now repeat split.
    - right. left. split; [reflexivity|]. exists part. split; [reflexivity|].
      left. pose proof (py_int_raises _ Hint) as ->. now split. }
  destruct (String.eqb data "back_to_menu"); left; now exists db; eexists.
Qed.

Lemma wf_sweep_step (clk : nat -> Z) (st : sweep_state) (e : QueueEntry.t) :
  well_formed (sweep_db st) ->
  exists st', sweep_step clk st e = Ok st' /\ well_formed (sweep_db st').
Proof.
  intro Hwf. unfold sweep_step.
  destruct (mem _ _); [now exists st|].
  destruct (@select_user_by_id_total (sweep_db st) (QueueEntry.user_id e) (wf_user_ids Hwf))
    as [->|[user Hu]]; cbn [bind].
  { eexists. split; [reflexivity|]. now apply wf_remove_from_queue. }
  rewrite Hu. cbn [bind].
  destruct (stale_row user).
  { eexists. split; [reflexivity|]. now apply wf_remove_from_queue. }
  destruct (find_match _ _ _ _) as [matched|] eqn:Hm; [|now eexists].
  destruct (@select_user_by_id_total (sweep_db st) (User.id matched) (wf_user_ids Hwf))
    as [->|[mu Hmu]]; cbn [bind]; [now eexists|].
  rewrite Hmu. cbn [bind].
  destruct (negb (truthy (User.current_chat_id mu))); [|now eexists].
  destruct (create_chat _ (sweep_db st) user mu _ _) as [db1 chat] eqn:Hc.
  eexists. split; [reflexivity|]. simpl.
  apply wf_remove_from_queue, wf_remove_from_queue.
  change db1 with (fst (db1, chat)). rewrite <- Hc.
  apply find_match_eligible in Hm. destruct Hm as (_ & Hne & _).
  destruct (@select_user_by_id_sound _ _ _ Hu) as [Hinu Hidu].
  destruct (@select_user_by_id_sound _ _ _ Hmu) as [Hinm Hidm].
  apply wf_create_chat; try assumption.
  - now apply in_map.
  - now apply in_map.
  - rewrite Hidm. congruence.
Qed.

Lemma wf_sweep_loop (clk : nat -> Z) (entries : list QueueEntry.t) (st : sweep_state) :
  well_formed (sweep_db st) ->
  exists st', sweep_loop clk st entries = (st', None) /\ well_formed (sweep_db st').
Proof.
  revert st. induction entries as [|e entries IH]; intros st Hwf; simpl.
  - now exists st.
  - destruct (@wf_sweep_step clk st e Hwf) as (st1 & -> & Hwf1). now apply IH.
Qed.

Lemma wf_handle_age (int_of_text : string -> option Z) (now : Z) (db : DB) (tg : Z)
  (text : string) (ud : user_data) (db' : DB) (st : conversation_state)
  (ud' : user_data) (out : list onboarding_action) :
  well_formed db ->
  handle_age int_of_text now db tg text ud = Done (db', st, ud', out) ->
  well_formed db'.
Proof.
  intros Hwf. unfold handle_age.
  destruct (int_of_text text) as [age|]; [|intro H; now inversion H; subst].
  destruct (Z.ltb_spec age MIN_AGE) as [Hlo|Hlo]; cbn [orb];
    [intro H; now inversion H; subst|].
  destruct (Z.gtb_spec age MAX_AGE) as [Hhi|Hhi]; [intro H; now inversion H; subst|].
  destruct (existsb _ (users db)) eqn:Hex; [discriminate|].
  intro H. inversion H; subst. clear H.
  destruct Hwf as [H1 H2 H3 H4 H5 H6 H7 H8 H9]. constructor; simpl; try assumption.
  - apply nodup_map_snoc; [assumption|apply fresh_id_not_in].
  - apply nodup_map_snoc; [assumption|]. simpl. intro Hin.
    apply existsb_telegram_id in Hin. congruence.
  - intros u Hu. apply in_app_or in Hu. destruct Hu as [Hu|[<-|[]]];
      [now apply H3|simpl; lia].
  - intros c Hc. destruct (H6 c Hc) as (Hd & Hu1 & Hu2).
    rewrite map_app. repeat split; [assumption| |]; apply in_or_app; now left.
  - intros u cid Hu Hcur. apply in_app_or in Hu. destruct Hu as [Hu|[<-|[]]];
      [now apply H7|discriminate].
Qed.

Lemma well_formed_preserved
  (int_of_text : string -> option Z) (check_profanity : string -> bool) (db : DB) :
  well_formed db ->
  (forall now tg txt db' out,
     handle_message check_profanity now db tg txt = Ok (db', out) -> well_formed db') /\
  (forall clk tg data db' out,
     handle_callback clk db tg data = Ok (db', out) -> well_formed db') /\
  (forall clk st err,
     periodic_matchmaking_task clk db = (st, err) -> well_formed (sweep_db st)) /\
  (forall now tg text ud db' st ud' out,
     handle_age int_of_text now db tg text ud = Done (db', st, ud', out) ->
     well_formed db') /\
  (forall clk tg data ud db' st ud' out,
     handle_problem_selection clk db tg data ud = Done (db', st, ud', out) ->
     well_formed db').
Proof.
  intro Hwf. split; [|split; [|split; [|split]]].
  - intros now tg txt db' out H.
    destruct (@wf_handle_message check_profanity now db tg txt Hwf)
      as [(db1 & out1 & H1 & Hwf1)|[H1 _]]; rewrite H in H1; [|discriminate].
    now inversion H1; subst.
  - intros clk tg data db' out H.
    destruct (@wf_handle_callback clk db tg data Hwf)
      as [(db1 & out1 & H1 & Hwf1)|[(_ & part & _ & [[_ H1]|(n & _ & _ & H1)])|[H1 _]]];
      rewrite H in H1; try discriminate.
    now inversion H1; subst.
  - intros clk st err H. unfold periodic_matchmaking_task in H.
    destruct (@wf_sweep_loop clk (queue_entries db) (mkSweep db [] [] 0%nat) Hwf)
      as (st1 & H1 & Hwf1). rewrite H in H1. now inversion H1; subst.
  - intros now tg text ud db' st ud' out H.
    exact (@wf_handle_age int_of_text now db tg text ud db' st ud' out Hwf H).
  - intros clk tg data ud db' st ud' out H.
    destruct (handle_problem_selection_requested _ _ _ _ _ H)
      as [->|(user & role & Hu & _ & Hreq)]; [assumption|].
    apply scalar_one_or_none_some, filter_singleton_elim in Hu.
    exact (@wf_requested _ _ _ _ _ _ Hwf (proj1 Hu) Hreq).
Qed.

(** Starting from a store that meets the constraints of the schema (ids,
    telegram ids and chat ids unique, one queue row a user, one history
    row a user and chat) and in which ages are registrable, chats have two
    distinct registered participants and every current-chat reference
    names a chat the user takes part in, every handler that returns leaves
    such a store. *)
Theorem handlers_keep_store_well_formed
  (int_of_text : string -> option Z) (check_profanity : string -> bool) (db : DB) :
  well_formed db ->
  (forall now tg txt db' out,
     handle_message check_profanity now db tg txt = Ok (db', out) -> well_formed db') /\
  (forall clk tg data db' out,
     handle_callback clk db tg data = Ok (db', out) -> well_formed db') /\
  (forall clk st err,
     periodic_matchmaking_task clk db = (st, err) -> well_formed (sweep_db st)) /\
  (forall now tg text ud db' st ud' out,
     handle_age int_of_text now db tg text ud = Done (db', st, ud', out) ->
     well_formed db') /\
  (forall clk tg data ud db' st ud' out,
     handle_problem_selection clk db tg data ud = Done (db', st, ud', out) ->
     well_formed db').
Proof. apply well_formed_preserved. Qed.

Lemma reference_is_bound (db : DB) (user : User.t) :
  well_formed db ->
  (forall c, In c (chats db) -> sqlite_integer (Chat.id c) = true) ->
  In user (users db) -> ~ unbound_reference user.
Proof.
  intros Hwf Hbound Hin (cid & Hcur & Hbig).
  destruct (wf_current_chat Hwf user Hin Hcur) as (c & Hc & Hid & _).
  rewrite <- Hid, (Hbound c Hc) in Hbig. discriminate.
Qed.

(** In a well-formed store whose chat ids are SQLite integers no lookup
    finds two rows: a text message is always handled and the sweep logs no
    error.  A button payload fails only when it starts with [view_chat_],
    and then with [ValueError] when its number does not read as an
    integer, and with [OverflowError] when the integer is beyond 64 bits.
    The topic step of onboarding fails only with [KeyError], when no role
    was kept. *)
Theorem well_formed_store_handlers_do_not_fail
  (check_profanity : string -> bool) (db : DB) :
  well_formed db ->
  (forall c, In c (chats db) -> sqlite_integer (Chat.id c) = true) ->
  (forall now tg txt, exists db' out,
     handle_message check_profanity now db tg txt = Ok (db', out)) /\
  (forall clk tg data,
     (exists db' out, handle_callback clk db tg data = Ok (db', out)) \/
     (startswith data "view_chat_" = true /\
      exists part,
        index (split "_" data) 2 = Ok part /\
        ((py_int part = Raise ValueError /\
          handle_callback clk db tg data = Raise ValueError) \/
         (exists n, py_int part = Ok n /\ sqlite_integer n = false /\
                    handle_callback clk db tg data = Raise OverflowError)))) /\
  (forall clk, exists st, periodic_matchmaking_task clk db = (st, None)) /\
  (forall clk tg data ud,
     (exists r, handle_problem_selection clk db tg data ud = Done r) \/
     (handle_problem_selection clk db tg data ud = Failed KeyError /\ ud_role ud = None)).
Proof.
  intros Hwf Hbound. split; [|split; [|split]].
  - intros now tg txt.
    destruct (@wf_handle_message check_profanity now db tg txt Hwf)
      as [(db' & out & H & _)|[_ (user & Hin & Hbig)]]; [now exists db', out|].
    now destruct (reference_is_bound Hwf Hbound Hin).
  - intros clk tg data.
    destruct (@wf_handle_callback clk db tg data Hwf)
      as [(db' & out & H & _)|[H|[_ (user & Hin & Hbig)]]];
      [left; now exists db', out|right; exact H|].
    now destruct (reference_is_bound Hwf Hbound Hin).
  - intro clk. unfold periodic_matchmaking_task.
    destruct (@wf_sweep_loop clk (queue_entries db) (mkSweep db [] [] 0%nat) Hwf)
      as (st & H & _). now exists st.
  - intros clk tg data ud. unfold handle_problem_selection.
    destruct (@select_user_by_telegram_id_total db tg Hwf) as [->|(user & -> & _)];
      [left; now eexists|].
    cbn [ud_role]. destruct (ud_role ud) as [role|]; [|now right].
    set (problem := join "_" _).
    assert (Hwf1 : well_formed
                     (update_user (User.id (User.with_role_problem role problem user))
                        (User.with_role_problem role problem) db))
      by (apply wf_update_user; [apply harmless_role_problem|assumption]).
    destruct (@wf_add_to_queue (clk 0%nat) _ (User.with_role_problem role problem user)
                role problem Hwf1) as (db2 & -> & _).
    left. destruct (find_match db2 _ role problem) as [matched|]; [|now eexists].
    destruct (create_chat _ db2 _ matched role problem). now eexists.
Qed.

(** Every store the handlers can produce from the empty store, run one
    after another, is well formed. *)
Theorem reachable_store_is_well_formed
  (int_of_text : string -> option Z) (check_profanity : string -> bool) (db : DB) :
  reachable int_of_text check_profanity db -> well_formed db.
Proof.
  induction 1 as [|db now tg text ud db' st ud' out _ IH H
                  |db clk tg data ud db' st ud' out _ IH H
                  |db now tg txt db' out _ IH H
                  |db clk tg data db' out _ IH H
                  |db clk st err _ IH H].
  - constructor; simpl; try constructor; intros; contradiction.
  - destruct (well_formed_preserved int_of_text check_profanity IH)
      as (_ & _ & _ & Hage & _). exact (Hage _ _ _ _ _ _ _ _ H).
  - destruct (well_formed_preserved int_of_text check_profanity IH)
      as (_ & _ & _ & _ & Hp). exact (Hp _ _ _ _ _ _ _ _ H).
  - destruct (well_formed_preserved int_of_text check_profanity IH)
      as (Hm & _). exact (Hm _ _ _ _ _ H).
  - destruct (well_formed_preserved int_of_text check_profanity IH)
      as (_ & Hc & _). exact (Hc _ _ _ _ _ H).
  - destruct (well_formed_preserved int_of_text check_profanity IH)
      as (_ & _ & Hs & _). exact (Hs _ _ _ H).
Qed.

(** ** Pairs made by the sweep *)

Lemma forall2_in_r (A : Type) (R : A -> A -> Prop) (l0 l : list A) (x : A) :
  Forall2 R l0 l -> In x l -> exists x0, In x0 l0 /\ R x0 x.
Proof.
  induction 1 as [|a0 a l0 l Ha _ IH]; intro Hin; [destruct Hin|].
  destruct Hin as [<-|Hin].
  - exists a0. split; [now left|assumption].
  - destruct (IH Hin) as (x0 & Hx0 & HR). exists x0. split; [now right|assumption].
Qed.

Lemma forall2_map_r_weaken (A : Type) (R R' : A -> A -> Prop) (h : A -> A)
  (l0 l : list A) :
  (forall x0 x, R x0 x -> R' x0 (h x)) -> Forall2 R l0 l -> Forall2 R' l0 (map h l).
Proof. intros Hh H. induction H; simpl; constructor; auto. Qed.

Lemma forall2_map_id (A B : Type) (R : A -> A -> Prop) (g : A -> B) (l0 l : list A) :
  (forall x0 x, R x0 x -> g x = g x0) -> Forall2 R l0 l -> map g l = map g l0.
Proof. intros Hg H. induction H; simpl; [reflexivity|]. f_equal; auto. Qed.

Section SweepPairs.

Variable db0 : DB.

Lemma sweep_pairing_init : sweep_pairing db0 (mkSweep db0 [] [] 0%nat) [].
Proof.
  constructor; simpl.
  - now rewrite app_nil_r.
  - apply forall2_refl. intro u. unfold swept_row. tauto.
  - intros c u [].
  - intros c q [].
  - intros e He. now left.
Qed.

Lemma sweep_pairing_skip (st : sweep_state) (added : list Chat.t) (uid : Z) :
  sweep_pairing db0 st added -> sweep_pairing db0 (mark_processed uid st) added.
Proof. intros [H1 H2 H3 H4 H5]. now constructor. Qed.

(** A user the sweep finds stale was stale at the start or has been
    paired by the sweep. *)
Lemma stale_now_explained (st : sweep_state) (added : list Chat.t) (uid : Z) :
  well_formed (sweep_db st) ->
  sweep_pairing db0 st added ->
  stale_in (sweep_db st) uid ->
  stale_in db0 uid \/ exists c, In c added /\ takes_part uid c.
Proof.
  intros Hwf [H1 H2 H3 H4 H5] [Hmiss|(u & Hu & Hid & Hst)].
  - left. left. intros u0 Hu0 E.
    assert (In uid (map User.id (users (sweep_db st)))) as Hin.
    { rewrite (@forall2_map_id _ _ (swept_row added) User.id (users db0)
                 (users (sweep_db st)));
        [rewrite <- E; now apply in_map| |assumption].
      intros x0 x Hx. apply Hx. }
    apply in_map_iff in Hin. destruct Hin as (u & E' & Hu). now apply (Hmiss u).
  - destruct (@forall2_in_r _ _ _ _ _ H2 Hu) as (u0 & Hu0 & Hid0 & Hban & Hcur).
    unfold stale_row in Hst. apply orb_true_iff in Hst.
    destruct Hst as [Hb|Ht].
    + left. right. exists u0. repeat split; [assumption|congruence|].
      unfold stale_row. rewrite <- Hban, Hb. reflexivity.
    + destruct Hcur as [Hsame|(c & Hc & Hsome)].
      * left. right. exists u0. repeat split; [assumption|congruence|].
        unfold stale_row. rewrite <- Hsame, Ht. apply orb_true_r.
      * right. exists c. split; [assumption|].
        destruct (@wf_current_chat _ Hwf u _ Hu Hsome) as (c' & Hc' & Hid' & Hpart).
        assert (c' = c) as ->.
        { apply (@unique_by_key _ Chat.id (chats (sweep_db st)) c' c);
            [apply (wf_chat_ids Hwf)|assumption| |assumption].
          rewrite H1. apply in_or_app. now right. }
        unfold takes_part. now rewrite <- Hid.
Qed.

Lemma sweep_pairing_remove (st : sweep_state) (added : list Chat.t) (uid : Z) :
  well_formed (sweep_db st) ->
  sweep_pairing db0 st added ->
  stale_in (sweep_db st) uid ->
  sweep_pairing db0
    (mkSweep (remove_from_queue (sweep_db st) uid) (processed_users st) (sweep_sent st)
       (sweep_clock st))
    added.
Proof.
  intros Hwf Hsp Hstale. pose proof (@stale_now_explained st added uid Hwf Hsp Hstale) as Hwhy.
  destruct Hsp as [H1 H2 H3 H4 H5]. constructor; simpl; try assumption.
  - intros c q Hc Hq. apply filter_In in Hq. now apply (H4 c q Hc).
  - intros e He. destruct (H5 e He) as [Hin|Hrest]; [|now right].
    destruct (Z.eq_dec (QueueEntry.user_id e) uid) as [E|E].
    + right. now rewrite E.
    + left. apply filter_In. split; [assumption|]. now apply negb_true_iff, Z.eqb_neq.
Qed.

Lemma sweep_pairing_matched (st : sweep_state) (added : list Chat.t) (now : Z)
  (user partner : User.t) (role problem : string) (sent : list action)
  (processed : list Z) (tick : nat) :
  well_formed (sweep_db st) ->
  sweep_pairing db0 st added ->
  select_user_by_id (sweep_db st) (User.id user) = Ok (Some user) ->
  select_user_by_id (sweep_db st) (User.id partner) = Ok (Some partner) ->
  stale_row user = false ->
  truthy (User.current_chat_id partner) = false ->
  sweep_pairing db0
    (mkSweep
       (remove_from_queue
          (remove_from_queue
             (fst (create_chat now (sweep_db st) user partner role problem))
             (User.id user))
          (User.id partner))
       processed sent tick)
    (added ++ [snd (create_chat now (sweep_db st) user partner role problem)]).
Proof.
  intros Hwf [H1 H2 H3 H4 H5] Hu Hp Hfresh Hfree.
  pose proof (create_chat_facts now (sweep_db st) user partner role problem) as Hcc.
  cbv zeta in Hcc.
  destruct Hcc as (Hchats & _ & _ & _ & _ & Hu1 & Hu2 & _ & _ & Hlinked & Hothers & _).
  set (db1 := fst (create_chat now (sweep_db st) user partner role problem)) in *.
  set (chat := snd (create_chat now (sweep_db st) user partner role problem)) in *.
  assert (Hfree_user : truthy (User.current_chat_id user) = false).
  { unfold stale_row in Hfresh. now apply orb_false_iff in Hfresh. }
  (* a participant of a chat added before keeps its row *)
  assert (Hkeeps : forall c u, In c added -> In u (users (sweep_db st)) ->
                     takes_part (User.id u) c ->
                     User.id u <> User.id user /\ User.id u <> User.id partner).
  { intros c u Hc Hin Hpart. pose proof (H3 c u Hc Hin Hpart) as Hcur.
    assert (Hpos : 0 < Chat.id c).
    { apply (@wf_chat_ids_positive _ Hwf). rewrite H1. apply in_or_app. now right. }
    assert (Htr : truthy (User.current_chat_id u) = true).
    { rewrite Hcur. simpl. apply negb_true_iff, Z.eqb_neq. lia. }
    split; intro E.
    - rewrite (@select_user_by_id_only _ _ _ _ Hu Hin E) in Htr. congruence.
    - rewrite (@select_user_by_id_only _ _ _ _ Hp Hin E) in Htr. congruence. }
  constructor; cbn [sweep_db]; simpl queue_entries; simpl users; simpl chats.
  - change (chats db1 = chats db0 ++ added ++ [chat]).
    now rewrite Hchats, H1, app_assoc.
  - change (Forall2 (swept_row (added ++ [chat])) (users db0) (users db1)).
    unfold db1. rewrite users_after_create_chat. rewrite map_map.
    refine (@forall2_map_r_weaken _ (swept_row added) (swept_row (added ++ [chat])) _ _ _ _ H2).
    intros x0 x (Hid & Hban & Hcur).
    assert (Hweak : User.current_chat_id x = User.current_chat_id x0 \/
                    exists c, In c (added ++ [chat]) /\
                              User.current_chat_id x = Some (Chat.id c)).
    { destruct Hcur as [?|(c & Hc & ?)]; [now left|right].
      exists c. split; [apply in_or_app; now left|assumption]. }
    assert (Hset : forall v, User.id v = User.id x ->
                     User.is_banned v = User.is_banned x ->
                     User.current_chat_id v
                     = Some (fresh_id (map Chat.id (chats (sweep_db st)))) ->
                     swept_row (added ++ [chat]) x0 v).
    { intros v Hv Hbv Hcv. repeat split; [congruence|congruence|].
      right. exists chat. split; [apply in_or_app; right; now left|exact Hcv]. }
    destruct (User.id x =? User.id user); cbn [User.id User.with_current_chat_id];
      destruct (_ =? User.id partner); try (apply Hset; reflexivity).
    now repeat split.
  - change (forall c u, In c (added ++ [chat]) -> In u (users db1) ->
                        takes_part (User.id u) c ->
                        User.current_chat_id u = Some (Chat.id c)).
    intros c u Hc Hin Hpart. apply in_app_or in Hc. destruct Hc as [Hc|[<-|[]]].
    + unfold db1 in Hin. rewrite users_after_create_chat in Hin.
      apply in_map_iff in Hin. destruct Hin as (v & Ev & Hv).
      apply in_map_iff in Hv. destruct Hv as (w & Ew & Hw).
      assert (Hidw : User.id u = User.id w).
      { rewrite <- Ev, <- Ew. destruct (User.id w =? User.id user);
          cbn [User.id User.with_current_chat_id];
          destruct (User.id w =? User.id partner); reflexivity. }
      rewrite Hidw in Hpart.
      destruct (Hkeeps c w Hc Hw Hpart) as [Hnu Hnp].
      assert (u = w) as ->.
      { rewrite <- Ev, <- Ew.
        destruct (Z.eqb_spec (User.id w) (User.id user)); [contradiction|].
        destruct (Z.eqb_spec (User.id w) (User.id partner)); [contradiction|reflexivity]. }
      now apply (H3 c w).
    + apply Hlinked; [assumption|]. unfold takes_part in Hpart.
      rewrite Hu1, Hu2 in Hpart. destruct Hpart; [now left|now right].
  - change (forall c q, In c (added ++ [chat]) ->
              In q (queue_entries
                      (remove_from_queue (remove_from_queue db1 (User.id user))
                         (User.id partner))) ->
              ~ takes_part (QueueEntry.user_id q) c).
    intros c q Hc Hq. apply remove_from_queue_in in Hq. destruct Hq as [Hq Hnp].
    apply remove_from_queue_in in Hq. destruct Hq as [Hq Hnu].
    apply in_app_or in Hc. destruct Hc as [Hc|[<-|[]]].
    + apply (H4 c q Hc).
      pose proof (create_chat_facts now (sweep_db st) user partner role problem) as F.
      cbv zeta in F. destruct F as (_ & _ & _ & _ & _ & _ & _ & _ & _ & _ & _ & _ & F & _).
      fold db1 in F. now rewrite <- F.
    + unfold takes_part. rewrite Hu1, Hu2. intros [E|E]; congruence.
  - change (forall e, In e (queue_entries db0) ->
              In e (queue_entries
                      (remove_from_queue (remove_from_queue db1 (User.id user))
                         (User.id partner))) \/
              stale_in db0 (QueueEntry.user_id e) \/
              exists c, In c (added ++ [chat]) /\ takes_part (QueueEntry.user_id e) c).
    intros e He. destruct (H5 e He) as [Hin|[Hs|(c & Hc & Hpart)]].
    + destruct (Z.eq_dec (QueueEntry.user_id e) (User.id user)) as [E|E].
      { right. right. exists chat. split; [apply in_or_app; right; now left|].
        left. now rewrite Hu1. }
      destruct (Z.eq_dec (QueueEntry.user_id e) (User.id partner)) as [E'|E'].
      { right. right. exists chat. split; [apply in_or_app; right; now left|].
        right. now rewrite Hu2. }
      left. apply remove_from_queue_in. split; [|assumption].
      apply remove_from_queue_in. split; [|assumption].
      pose proof (create_chat_facts now (sweep_db st) user partner role problem) as F.
      cbv zeta in F. destruct F as (_ & _ & _ & _ & _ & _ & _ & _ & _ & _ & _ & _ & F & _).
      fold db1 in F. now rewrite F.
    + right. now left.
    + right. right. exists c. split; [apply in_or_app; now left|assumption].
Qed.

Lemma sweep_step_pairs (clk : nat -> Z) (st : sweep_state) (added : list Chat.t)
  (e : QueueEntry.t) :
  well_formed (sweep_db st) ->
  sweep_pairing db0 st added ->
  exists st' added',
    sweep_step clk st e = Ok st' /\ well_formed (sweep_db st') /\
    sweep_pairing db0 st' added'.
Proof.
  intros Hwf Hsp.
  destruct (@wf_sweep_step clk st e Hwf) as (st' & Hstep & Hwf').
  exists st'. revert Hstep. unfold sweep_step.
  destruct (mem _ _); [intro H; inversion H; subst; now exists added|].
  destruct (select_user_by_id (sweep_db st) (QueueEntry.user_id e)) as [[user|]|x] eqn:Hu;
    cbn [bind]; [| |discriminate].
  2:{ intro H. inversion H; subst. exists added. split; [reflexivity|]. split; [assumption|].
      apply sweep_pairing_remove; try assumption.
      left. now apply select_user_by_id_none. }
  destruct (@select_user_by_id_sound _ _ _ Hu) as [Hin Hid].
  destruct (stale_row user) eqn:Hst.
  { intro H. inversion H; subst. exists added. split; [reflexivity|]. split; [assumption|].
    apply sweep_pairing_remove; try assumption. right. now exists user. }
  destruct (find_match _ _ _ _) as [matched|] eqn:Hm.
  2:{ intro H. inversion H; subst. exists added. split; [reflexivity|]. split; [assumption|].
      now apply sweep_pairing_skip. }
  destruct (select_user_by_id (sweep_db st) (User.id matched)) as [[mu|]|x] eqn:Hmu;
    cbn [bind]; [| |discriminate].
  2:{ intro H. inversion H; subst. exists added. split; [reflexivity|]. split; [assumption|].
      now apply sweep_pairing_skip. }
  destruct (truthy (User.current_chat_id mu)) eqn:Htr; cbn [negb].
  { intro H. inversion H; subst. exists added. split; [reflexivity|]. split; [assumption|].
    now apply sweep_pairing_skip. }
  destruct (create_chat _ (sweep_db st) user mu _ _) as [db1 chat] eqn:Hc.
  intro H. inversion H; subst. clear H.
  exists (added ++ [chat]). split; [reflexivity|]. split; [assumption|].
  destruct (@select_user_by_id_sound _ _ _ Hmu) as [Hinm Hidm].
  replace db1 with (fst (create_chat (clk (sweep_clock st)) (sweep_db st) user mu
                           (QueueEntry.role e) (QueueEntry.problem_type e)))
    by (now rewrite Hc).
  replace chat with (snd (create_chat (clk (sweep_clock st)) (sweep_db st) user mu
                            (QueueEntry.role e) (QueueEntry.problem_type e)))
    by (now rewrite Hc).
  apply sweep_pairing_matched; try assumption.
  - now rewrite Hid.
  - now rewrite Hidm.
Qed.

Lemma sweep_loop_pairs (clk : nat -> Z) (entries : list QueueEntry.t) (st : sweep_state)
  (added : list Chat.t) :
  well_formed (sweep_db st) ->
  sweep_pairing db0 st added ->
  exists st' added',
    sweep_loop clk st entries = (st', None) /\ well_formed (sweep_db st') /\
    sweep_pairing db0 st' added'.
Proof.
  revert st added. induction entries as [|e entries IH]; intros st added Hwf Hsp; simpl.
  - now exists st, added.
  - destruct (@sweep_step_pairs clk st added e Hwf Hsp) as (st1 & added1 & -> & Hwf1 & Hsp1).
    exact (IH _ _ Hwf1 Hsp1).
Qed.

End SweepPairs.

(** In a well-formed store a sweep pairs nobody twice: every chat it adds
    is, at the end, the current chat of both its participants, neither of
    whom is left in the queue, and two chats it adds share no
    participant. *)
Theorem sweep_pairs_each_user_once (clk : nat -> Z) (db : DB) :
  well_formed db ->
  exists st added,
    periodic_matchmaking_task clk db = (st, None) /\
    chats (sweep_db st) = chats db ++ added /\
    (forall c u, In c added -> In u (users (sweep_db st)) -> takes_part (User.id u) c ->
                 User.current_chat_id u = Some (Chat.id c)) /\
    (forall c q, In c added -> In q (queue_entries (sweep_db st)) ->
                 ~ takes_part (QueueEntry.user_id q) c) /\
    (forall c1 c2 uid, In c1 added -> In c2 added ->
                       takes_part uid c1 -> takes_part uid c2 -> c1 = c2).
Proof.
  intro Hwf. unfold periodic_matchmaking_task.
  destruct (@sweep_loop_pairs db clk (queue_entries db) (mkSweep db [] [] 0%nat) []
              Hwf (sweep_pairing_init db)) as (st & added & Hrun & Hwf' & [H1 H2 H3 H4 H5]).
  exists st, added. repeat (split; [assumption|]).
  intros c1 c2 uid Hc1 Hc2 Hp1 Hp2.
  assert (Hin1 : In c1 (chats (sweep_db st))) by (rewrite H1; apply in_or_app; now right).
  assert (Hin2 : In c2 (chats (sweep_db st))) by (rewrite H1; apply in_or_app; now right).
  assert (Huid : In uid (map User.id (users (sweep_db st)))).
  { destruct (@wf_participants _ Hwf' c1 Hin1) as (_ & Ha & Hb).
    destruct Hp1 as [<-|<-]; assumption. }
  apply in_map_iff in Huid. destruct Huid as (u & <- & Hu).
  pose proof (H3 c1 u Hc1 Hu Hp1) as E1. pose proof (H3 c2 u Hc2 Hu Hp2) as E2.
  apply (@unique_by_key _ Chat.id (chats (sweep_db st)) c1 c2);
    [apply (wf_chat_ids Hwf')|assumption|assumption|congruence].
Qed.

(** In a well-formed store a sweep drops nobody who is still waiting: a
    queue row that is gone after the sweep belonged to a user who was
    missing, banned or in a chat when the sweep began, or who takes part
    in a chat the sweep added. *)
Theorem sweep_keeps_waiting_users (clk : nat -> Z) (db : DB) :
  well_formed db ->
  exists st added,
    periodic_matchmaking_task clk db = (st, None) /\
    chats (sweep_db st) = chats db ++ added /\
    forall e, In e (queue_entries db) ->
      In e (queue_entries (sweep_db st)) \/
      stale_in db (QueueEntry.user_id e) \/
      exists c, In c added /\ takes_part (QueueEntry.user_id e) c.
Proof.
  intro Hwf. unfold periodic_matchmaking_task.
  destruct (@sweep_loop_pairs db clk (queue_entries db) (mkSweep db [] [] 0%nat) []
              Hwf (sweep_pairing_init db)) as (st & added & Hrun & _ & [H1 H2 H3 H4 H5]).
  exists st, added. repeat (split; [assumption|]). exact H5.
Qed.

(** ** The theorems on well-formed stores, at sample stores *)

Lemma empty_store_well_formed : well_formed empty_store.
Proof. constructor; simpl; try constructor; intros; contradiction. Qed.

Lemma two_waiting_well_formed : well_formed MoreSamples.two_waiting.
Proof.
  constructor; simpl.
  - repeat constructor; simpl; intuition discriminate.
  - repeat constructor; simpl; intuition discriminate.
  - intros u [<-|[<-|[]]]; unfold MIN_AGE, MAX_AGE; simpl; lia.
  - constructor.
  - intros c [].
  - intros c [].
  - intros u cid [<-|[<-|[]]]; discriminate.
  - repeat constructor; simpl; intuition discriminate.
  - constructor.
Qed.

Lemma handlers_keep_store_well_formed_witness : well_formed MoreSamples.first_user.
Proof.
  destruct (@handlers_keep_store_well_formed MoreSamples.int_of_text Samples.check_profanity
              empty_store empty_store_well_formed) as (_ & _ & _ & Hage & _).
  apply (Hage 5 101 "16"%string MoreSamples.fresh_user_data MoreSamples.first_user
           WAITING_ROLE (mkUserData (Some 16) (Some 1) None None)
           [reply_notice RegisteredChooseRole]).
  reflexivity.
Defined.

Lemma well_formed_store_handlers_do_not_fail_witness :
  handle_callback Samples.clk MoreSamples.two_waiting 101 "view_chat_9223372036854775808"
    = Raise OverflowError /\
  handle_callback Samples.clk MoreSamples.two_waiting 101 "view_chat_seven"
    = Raise ValueError /\
  exists st, periodic_matchmaking_task Samples.clk MoreSamples.two_waiting = (st, None).
Proof.
  destruct (@well_formed_store_handlers_do_not_fail Samples.check_profanity
              MoreSamples.two_waiting two_waiting_well_formed) as (_ & Hcb & Hsweep & _).
  { intros c []. }
  split; [|split; [|exact (Hsweep Samples.clk)]].
  - destruct (Hcb Samples.clk 101 "view_chat_9223372036854775808"%string)
      as [(db' & out & H)|(_ & part & _ & [[_ H]|(n & _ & _ & H)])];
      [vm_compute in H; discriminate|vm_compute in H; discriminate|exact H].
  - destruct (Hcb Samples.clk 101 "view_chat_seven"%string)
      as [(db' & out & H)|(_ & part & _ & [[_ H]|(n & _ & _ & H)])];
      [vm_compute in H; discriminate|exact H|vm_compute in H; discriminate].
Defined.

Lemma reachable_store_is_well_formed_witness : well_formed MoreSamples.first_user.
Proof.
  apply (@reachable_store_is_well_formed MoreSamples.int_of_text Samples.check_profanity).
  apply (@reach_age MoreSamples.int_of_text Samples.check_profanity empty_store 5 101
           "16"%string MoreSamples.fresh_user_data MoreSamples.first_user WAITING_ROLE
           (mkUserData (Some 16) (Some 1) None None) [reply_notice RegisteredChooseRole]).
  - apply reach_empty.
  - reflexivity.
Defined.

Lemma sweep_pairs_each_user_once_witness :
  exists st added,
    periodic_matchmaking_task Samples.clk MoreSamples.two_waiting = (st, None) /\
    chats (sweep_db st) = chats MoreSamples.two_waiting ++ added.
Proof.
  destruct (@sweep_pairs_each_user_once Samples.clk MoreSamples.two_waiting
              two_waiting_well_formed) as (st & added & H1 & H2 & _).
  now exists st, added.
Defined.

Lemma sweep_keeps_waiting_users_witness :
  exists st added,
    periodic_matchmaking_task Samples.clk MoreSamples.two_waiting = (st, None) /\
    chats (sweep_db st) = chats MoreSamples.two_waiting ++ added.
Proof.
  destruct (@sweep_keeps_waiting_users Samples.clk MoreSamples.two_waiting
              two_waiting_well_formed) as (st & added & H1 & H2 & _).
  now exists st, added.
Defined.

(** ** The history menu *)

Lemma in_firstn (A : Type) (n : nat) (l : list A) (x : A) : In x (firstn n l) -> In x l.
Proof.
  revert l. induction n as [|n IH]; intros [|a l]; simpl; try tauto.
  intros [->|H]; [now left|right; now apply IH].
Qed.

Lemma history_join_chats_in (db : DB) (h : ChatHistory.t) (c : Chat.t) :
  In (h, c) (history_join_chats db) <->
  In h (chat_history db) /\ In c (chats db) /\ Chat.id c = ChatHistory.chat_id h.
Proof.
  unfold history_join_chats. rewrite in_flat_map. split.
  - intros (h' & Hh' & Hin). apply in_map_iff in Hin.
    destruct Hin as (c' & Heq & Hc'). inversion Heq; subst.
    apply filter_In in Hc'. destruct Hc' as [Hc' Hid].
    repeat split; try assumption. now apply Z.eqb_eq.
  - intros (Hh & Hc & Hid). exists h. split; [assumption|].
    apply in_map. apply filter_In. split; [assumption|]. now apply Z.eqb_eq.
Qed.

Lemma history_buttons_sound (db : DB) (user : User.t)
  (entries : list (ChatHistory.t * Chat.t)) (i : nat) (keyboard : list (nat * Z * string)) :
  history_buttons db user i entries = Ok keyboard ->
  (List.length keyboard <= List.length entries)%nat /\
  forall n age data, In (n, age, data) keyboard ->
    exists h c p,
      In (h, c) entries /\
      select_user_by_id db (partner_id_of c user) = Ok (Some p) /\
      age = User.age p /\
      data = ("view_chat_" ++ py_str (Chat.id c))%string.
Proof.
  revert i keyboard. induction entries as [|[h c] rest IH]; intros i keyboard; simpl.
  - intro H. inversion H; subst. split; [simpl; lia|]. intros n age data [].
  - destruct (select_user_by_id db (partner_id_of c user)) as [partner|x] eqn:Hp;
      cbn [bind]; [|discriminate].
    destruct (history_buttons db user (S i) rest) as [kb|x] eqn:Hkb; cbn [bind];
      [|discriminate].
    destruct (IH _ _ Hkb) as [Hlen Hall].
    destruct partner as [p|]; intro H; inversion H; subst; simpl.
    + split; [lia|]. intros n age data [E|Hin].
      * inversion E; subst. exists h, c, p. repeat split; auto.
      * destruct (Hall n age data Hin) as (h' & c' & p' & Hin' & Hrest).
        exists h', c', p'. split; [now right|assumption].
    + split; [lia|]. intros n age data Hin.
      destruct (Hall n age data Hin) as (h' & c' & p' & Hin' & Hrest).
      exists h', c', p'. split; [now right|assumption].
Qed.

(** The history menu has at most three buttons.  Each names a chat that
    exists and for which the user has a history row, shows the age of the
    other participant of that chat, and carries the payload
    [view_chat_<id>]; pressed by that user, the payload opens the
    transcript of that very chat. *)
Theorem history_buttons_open_their_chats
  (clk : nat -> Z) (db : DB) (tg : Z) (user : User.t) (keyboard : list (nat * Z * string)) :
  select_user_by_telegram_id db tg = Ok (Some user) ->
  User.is_banned user = false ->
  handle_callback clk db tg "chat_history"
    = Ok (db, [edit_message_text (HistoryMenu keyboard)]) ->
  (List.length keyboard <= 3)%nat /\
  forall n age data, In (n, age, data) keyboard ->
    exists h c p,
      In h (chat_history db) /\ ChatHistory.user_id h = User.id user /\
      In c (chats db) /\ Chat.id c = ChatHistory.chat_id h /\
      select_user_by_id db (partner_id_of c user) = Ok (Some p) /\
      age = User.age p /\
      data = ("view_chat_" ++ py_str (Chat.id c))%string /\
      handle_callback clk db tg data
        = (out <- view_chat_history db user (Chat.id c) ;; Ok (db, out)).
Proof.
  intros Hu Hb H. unfold handle_callback in H. rewrite Hu in H. cbn [bind] in H.
  rewrite Hb in H.
  replace (String.eqb "chat_history" "find_match") with false in H by reflexivity.
  replace (startswith "chat_history" "menu_role_") with false in H by reflexivity.
  replace (startswith "chat_history" "menu_problem_") with false in H by reflexivity.
  replace (String.eqb "chat_history" "chat_history") with true in H by reflexivity.
  unfold show_chat_history in H.
  set (entries := firstn 3 _) in H.
  assert (Hlen3 : (List.length entries <= 3)%nat) by apply firstn_le_length.
  assert (Hsub : forall h c, In (h, c) entries ->
                   In h (chat_history db) /\ ChatHistory.user_id h = User.id user /\
                   In c (chats db) /\ Chat.id c = ChatHistory.chat_id h).
  { intros h c Hin. apply in_firstn in Hin.
    apply (proj1 (order_by_in _ _ _)) in Hin. apply filter_In in Hin.
    destruct Hin as [Hjoin Hmine]. apply history_join_chats_in in Hjoin.
    simpl in Hmine. apply Z.eqb_eq in Hmine. tauto. }
  destruct entries as [|row rows] eqn:E; [inversion H|].
  destruct (history_buttons db user 1%nat (row :: rows)) as [kb|x] eqn:Hkb;
    cbn [bind] in H; [|discriminate].
  inversion H; subst kb. clear H.
  apply history_buttons_sound in Hkb. destruct Hkb as [Hlen Hall].
  split; [lia|].
  intros n age data Hin. destruct (Hall n age data Hin) as (h & c & p & Hrow & Hp & Ha & Hd).
  destruct (Hsub h c Hrow) as (Hh & Hmine & Hc & Hid).
  exists h, c, p. repeat (split; [assumption|]).
  rewrite Hd. exact (@handle_callback_view_chat clk db tg user (Chat.id c) Hu Hb).
Qed.

(** ** After a chat has been ended *)

Lemma end_chat_cases (clk : nat -> Z) (db : DB) (user : User.t) (db' : DB)
  (out : list action) :
  end_chat clk db user = Ok (db', out) ->
  (db' = db /\
   (out = [edit_message_text (Fixed NoticeNoActiveChat)] \/
    out = [edit_message_text (Fixed NoticeChatNotFound)])) \/
  exists chat partner,
    users db' =
      map (fun u => if User.id u =? User.id user
                    then User.with_current_chat_id None u else u)
        (match partner with
         | Some p => map (fun u => if User.id u =? User.id p
                                   then User.with_current_chat_id None u else u)
                       (users db)
         | None => users db
         end) /\
    select_user_by_id db (partner_id_of chat user) = Ok partner /\
    out = match partner with
          | Some p => [send_message (User.telegram_id p) (Fixed NoticePartnerEndedChat)]
          | None => []
          end ++ [edit_message_text (Fixed NoticeChatEnded)].
Proof.
  unfold end_chat.
  destruct (User.current_chat_id user) as [cid|] eqn:Hc;
    [|intro H; inversion H; left; split; [reflexivity|now left]].
  destruct (Z.eqb_spec cid 0) as [|Hcid]; cbn [negb];
    [intro H; inversion H; left; split; [reflexivity|now left]|].
  destruct (select_chat_by_id db cid) as [[chat|]|e] eqn:Hchat; cbn [bind];
    [|intro H; inversion H; left; split; [reflexivity|now right]|discriminate].
  replace (select_user_by_id (update_chat (Chat.id chat) (Chat.ended (clk 0%nat)) db)
             (partner_id_of chat user))
    with (select_user_by_id db (partner_id_of chat user)) by reflexivity.
  destruct (select_user_by_id db (partner_id_of chat user)) as [partner|e] eqn:Hp;
    cbn [bind]; [|discriminate].
  destruct (record_history (clk 1%nat) _ (User.id user) (Chat.id chat)) as [db4|e] eqn:H4;
    cbn [bind]; [|discriminate].
  apply record_history_frame in H4. destruct H4 as (Hu4 & _).
  destruct partner as [p|].
  - destruct (record_history (clk 2%nat) db4 (User.id p) (Chat.id chat)) as [db5|e] eqn:H5;
      cbn [bind]; [|discriminate].
    apply record_history_frame in H5. destruct H5 as (Hu5 & _).
    intro H. inversion H; subst. right. exists chat, (Some p).
    split; [|split; [assumption|reflexivity]]. rewrite Hu5, Hu4. reflexivity.
  - cbn [bind]. intro H. inversion H; subst. right. exists chat, None.
    split; [|split; [assumption|reflexivity]]. rewrite Hu4. reflexivity.
Qed.

Lemma select_user_by_telegram_id_map (db db' : DB) (f : User.t -> User.t) (tg : Z)
  (u : User.t) :
  (forall x, User.telegram_id (f x) = User.telegram_id x) ->
  users db' = map f (users db) ->
  select_user_by_telegram_id db tg = Ok (Some u) ->
  select_user_by_telegram_id db' tg = Ok (Some (f u)).
Proof.
  intros Hf Hmap H. unfold select_user_by_telegram_id in *.
  apply scalar_one_or_none_some in H. rewrite Hmap.
  rewrite filter_map_commute by (intro x; now rewrite Hf).
  now rewrite H.
Qed.

Lemma select_user_by_telegram_id_of_row (db : DB) (u : User.t) :
  NoDup (map User.telegram_id (users db)) -> In u (users db) ->
  select_user_by_telegram_id db (User.telegram_id u) = Ok (Some u).
Proof.
  intros Hnd Hin. unfold select_user_by_telegram_id.
  destruct (@unique_column_lookup _ User.telegram_id (users db) (User.telegram_id u) Hnd)
    as [E|[x E]].
  - exfalso. apply (filter_nil_not_in _ _ _ E). now apply in_map.
  - rewrite E. simpl.
    assert (u = x) as ->; [|reflexivity].
    apply (@filter_singleton_in _ _ (users db) x u E Hin). apply Z.eqb_refl.
Qed.

Section AfterEnd.

Variable check_profanity : string -> bool.

(** Once the [end_chat] button has ended a chat (the answer is the
    chat-ended notice), the relay is closed on both sides.  A second press
    by the same user is answered with the no-active-chat notice and
    changes nothing, and so is every clean text of that user.  Whoever was
    sent the partner-ended notice gets, for every clean text, only a
    notice back (no active chat, or blocked when banned), and nothing is
    stored or forwarded.  Telegram ids are unique, as the schema
    declares. *)
Theorem ended_chat_closes_relay_for_both
  (clk : nat -> Z) (db : DB) (tg : Z) (user : User.t) (db' : DB) (out : list action) :
  NoDup (map User.telegram_id (users db)) ->
  select_user_by_telegram_id db tg = Ok (Some user) ->
  User.is_banned user = false ->
  handle_callback clk db tg "end_chat" = Ok (db', out) ->
  In (edit_message_text (Fixed NoticeChatEnded)) out ->
  (forall clk',
     handle_callback clk' db' tg "end_chat"
       = Ok (db', [edit_message_text (Fixed NoticeNoActiveChat)])) /\
  (forall now txt, check_profanity txt = false ->
     handle_message check_profanity now db' tg txt
       = Ok (db', [reply_text (Fixed NoticeNoActiveChatStart)])) /\
  (forall partner_tg,
     In (send_message partner_tg (Fixed NoticePartnerEndedChat)) out ->
     forall now txt, check_profanity txt = false ->
       exists n,
         handle_message check_profanity now db' partner_tg txt
           = Ok (db', [reply_text (Fixed n)]) /\
         (n = NoticeNoActiveChatStart \/ n = NoticeBanned)).
Proof.
  intros Hnd Hu Hb H Hended.
  rewrite (handle_callback_end_chat clk db tg Hu Hb) in H.
  apply end_chat_cases in H.
  destruct H as [[_ [->| ->]]|(chat & partner & Husers & Hp & Hout)];
    [destruct Hended as [E|[]]; discriminate
    |destruct Hended as [E|[]]; discriminate|].
  set (clear_of := fun (uid : Z) (u : User.t) =>
                     if User.id u =? uid then User.with_current_chat_id None u else u).
  set (f := fun u : User.t =>
              clear_of (User.id user)
                (match partner with
                 | Some p => clear_of (User.id p) u
                 | None => u
                 end)).
  assert (Hmap : users db' = map f (users db)).
  { rewrite Husers. destruct partner as [p|]; [rewrite map_map|]; reflexivity. }
  assert (Hclear : forall uid u,
            User.id (clear_of uid u) = User.id u /\
            User.telegram_id (clear_of uid u) = User.telegram_id u /\
            User.is_banned (clear_of uid u) = User.is_banned u /\
            (User.current_chat_id u = None -> User.current_chat_id (clear_of uid u) = None) /\
            (User.id u = uid -> User.current_chat_id (clear_of uid u) = None)).
  { intros uid u. unfold clear_of. destruct (Z.eqb_spec (User.id u) uid) as [E|N];
      simpl; repeat split; auto. intro E. contradiction. }
  assert (Hf : forall u,
            User.telegram_id (f u) = User.telegram_id u /\
            User.is_banned (f u) = User.is_banned u /\
            (User.id u = User.id user -> User.current_chat_id (f u) = None) /\
            (forall p, partner = Some p -> User.id u = User.id p ->
                       User.current_chat_id (f u) = None)).
  { intro u. unfold f. destruct partner as [p|].
    - destruct (Hclear (User.id p) u) as (I1 & T1 & B1 & _ & C1).
      destruct (Hclear (User.id user) (clear_of (User.id p) u)) as (I2 & T2 & B2 & K2 & C2).
      split; [congruence|]. split; [congruence|]. split.
      + intro E. apply C2. congruence.
      + intros p' Hp' E. inversion Hp'; subst p'. apply K2. now apply C1.
    - destruct (Hclear (User.id user) u) as (I2 & T2 & B2 & K2 & C2).
      split; [assumption|]. split; [assumption|]. split; [assumption|]. discriminate. }
  assert (Htg : forall x, User.telegram_id (f x) = User.telegram_id x)
    by (intro x; apply Hf).
  pose proof (@select_user_by_telegram_id_map db db' f tg user Htg Hmap Hu) as Hu'.
  destruct (Hf user) as (_ & Hb' & Hnone & _). rewrite Hb in Hb'.
  specialize (Hnone eq_refl).
  split; [|split].
  - intro clk'. rewrite (handle_callback_end_chat clk' db' tg Hu' Hb').
    unfold end_chat. now rewrite Hnone.
  - intros now txt Hclean. unfold handle_message. rewrite Hu'. cbn [bind].
    now rewrite Hb', Hclean, Hnone.
  - intros partner_tg Hsent now txt Hclean.
    rewrite Hout in Hsent. apply in_app_or in Hsent.
    destruct Hsent as [Hsent|[E|[]]]; [|discriminate].
    destruct partner as [p|]; [|destruct Hsent].
    destruct Hsent as [E|[]]. injection E as Etg.
    pose proof (select_user_by_id_sound _ _ Hp) as [Hin Hid].
    pose proof (@select_user_by_telegram_id_of_row db p Hnd Hin) as Hsel.
    rewrite Etg in Hsel.
    pose proof (@select_user_by_telegram_id_map db db' f partner_tg p Htg Hmap Hsel) as Hsel'.
    destruct (Hf p) as (_ & Hbp & _ & Hnp). specialize (Hnp p eq_refl eq_refl).
    unfold handle_message. rewrite Hsel'. cbn [bind]. rewrite Hbp.
    destruct (User.is_banned p).
    + exists NoticeBanned. split; [reflexivity|now right].
    + rewrite Hclean, Hnp. exists NoticeNoActiveChatStart. split; [reflexivity|now left].
Qed.

End AfterEnd.

Lemma ended_chat_closes_relay_for_both_witness :
  exists db' out,
    handle_callback Samples.clk Samples.talking 101 "end_chat" = Ok (db', out) /\
    handle_callback Samples.clk db' 101 "end_chat"
      = Ok (db', [edit_message_text (Fixed NoticeNoActiveChat)]) /\
    handle_message Samples.check_profanity 7 db' 101 "hello"
      = Ok (db', [reply_text (Fixed NoticeNoActiveChatStart)]).
Proof.
  destruct (handle_callback Samples.clk Samples.talking 101 "end_chat")
    as [[db' out]|e] eqn:E; [|vm_compute in E; discriminate].
  exists db', out. split; [reflexivity|].
  assert (Hnd : NoDup (map User.telegram_id (users Samples.talking)))
    by (repeat constructor; simpl; intuition discriminate).
  assert (Hin : In (edit_message_text (Fixed NoticeChatEnded)) out).
  { vm_compute in E. injection E as _ <-. simpl. tauto. }
  destruct (@ended_chat_closes_relay_for_both Samples.check_profanity Samples.clk
              Samples.talking 101 (Samples.alice (Some 1)) db' out Hnd eq_refl eq_refl E Hin)
    as (H1 & H2 & _).
  split; [apply H1|]. apply H2. reflexivity.
Defined.

Lemma history_buttons_open_their_chats_witness :
  exists c,
    In c (chats Samples.three_in_history) /\
    handle_callback Samples.clk Samples.three_in_history 101 "view_chat_3"
      = (out <- view_chat_history Samples.three_in_history (Samples.alice (Some 4))
                  (Chat.id c) ;;
         Ok (Samples.three_in_history, out)).
Proof.
  destruct (@history_buttons_open_their_chats Samples.clk Samples.three_in_history 101
              (Samples.alice (Some 4))
              [(1%nat, 15, "view_chat_3"%string); (2%nat, 15, "view_chat_2"%string);
               (3%nat, 15, "view_chat_1"%string)]
              eq_refl eq_refl eq_refl) as [_ H].
  destruct (H 1%nat 15 "view_chat_3"%string (or_introl eq_refl))
    as (h & c & p & _ & _ & Hc & _ & _ & _ & _ & Hopen).
  exists c. split; assumption.
Defined.
